(** * EagleAI frontend: mask decoding, frame extraction, rate estimation,
      overlay compositing, assembly and playback synchronisation

  A shallow embedding of the client-side video pipeline of the EagleAI
  frontend (TypeScript) together with the properties its specification
  states about it.

  Conventions.
  - JavaScript integers that index pixels and runs are [Z]; canvas and
    array sizes are [nat].
  - A typed array ([Uint8ClampedArray]) is a [list Z]; a store outside
    its bounds is silently dropped, as the platform does.
  - A constructor or call that throws is a function into [option] or
    into a result type.
  - Browser events (a seek completing, a timer firing, an image failing
    to load) are inputs of the model: each asynchronous function takes
    the outcome the platform delivered and returns what the promise
    settles to.
  - A JavaScript [number] that is not an index is NaN, an infinity or a
    rational, with exact arithmetic on the rationals (module [JS]).  The
    rounding of a result to binary64 is an explicit operator where a
    statement depends on the rounded value (module [Binary64]); elsewhere
    the arithmetic is exact. *)

From Stdlib Require Import ZArith QArith Qround Lia Lqa.
From stdpp Require Import base list strings sorting.

#[local] Open Scope Z_scope.

(** ** Typed arrays and [ImageData] *)

Module TypedArray.

(** [data[idx] = v] on an integer-indexed exotic object: an index that is
    negative or past the end is ignored. *)
Definition store (data : list Z) (idx v : Z) : list Z :=
  if 0 <=? idx then <[Z.to_nat idx := v]> data else data.

End TypedArray.

(** [xs[idx]] on an ordinary array with an integer [idx]; [None] stands for
    [undefined]. *)
Definition arrayGet {A : Type} (xs : list A) (idx : Z) : option A :=
  if 0 <=? idx then xs !! Z.to_nat idx else None.

Record ImageData := mkImageData {
  width : nat;
  height : nat;
  data : list Z
}.

(** [new ImageData(sw, sh)]: an [IndexSizeError] is thrown when either
  dimension is zero; otherwise the buffer holds [4 * sw * sh] zero bytes
  (transparent black). *)
Definition newImageData (sw sh : nat) : option ImageData :=
  if ((sw =? 0) || (sh =? 0))%nat then None
  else Some (mkImageData sw sh (replicate (4 * sw * sh) 0)).

(** ** RLEMaskDecoder: [decodeRLEToImageData] *)

Module RLE.

(** [{ size: [height, width], counts: number[] }] *)
Record RLEMask := mkMask {
  size : nat * nat;
  counts : list Z
}.

(** The body of the innermost loop: four stores guarded by
    [idx + 3 < data.length]. *)
Definition setWhite (data : list Z) (j : Z) : list Z :=
  let idx := j * 4 in
  if idx + 3 <? Z.of_nat (length data) then
    let data := TypedArray.store data idx 255 in
    let data := TypedArray.store data (idx + 1) 255 in
    let data := TypedArray.store data (idx + 2) 255 in
    TypedArray.store data (idx + 3) 255
  else data.

(** [for (let j = p; j < endIdx; j++) { ... }], unrolled [n] times from [j]. *)
Fixpoint forRange (n : nat) (j : Z) (data : list Z) : list Z :=
  match n with
  | O => data
  | S n' => forRange n' (j + 1) (setWhite data j)
  end.

Definition fillRun (data : list Z) (p endIdx : Z) : list Z :=
  forRange (Z.to_nat (endIdx - p)) p data.

(** The decoder's loop state: the pixel cursor, the fill value and the
    buffer being written. *)
Record decoder := mkDecoder {
  p : Z;
  val : Z;
  buf : list Z
}.

(** The fill value as the loop holds it. *)
Definition valOf (v : bool) : Z := if v then 1 else 0.

(** One iteration of [for (let i = 0; i < counts.length; i++)]. *)
Definition step (wh : Z) (st : decoder) (count : Z) : decoder :=
  let buf' :=
    if val st =? 1
    then fillRun (buf st) (p st) (Z.min (p st + count) wh)
    else buf st in
  mkDecoder (p st + count) (1 - val st) buf'.

Definition decodeLoop (wh : Z) (cs : list Z) (st : decoder) : decoder :=
  fold_left (step wh) cs st.

Definition decodeRLEToImageData (mask : RLEMask) (width height : nat)
  : option ImageData :=
  match newImageData width height with
  | None => None
  | Some imageData =>
      let wh := Z.of_nat width * Z.of_nat height in
      let final :=
        decodeLoop wh (counts mask) (mkDecoder 0 0 (data imageData)) in
      Some (mkImageData width height (buf final))
  end.

(** Reading the result back: pixel [j] as its four bytes, and as the bit
    the specification speaks of (1 for opaque white, 0 for untouched). *)
Definition pixel (d : list Z) (j : nat) : option (Z * Z * Z * Z) :=
  match d !! (4 * j)%nat, d !! (4 * j + 1)%nat,
        d !! (4 * j + 2)%nat, d !! (4 * j + 3)%nat with
  | Some r, Some g, Some b, Some a => Some (r, g, b, a)
  | _, _, _, _ => None
  end.

Definition white : Z * Z * Z * Z := (255, 255, 255, 255).
Definition clear : Z * Z * Z * Z := (0, 0, 0, 0).

Definition bit (px : option (Z * Z * Z * Z)) : option Z :=
  match px with
  | Some (255, 255, 255, 255) => Some 1
  | Some (0, 0, 0, 0) => Some 0
  | _ => None
  end.

Definition bits (img : ImageData) : list (option Z) :=
  map (fun j => bit (pixel (data img) j)) (seq 0 (width img * height img)).

(** The run structure of a mask, stated without reference to the loop:
    [start cs i] is where run [i] begins, and pixel [j] is foreground when
    it falls in a run of odd position. *)
Definition start (cs : list Z) (i : nat) : Z := foldr Z.add 0 (take i cs).

Definition foreground (cs : list Z) (j : Z) : Prop :=
  exists i count, cs !! i = Some count /\ Nat.odd i = true /\
                  start cs i <= j < start cs i + count.

(** The same membership, computed along the runs from cursor [p] with the
    fill value [v] ([true] for foreground). *)
Fixpoint inRun (cs : list Z) (p : Z) (v : bool) (j : Z) : bool :=
  match cs with
  | [] => false
  | count :: rest =>
      (v && (p <=? j) && (j <? p + count)) || inRun rest (p + count) (negb v) j
  end.

End RLE.

(** ** JavaScript numbers

    A [number] is NaN, one of the two infinities, or a finite value.  Finite
    values are the rationals they denote and arithmetic on them is exact:
    the rounding of IEEE-754 binary64 and the sign of zero are not modelled.
    The special values follow ECMAScript: comparisons with NaN are false,
    [Math.min] and [Math.max] propagate NaN, a finite non-zero value divided
    by zero is an infinity, and [0/0], [Infinity/Infinity] and
    [0 * Infinity] are NaN. *)

Module JS.

Inductive number :=
| NaN
| PosInf
| NegInf
| Fin (q : Q).

Definition of_Z (z : Z) : number := Fin (inject_Z z).
Definition of_nat (n : nat) : number := of_Z (Z.of_nat n).

(** Equality up to the representation of a rational. *)
Definition eqv (x y : number) : Prop :=
  match x, y with
  | NaN, NaN | PosInf, PosInf | NegInf, NegInf => True
  | Fin a, Fin b => (a == b)%Q
  | _, _ => False
  end.

Definition neg (x : number) : number :=
  match x with
  | NaN => NaN
  | PosInf => NegInf
  | NegInf => PosInf
  | Fin a => Fin (- a)%Q
  end.

Definition add (x y : number) : number :=
  match x, y with
  | NaN, _ | _, NaN => NaN
  | PosInf, NegInf | NegInf, PosInf => NaN
  | PosInf, _ | _, PosInf => PosInf
  | NegInf, _ | _, NegInf => NegInf
  | Fin a, Fin b => Fin (a + b)%Q
  end.

Definition sub (x y : number) : number := add x (neg y).

(** An infinity scaled by a finite factor [b]. *)
Definition scaleInf (positive : bool) (b : Q) : number :=
  match (b ?= 0)%Q with
  | Eq => NaN
  | Gt => if positive then PosInf else NegInf
  | Lt => if positive then NegInf else PosInf
  end.

Definition mul (x y : number) : number :=
  match x, y with
  | NaN, _ | _, NaN => NaN
  | PosInf, PosInf | NegInf, NegInf => PosInf
  | PosInf, NegInf | NegInf, PosInf => NegInf
  | PosInf, Fin b | Fin b, PosInf => scaleInf true b
  | NegInf, Fin b | Fin b, NegInf => scaleInf false b
  | Fin a, Fin b => Fin (a * b)%Q
  end.

Definition div (x y : number) : number :=
  match x, y with
  | NaN, _ | _, NaN => NaN
  | Fin a, Fin b =>
      match (b ?= 0)%Q with
      | Eq => match (a ?= 0)%Q with
              | Eq => NaN
              | Gt => PosInf
              | Lt => NegInf
              end
      | _ => Fin (a / b)%Q
      end
  | Fin _, _ => Fin 0
  | PosInf, Fin b => if Qle_bool 0 b then PosInf else NegInf
  | NegInf, Fin b => if Qle_bool 0 b then NegInf else PosInf
  | _, _ => NaN
  end.

(** [x < y] and [x <= y]; [x > y] is [ltb y x] and [x >= y] is [leb y x]. *)
Definition ltb (x y : number) : bool :=
  match x, y with
  | NaN, _ | _, NaN => false
  | _, NegInf | PosInf, _ => false
  | NegInf, _ | _, PosInf => true
  | Fin a, Fin b => negb (Qle_bool b a)
  end.

Definition leb (x y : number) : bool :=
  match x, y with
  | NaN, _ | _, NaN => false
  | NegInf, _ | _, PosInf => true
  | _, NegInf | PosInf, _ => false
  | Fin a, Fin b => Qle_bool a b
  end.

Definition gtb (x y : number) : bool := ltb y x.
Definition geb (x y : number) : bool := leb y x.

Definition Math_min (x y : number) : number :=
  match x, y with
  | NaN, _ | _, NaN => NaN
  | _, _ => if leb x y then x else y
  end.

Definition Math_max (x y : number) : number :=
  match x, y with
  | NaN, _ | _, NaN => NaN
  | _, _ => if leb x y then y else x
  end.

Definition Math_floor (x : number) : number :=
  match x with
  | Fin a => of_Z (Qfloor a)
  | _ => x
  end.

(** [Math.round]: the nearest integer, a tie going up. *)
Definition Math_round (x : number) : number :=
  match x with
  | Fin a => of_Z (Qfloor (a + (1 # 2)))
  | _ => x
  end.

(** [Math.max(...xs)]; [-Infinity] on no argument. *)
Definition Math_max_all (xs : list number) : number :=
  foldr Math_max NegInf xs.

Definition isFinite (x : number) : bool :=
  match x with
  | Fin _ => true
  | _ => false
  end.

(** [xs[i]] for a number [i]: an element when [i] is an integer within the
    bounds, [None] (for [undefined]) otherwise. *)
Definition index {A : Type} (xs : list A) (i : number) : option A :=
  match i with
  | Fin q =>
      if Qeq_bool q (inject_Z (Qfloor q)) && (0 <=? Qfloor q)
      then xs !! Z.to_nat (Qfloor q)
      else None
  | _ => None
  end.

End JS.

(** ** Settled promises *)

Inductive error :=
| NoFramesProvided
| FailedToGetCanvasContext
| FailedToLoadFirstFrame
| MediaRecorderError
| FailedToLoadVideo
| TimeoutWaitingForFrame (frameIdx : Z)
| NonFiniteCurrentTime
| IndexSizeError
| UndefinedColor.

(** The text of [new Error(...)] where the source fixes it. *)
Definition message (e : error) : option string :=
  match e with
  | NoFramesProvided => Some "No frames provided"
  | FailedToGetCanvasContext => Some "Failed to get canvas context"
  | FailedToLoadFirstFrame => Some "Failed to load first frame"
  | MediaRecorderError => Some "MediaRecorder error"
  | FailedToLoadVideo => Some "Failed to load video"
  | _ => None
  end.

Inductive promise (A : Type) :=
| Resolved (a : A)
| Rejected (e : error).

Arguments Resolved {A} a.
Arguments Rejected {A} e.

(** ** FrameRateReconciler: the metadata promise of [trackVideoText] and
       [trackVideoTextFast] *)

Module Rates.

Import JS.

Record estimate := mkEstimate {
  duration : number;
  sam3FPS : number;
  originalFPS : number
}.

(** What the temporary video element reports. *)
Inductive metadataEvent :=
| loadedmetadata (duration : number)
| metadataError.

(** [sam3FPS <= 10 ? 5 : (sam3FPS <= 15 ? 2 : 1)] *)
Definition fpsMultiplier (sam3FPS : number) : number :=
  if leb sam3FPS (of_Z 10) then of_Z 5
  else if leb sam3FPS (of_Z 15) then of_Z 2
  else of_Z 1.

(** [duration > 0 && maxFrameIdx > 0
       ? Math.round((maxFrameIdx + 1) / duration) : 30]

    The quotient is exact here.  The code rounds it to binary64 before
    [Math.round]: the two agree unless the exact quotient lies within one
    rounding error of a half-integer. *)
Definition sampledRate (duration : number) (frameIndices : list Z) : number :=
  let maxFrameIdx := Math_max_all (map of_Z frameIndices) in
  if gtb duration (of_Z 0) && gtb maxFrameIdx (of_Z 0)
  then Math_round (div (add maxFrameIdx (of_Z 1)) duration)
  else of_Z 30.

Definition onloadedmetadata (duration : number) (frameIndices : list Z)
  : estimate :=
  let sam3FPS := sampledRate duration frameIndices in
  let fpsMultiplier := fpsMultiplier sam3FPS in
  let originalFPS := mul sam3FPS fpsMultiplier in
  mkEstimate duration sam3FPS originalFPS.

(** [resolve({ duration: 10, sam3FPS: 30, originalFPS: 30 })] *)
Definition onerror : estimate :=
  mkEstimate (of_Z 10) (of_Z 30) (of_Z 30).

Definition videoMetadata (ev : metadataEvent) (frameIndices : list Z)
  : estimate :=
  match ev with
  | loadedmetadata duration => onloadedmetadata duration frameIndices
  | metadataError => onerror
  end.

(** The largest of the indices, [None] when there is none. *)
Fixpoint maxIdx (frameIndices : list Z) : option Z :=
  match frameIndices with
  | [] => None
  | x :: rest =>
      Some (match maxIdx rest with
            | Some y => Z.max x y
            | None => x
            end)
  end.

(** The rule as the specification words it: the rounded quotient, never
    below 1, and 30 when there is no finite duration. *)
Definition spec_sampledRate (ev : metadataEvent) (frameIndices : list Z)
  : number :=
  match ev with
  | loadedmetadata (Fin d) =>
      Math_max (of_Z 1)
        (Math_round
           (div (add (Math_max_all (map of_Z frameIndices)) (of_Z 1)) (Fin d)))
  | _ => of_Z 30
  end.

End Rates.

(** ** Raster images and the canvas operations the pipeline uses

    A raster is a row-major list of 8-bit RGBA pixels with straight alpha.
    PNG export and [createImageBitmap] are lossless, so an [ImageBitmap] and
    a PNG data URL are represented by the raster they hold. *)

Module Canvas.

Definition rgba : Type := Z * Z * Z * Z.

Record Raster := mkRaster {
  rw : nat;
  rh : nat;
  pixels : list rgba
}.

Definition transparent : rgba := (0, 0, 0, 0).

(** A canvas that has just been given its size. *)
Definition blank (w h : nat) : Raster :=
  mkRaster w h (replicate (w * h) transparent).

(** Rounding to a stored 8-bit channel. *)
Definition quantize (q : Q) : Z :=
  Z.max 0 (Z.min 255 (Qfloor (q + (1 # 2)))).

(** Porter-Duff [source-over] of pixel [s] onto pixel [d] under
    [globalAlpha], computed on the rationals and rounded once.  It is the
    canvas's value where nothing is blended: a transparent source, or an
    opaque source at [globalAlpha] 1 on an opaque destination.  Where two
    colours mix, the 8-bit arithmetic of a browser can differ from it by a
    unit. *)
Definition sourceOver (globalAlpha : Q) (s d : rgba) : rgba :=
  let '(sr, sg, sb, sa) := s in
  let '(dr, dg, db, da) := d in
  let alphaS := (globalAlpha * (sa # 255))%Q in
  let alphaD := (da # 255)%Q in
  let alphaO := (alphaS + alphaD * (1 - alphaS))%Q in
  if Qeq_bool alphaO 0 then transparent
  else
    let channel (cs cd : Z) :=
      quantize ((inject_Z cs * alphaS + inject_Z cd * alphaD * (1 - alphaS))
                / alphaO) in
    (channel sr dr, channel sg dg, channel sb db,
     quantize (alphaO * 255)).

(** [fillRect] of the whole canvas with an opaque [rgb(...)] style under
    [source-in]: the colour shows where the canvas already had coverage. *)
Definition sourceIn (color : Z * Z * Z) (d : rgba) : rgba :=
  let '(cr, cg, cb) := color in
  let '(_, _, _, da) := d in
  if da =? 0 then transparent else (cr, cg, cb, da).

(** [ctx.drawImage(src, 0, 0)] onto a canvas of the same size. *)
Definition drawImage (globalAlpha : Q) (src dst : Raster) : Raster :=
  mkRaster (rw dst) (rh dst)
    (imap (fun k d =>
             match pixels src !! k with
             | Some s => sourceOver globalAlpha s d
             | None => d
             end) (pixels dst)).

Definition fillSourceIn (color : Z * Z * Z) (dst : Raster) : Raster :=
  mkRaster (rw dst) (rh dst) (map (sourceIn color) (pixels dst)).

(** [putImageData(imageData, 0, 0)] on a canvas of the image's size. *)
Definition putImageData (img : ImageData) : Raster :=
  mkRaster (width img) (height img)
    (omap (RLE.pixel (data img)) (seq 0 (width img * height img))).

Definition channel8 (c : Z) : Prop := 0 <= c <= 255.

Definition validPixel (px : rgba) : Prop :=
  let '(r, g, b, a) := px in
  channel8 r /\ channel8 g /\ channel8 b /\ channel8 a.

(** A raster holds one valid pixel for each position. *)
Definition wellFormed (r : Raster) : Prop :=
  length (pixels r) = (rw r * rh r)%nat /\ Forall validPixel (pixels r).

Definition opaque (r : Raster) : Prop :=
  Forall (fun px => px.2 = 255) (pixels r).

End Canvas.

(** ** OverlayCompositor: [colorForObjectId] and [renderMasksOnFrame] *)

Module Overlay.

Import Canvas.

Definition colors : list (Z * Z * Z) :=
  [ (255, 0, 0);      (* Red *)
    (0, 255, 0);      (* Green *)
    (0, 0, 255);      (* Blue *)
    (255, 255, 0);    (* Yellow *)
    (255, 0, 255);    (* Magenta *)
    (0, 255, 255);    (* Cyan *)
    (255, 165, 0);    (* Orange *)
    (128, 0, 128);    (* Purple *)
    (255, 192, 203);  (* Pink *)
    (0, 128, 0) ].    (* Dark Green *)

(** [colors[objId % colors.length]]; [%] keeps the sign of [objId], and a
    negative index reads [undefined]. *)
Definition colorForObjectId (objId : Z) : option (Z * Z * Z) :=
  arrayGet colors (Z.rem objId (Z.of_nat (length colors))).

(** [objectIds[i] || i]: the position stands in when the entry is missing
    or falsy. *)
Definition objIdAt (objectIds : list Z) (i : nat) : Z :=
  match objectIds !! i with
  | Some id => if id =? 0 then Z.of_nat i else id
  | None => Z.of_nat i
  end.

(** The colour the loop of [renderMasksOnFrame] gives the mask at position
    [i]: [colorForObjectId(objectIds[i] || i)]. *)
Definition maskColor (objectIds : list Z) (i : nat) : option (Z * Z * Z) :=
  let objId := objIdAt objectIds i in
  colorForObjectId objId.

Section render.

(** The platform's nearest-neighbour resampling
    ([imageSmoothingEnabled = false]) of a canvas to a target size. *)
Variable scaleNearest : nat -> nat -> Raster -> Raster.

(** One iteration of the loop over [masks], on the main canvas. *)
Definition renderMask (alpha : Q) (objectIds : list Z) (canvas : Raster)
    (i : nat) (mask : RLE.RLEMask) : promise Raster :=
  let color := maskColor objectIds i in
  let '(maskHeight, maskWidth) := RLE.size mask in
  match RLE.decodeRLEToImageData mask maskWidth maskHeight with
  | None => Rejected IndexSizeError
  | Some maskImageData =>
      let maskCanvas := putImageData maskImageData in
      let scaled :=
        if bool_decide (maskWidth <> rw canvas \/ maskHeight <> rh canvas)
        then scaleNearest (rw canvas) (rh canvas) maskCanvas
        else maskCanvas in
      match color with
      | None => Rejected UndefinedColor
      | Some color =>
          let overlayCanvas :=
            fillSourceIn color
              (drawImage 1 scaled (blank (rw canvas) (rh canvas))) in
          Resolved (drawImage alpha overlayCanvas canvas)
      end
  end.

Fixpoint renderLoop (alpha : Q) (objectIds : list Z) (canvas : Raster)
    (i : nat) (masks : list RLE.RLEMask) : promise Raster :=
  match masks with
  | [] => Resolved canvas
  | mask :: rest =>
      match renderMask alpha objectIds canvas i mask with
      | Resolved canvas' => renderLoop alpha objectIds canvas' (S i) rest
      | Rejected e => Rejected e
      end
  end.

(** [context2d] says whether [getContext('2d')] yields a context during
    the call. *)
Definition renderMasksOnFrame (context2d : bool) (frameImage : Raster)
    (masks : list RLE.RLEMask) (objectIds : list Z) (alpha : Q)
  : promise Raster :=
  if negb context2d then Rejected FailedToGetCanvasContext
  else
    let canvas :=
      drawImage 1 frameImage (blank (rw frameImage) (rh frameImage)) in
    renderLoop alpha objectIds canvas 0 masks.

End render.

(** The colour the specification gives an object: the palette entry at
    [id mod paletteSize]. *)
Definition spec_color (id : Z) : option (Z * Z * Z) :=
  colors !! Z.to_nat (id mod Z.of_nat (length colors)).

End Overlay.

(** ** FrameExtractor: [extractVideoFrames] *)

Module Extractor.

Import JS Canvas.

(** The source video: its metadata and the picture it displays once a seek
    to a given time has completed. *)
Record Video := mkVideo {
  duration : number;
  picture : number -> Raster
}.

(** What happens after ['seeked'] fires, inside [onSeeked]. *)
Inductive captureOutcome :=
| DrawThrows          (* [ctx.drawImage] throws *)
| BlobNull            (* [canvas.toBlob] calls back with [null] *)
| BitmapRejected      (* [createImageBitmap] rejects *)
| BitmapCreated.      (* the bitmap is pushed *)

(** What the platform does for the seek of each requested frame index:
    after how many milliseconds ['seeked'] fires ([None]: never), and how
    the capture that follows goes. *)
Record platform := mkPlatform {
  loads : bool;
  context2d : bool;
  seekedAfter : Z -> option Z;
  capture : Z -> captureOutcome
}.

(** [setTimeout(..., 5000)] *)
Definition seekTimeoutMs : Z := 5000.

Inductive seekOutcome :=
| Seeked
| TimedOut.

(** The race between the ['seeked'] listener and the timer. *)
Definition awaitSeek (pf : platform) (frameIdx : Z) : seekOutcome :=
  match seekedAfter pf frameIdx with
  | Some ms => if ms <? seekTimeoutMs then Seeked else TimedOut
  | None => TimedOut
  end.

(** The [for] loop over [frameIndices] inside the [try] block; [frames] is
    the array being filled.  A rejection of the awaited per-frame promise
    is thrown into the enclosing [catch], which rejects the extraction. *)
Fixpoint extractLoop (video : Video) (pf : platform) (fps : number)
    (frameIndices : list Z) (frames : list Raster) : promise (list Raster) :=
  match frameIndices with
  | [] => Resolved frames
  | frameIdx :: rest =>
      let time := div (of_Z frameIdx) fps in
      if gtb time (duration video) then
        extractLoop video pf fps rest frames
      else if negb (isFinite time) then
        (* [video.currentTime = time] throws a TypeError *)
        Rejected NonFiniteCurrentTime
      else
        match awaitSeek pf frameIdx with
        | TimedOut => Rejected (TimeoutWaitingForFrame frameIdx)
        | Seeked =>
            match capture pf frameIdx with
            | BitmapCreated =>
                extractLoop video pf fps rest (frames ++ [picture video time])
            | _ => extractLoop video pf fps rest frames
            end
        end
  end.

Definition extractVideoFrames (video : Video) (pf : platform)
    (frameIndices : list Z) (fps : number) : promise (list Raster) :=
  if negb (loads pf) then Rejected FailedToLoadVideo
  else if negb (context2d pf) then Rejected FailedToGetCanvasContext
  else extractLoop video pf fps frameIndices [].

(** An index is attempted when its time does not exceed the duration. *)
Definition attempted (video : Video) (fps : number) (frameIdx : Z) : Prop :=
  gtb (div (of_Z frameIdx) fps) (duration video) = false.

(** The extraction the specification describes: every index whose seek and
    capture succeed contributes its picture, every other index is left
    out, and nothing fails as a whole. *)
Definition succeeds (video : Video) (pf : platform) (fps : number)
    (frameIdx : Z) : bool :=
  let time := div (of_Z frameIdx) fps in
  negb (gtb time (duration video)) && isFinite time &&
  match awaitSeek pf frameIdx, capture pf frameIdx with
  | Seeked, BitmapCreated => true
  | _, _ => false
  end.

Definition spec_extract (video : Video) (pf : platform) (fps : number)
    (frameIndices : list Z) : list (Z * Raster) :=
  map (fun frameIdx => (frameIdx, picture video (div (of_Z frameIdx) fps)))
      (List.filter (succeeds video pf fps) frameIndices).

End Extractor.

(** ** The rendering loop of [trackVideoText] and [trackVideoTextFast] *)

Module Tracker.

Import JS Canvas.

(** One element of [data.frames]; a missing [masks] or [object_ids] is the
    empty list ([frameData.masks || []]). *)
Record FramePacket := mkPacket {
  frame_idx : Z;
  masks : list RLE.RLEMask;
  object_ids : list Z
}.

(** [data.frames.map(f => f.frame_idx).sort((a, b) => a - b)] *)
Definition sortedIndices (frames : list FramePacket) : list Z :=
  merge_sort Z.le (map frame_idx frames).

(** [xs.indexOf(x)], [-1] when absent. *)
Fixpoint indexOf (xs : list Z) (x : Z) : Z :=
  match xs with
  | [] => -1
  | y :: ys =>
      if y =? x then 0
      else let k := indexOf ys x in if k =? -1 then -1 else k + 1
  end.

(** "Find corresponding original frame": the extracted image a packet is
    rendered on, if any. *)
Definition originalFrameFor (frameIndices : list Z)
    (originalFrames : list Raster) (frameIdx : Z) : option Raster :=
  let frameIndexInArray := indexOf frameIndices frameIdx in
  if (frameIndexInArray =? -1)
     || (Z.of_nat (length originalFrames) <=? frameIndexInArray)
  then None
  else arrayGet originalFrames frameIndexInArray.

Section render.

Variable scaleNearest : nat -> nat -> Raster -> Raster.
Variable context2d : bool.

(** The frame drawn on a fresh canvas, pushed only [if (ctx)]. *)
Definition copyFrame (originalFrame : Raster) : list Raster :=
  if context2d
  then [drawImage 1 originalFrame (blank (rw originalFrame) (rh originalFrame))]
  else [].

(** What one packet adds to [renderedFrames], given its original frame. *)
Definition renderPacket (frameData : FramePacket) (originalFrame : Raster)
  : list Raster :=
  if (0 <? length (masks frameData))%nat then
    match Overlay.renderMasksOnFrame scaleNearest context2d originalFrame
            (masks frameData) (object_ids frameData) (7 # 10) with
    | Resolved renderedFrameUrl => [renderedFrameUrl]
    | _ => copyFrame originalFrame
    end
  else copyFrame originalFrame.

(** The loop over [data.frames]: the pairs (packet, image it is rendered
    on), and the frames it produces. *)
Definition pairing (frames : list FramePacket) (frameIndices : list Z)
    (originalFrames : list Raster) : list (FramePacket * Raster) :=
  omap (fun frameData =>
          match originalFrameFor frameIndices originalFrames
                  (frame_idx frameData) with
          | Some originalFrame => Some (frameData, originalFrame)
          | None => None
          end) frames.

Definition renderedFrames (frames : list FramePacket) (frameIndices : list Z)
    (originalFrames : list Raster) : list Raster :=
  flat_map (fun '(frameData, originalFrame) =>
              renderPacket frameData originalFrame)
           (pairing frames frameIndices originalFrames).

End render.

End Tracker.

(** ** [decodeMasksToDataURL]: all masks of a still image on one canvas *)

Module MaskImage.

Import Canvas.

(** The result is a PNG data URL, or the empty string ([None]) when there
    is nothing to decode or decoding fails inside the [try] block. *)
Definition decodeMasksToDataURL (context2d : bool)
    (masks : list RLE.RLEMask) : option Raster :=
  match masks with
  | [] => None
  | first :: _ =>
      let '(height, width) := RLE.size first in
      if negb context2d then None
      else
        match newImageData width height with
        | None => None
        | Some imageData =>
            let wh := Z.of_nat width * Z.of_nat height in
            let data :=
              fold_left
                (fun data mask =>
                   RLE.buf (RLE.decodeLoop wh (RLE.counts mask)
                              (RLE.mkDecoder 0 0 data)))
                masks (data imageData) in
            Some (putImageData (mkImageData width height data))
        end
  end.

End MaskImage.

(** ** VideoAssembler: [createVideoFromFrames] *)

Module Assembler.

Import JS.

Section frames.

(** An encoded frame (a data URL or bare base64 string). *)
Context {Frame : Type}.

(** The platform during one assembly: whether a 2D context is available,
    which frames decode as images, and whether the recorder reports an
    error. *)
Record platform := mkPlatform {
  context2d : bool;
  imageLoads : Frame -> bool;
  recorderError : bool
}.

(** The encoded output: the frames drawn, in order, and the capture rate. *)
Record ReconstructedVideo := mkVideo {
  drawn : list Frame;
  rate : number
}.

(** [frames] is [None] for a missing ([null] or [undefined]) argument. *)
Definition createVideoFromFrames (pf : platform)
    (frames : option (list Frame)) (fps : number)
  : promise ReconstructedVideo :=
  match frames with
  | None | Some [] => Rejected NoFramesProvided
  | Some ((first :: _) as frames) =>
      if negb (context2d pf) then Rejected FailedToGetCanvasContext
      else if negb (imageLoads pf first) then Rejected FailedToLoadFirstFrame
      else if recorderError pf then Rejected MediaRecorderError
      else Resolved (mkVideo (List.filter (imageLoads pf) frames) fps)
  end.

End frames.

Arguments platform : clear implicits.
Arguments ReconstructedVideo : clear implicits.

End Assembler.

(** ** Rounding to binary64

    A quotient or a product of two JavaScript numbers is the exact result
    rounded to the nearest binary64 value.  Where a property depends on the
    rounded value itself the rounding is an operator [fl] of the model, of
    which only what IEEE 754 round-to-nearest guarantees is used: the result
    is a number (an infinity on overflow, never NaN), rounding keeps the
    order, and a value that binary64 holds is not changed. *)

Module Binary64.

Import JS.

(** [q] is [m * 2 ^ e] for a significand below [2 ^ 53] and an exponent of
    binary64. *)
Definition representable (q : Q) : Prop :=
  exists m e : Z,
    Z.abs m < 2 ^ 53 /\ -1074 <= e <= 971 /\ (q == inject_Z m * 2 ^ e)%Q.

Record nearest (fl : Q -> number) : Prop := mkNearest {
  nearest_number : forall q : Q, fl q <> NaN;
  nearest_monotone : forall a b : Q, (a <= b)%Q -> leb (fl a) (fl b) = true;
  nearest_exact : forall q : Q, representable q -> eqv (fl q) (Fin q)
}.

(** The rounding of a result; NaN and the infinities are kept. *)
(** The smallest normal number, 2^-1022. *)
Definition minNormal : Q := 1 # (2 ^ 1022).

Definition rounded (fl : Q -> number) (x : number) : number :=
  match x with
  | Fin q => fl q
  | _ => x
  end.

End Binary64.

(** ** PlaybackSynchronizer: [updateOverlay] *)

Module Synchronizer.

Import JS.

Section rounding.

Variable fl : Q -> number.

(** [Math.max(0, Math.min(1, currentTime / duration))] *)
Definition progress (currentTime duration : number) : number :=
  Math_max (of_Z 0)
    (Math_min (of_Z 1) (Binary64.rounded fl (div currentTime duration))).

(** [Math.min(frameCount - 1, Math.floor(progress * frameCount))];
    [frameCount - 1] is exact, on integers below [2 ^ 53]. *)
Definition frameIndex (currentTime duration : number) (frameCount : nat)
  : number :=
  Math_min (sub (of_nat frameCount) (of_Z 1))
           (Math_floor
              (Binary64.rounded fl
                 (mul (progress currentTime duration) (of_nat frameCount)))).

(** One evaluation: the overlay shown afterwards, [currentOverlayUrl]
    being the one shown before ([None] for [null] or [undefined]). *)
Definition updateOverlay (currentTime duration : number)
    (frames : list string) (currentOverlayUrl : option string)
  : option string :=
  let frameCount := length frames in
  if gtb duration (of_Z 0) && gtb (of_nat frameCount) (of_Z 0) then
    let overlay := index frames (frameIndex currentTime duration frameCount) in
    if bool_decide (currentOverlayUrl <> overlay) then overlay
    else currentOverlayUrl
  else currentOverlayUrl.

End rounding.

End Synchronizer.

(** ** TrimPipeline: the draw loop of [trimVideoFile] *)

Module Trim.

Import JS.

Inductive recorderState :=
| inactive
| recording
| paused.

Record trimmer := mkTrimmer {
  isRecording : bool;
  mediaRecorder : option recorderState;
  videoPaused : bool
}.

(** What one call of [processFrame] did besides updating the state. *)
Record tick := mkTick {
  next : trimmer;
  drew : bool;
  reported : option number;
  rescheduled : bool
}.

Definition stopRecording (t : trimmer) : trimmer :=
  mkTrimmer false
    (match mediaRecorder t with
     | Some inactive => Some inactive
     | Some _ => Some inactive     (* [mediaRecorder.stop()] *)
     | None => None                (* no recorder yet *)
     end)
    true.

(** [Math.min(100, Math.max(0, (current / duration) * 100))] *)
Definition progressValue (currentTime startTime endTime : number) : number :=
  let duration := sub endTime startTime in
  let current := sub currentTime startTime in
  Math_min (of_Z 100) (Math_max (of_Z 0) (mul (div current duration) (of_Z 100))).

Definition processFrame (t : trimmer) (ended : bool)
    (currentTime startTime endTime : number) (onProgress : bool) : tick :=
  if negb (isRecording t) then mkTick t false None false
  else if ended || geb currentTime endTime then
    mkTick (stopRecording t) false None false
  else
    mkTick t true
      (if onProgress then Some (progressValue currentTime startTime endTime)
       else None)
      true.

(** The elapsed fraction of a window, on rationals. *)
Definition fraction (currentTime startTime endTime : Q) : Q :=
  ((currentTime - startTime) / (endTime - startTime))%Q.

(** The progress value as the specification words it: the elapsed fraction
    of the window, kept within [0, 1]. *)
Definition spec_progress (currentTime startTime endTime : number) : number :=
  Math_min (of_Z 1)
    (Math_max (of_Z 0) (div (sub currentTime startTime) (sub endTime startTime))).

End Trim.

(** ** Scenarios

    A ten-second clip whose picture at time [t] is a single opaque pixel
    numbered by the frame [t * 30], so that the picture captured for one
    frame index is told apart from that of another; platforms on which one
    seek never completes, or one capture yields no blob; and a tracking
    result of three packets. *)

Module Scenario.

Import JS Canvas.

Definition clip : Extractor.Video :=
  Extractor.mkVideo (of_Z 10)
    (fun t => mkRaster 1 1
                [ (match t with Fin q => Qfloor (q * 30) | _ => 0 end,
                   0, 0, 255) ]).

Definition pictureOf (frameIdx : Z) : Raster :=
  Extractor.picture clip (div (of_Z frameIdx) (of_Z 30)).

(** Every seek completes after 40 ms, except that of frame 1, which never
    does. *)
Definition stalledSeek : Extractor.platform :=
  Extractor.mkPlatform true true
    (fun frameIdx => if frameIdx =? 1 then None else Some 40)
    (fun _ => Extractor.BitmapCreated).

(** Every seek completes, but [toBlob] yields [null] for frame 1. *)
Definition lostBlob : Extractor.platform :=
  Extractor.mkPlatform true true
    (fun _ => Some 40)
    (fun frameIdx =>
       if frameIdx =? 1 then Extractor.BlobNull else Extractor.BitmapCreated).

Definition packet (frameIdx : Z) : Tracker.FramePacket :=
  Tracker.mkPacket frameIdx [] [].

Definition packets : list Tracker.FramePacket :=
  [packet 0; packet 1; packet 2].

End Scenario.

(** ** Reading results back

    Helpers used to state what the composited images hold. *)

Module Reading.

Import Canvas.

(** Pixel [j] lies in the foreground of one of the masks. *)
Definition covered (masks : list RLE.RLEMask) (j : Z) : bool :=
  existsb (fun mask => RLE.inRun (RLE.counts mask) 0 false j) masks.



End Reading.

(** The pixel the overlay loop leaves at position [j], read off one pixel
    at a time: each mask in turn blends its colour over the pixel when it
    covers it; [None] when a colour is undefined. *)

Module OverlaySpec.

Import Canvas Reading.



(** A mask one of whose dimensions is zero. *)
Definition zeroSized (mask : RLE.RLEMask) : Prop :=
  (RLE.size mask).1 = 0%nat \/ (RLE.size mask).2 = 0%nat.



End OverlaySpec.

(** ** The tail of [trackVideoText] and [trackVideoTextFast]

    What follows the model's response: rate estimation, extraction,
    rendering and assembly, put together as the two trackers do.  The
    response's [boxes] are passed through untouched by the code and are not
    part of a packet here. *)

Module Pipeline.

Import JS Canvas.

(** The errors an extraction can settle with. *)
Definition extractionError (frameIndices : list Z) (e : error) : Prop :=
  e = FailedToLoadVideo \/ e = FailedToGetCanvasContext \/
  e = NonFiniteCurrentTime \/
  exists frameIdx, frameIdx ∈ frameIndices /\ e = TimeoutWaitingForFrame frameIdx.

(** Everything the platform contributes to one run. *)
Record world := mkWorld {
  metadata : Rates.metadataEvent;
  video : Extractor.Video;
  extraction : Extractor.platform;
  renderContext2d : bool;
  assembly : Assembler.platform Raster
}.

Inductive media :=
| VideoMedia (video : Assembler.ReconstructedVideo Raster)
| ImageMedia (image : Raster).

(** The fields of the [AnalysisResult] of a run that rendered something:
    the two counts of its text, whether the text carries "(Video creation
    failed, showing first frame)", the media shown and the frames kept. *)
Record tracked := mkTracked {
  trackedFrames : nat;
  foundObjects : nat;
  creationFailed : bool;
  processedMedia : media;
  rawMasks : list RLE.RLEMask;
  trackingFrames : list Raster
}.

Inductive outcome :=
| NoObjectsTracked            (* "No objects tracked in video." *)
| NoFramesRendered            (* "No frames rendered." *)
| Tracked (result : tracked)
| Thrown (e : error).

Section run.

Variable scaleNearest : nat -> nat -> Raster -> Raster.

Definition trackingResult (w : world) (frames : list Tracker.FramePacket)
  : outcome :=
  match frames with
  | [] => NoObjectsTracked
  | first :: _ =>
      let frameIndices := Tracker.sortedIndices frames in
      let estimate := Rates.videoMetadata (metadata w) frameIndices in
      match Extractor.extractVideoFrames (video w) (extraction w) frameIndices
              (Rates.sam3FPS estimate) with
      | Rejected e => Thrown e
      | Resolved originalFrames =>
          let renderedFrames :=
            Tracker.renderedFrames scaleNearest (renderContext2d w) frames
              frameIndices originalFrames in
          match renderedFrames with
          | [] => NoFramesRendered
          | firstRendered :: _ =>
              let found := length (Tracker.object_ids first) in
              let masks := flat_map Tracker.masks frames in
              match Assembler.createVideoFromFrames (assembly w)
                      (Some renderedFrames) (Rates.originalFPS estimate) with
              | Resolved videoUrl =>
                  Tracked (mkTracked (length frames) found false
                             (VideoMedia videoUrl) masks renderedFrames)
              | Rejected _ =>
                  Tracked (mkTracked (length frames) found true
                             (ImageMedia firstRendered) masks renderedFrames)
              end
          end
      end
  end.

End run.

End Pipeline.

(** ** The image sent to the API

    [processImageForApi] of [aiService]: the image is drawn on a canvas
    whose sides are the natural sides, scaled down to fit 800 pixels,
    rounded to a multiple of 32 and raised to 32.  The bytes of the JPEG
    that [canvas.toBlob] produces are the platform's and are not modelled;
    the sizes and the scale factors are. *)

Module ImageApi.

Import JS.

Definition MAX_DIM : number := of_Z 800.

(** The sides of the canvas, from the natural sides of the image. *)
Definition canvasSize (naturalWidth naturalHeight : number) : number * number :=
  let '(width, height) :=
    if gtb naturalWidth MAX_DIM || gtb naturalHeight MAX_DIM then
      let ratio :=
        Math_min (div MAX_DIM naturalWidth) (div MAX_DIM naturalHeight) in
      (Math_round (mul naturalWidth ratio), Math_round (mul naturalHeight ratio))
    else (naturalWidth, naturalHeight) in
  let width := mul (Math_round (div width (of_Z 32))) (of_Z 32) in
  let height := mul (Math_round (div height (of_Z 32))) (of_Z 32) in
  (Math_max (of_Z 32) width, Math_max (of_Z 32) height).

Record processed := mkProcessed {
  scaleX : number;
  scaleY : number;
  width : number;
  height : number
}.

Inductive failure :=
| ImageLoadError            (* [img.onerror]: rejects with the event *)
| CanvasContextFailed       (* "Canvas context failed" *)
| ImageProcessingFailed.    (* "Image processing failed" *)

(** What the platform contributes: the natural size of the image when it
    loads, whether the canvas gives a 2D context, whether [toBlob] yields a
    blob. *)
Record platform := mkPlatform {
  natural : option (nat * nat);
  context2d : bool;
  blob : bool
}.

Definition processImageForApi (pf : platform) : failure + processed :=
  match natural pf with
  | None => inl ImageLoadError
  | Some (naturalWidth, naturalHeight) =>
      let originalWidth := of_nat naturalWidth in
      let originalHeight := of_nat naturalHeight in
      let '(width, height) := canvasSize originalWidth originalHeight in
      if negb (context2d pf) then inl CanvasContextFailed
      else
        let scaleX := div width originalWidth in
        let scaleY := div height originalHeight in
        if blob pf then inr (mkProcessed scaleX scaleY width height)
        else inl ImageProcessingFailed
  end.

End ImageApi.

(** ** Points and boxes drawn on the viewer

    [types.ts] and the pointer handlers of [MediaViewer].  The React state
    of a gesture is threaded explicitly; each handler sees the state left
    by the handler before it.  The element the pointer is over contributes
    its bounding rectangle and its natural (or video) size. *)

Module Types.

Import JS.

Record Point := mkPoint {
  x : number;
  y : number;
  label : number
}.

Record BoundingBox := mkBox {
  ymin : number;
  xmin : number;
  ymax : number;
  xmax : number
}.

Inductive MediaType :=
| image
| video
| stream.

End Types.

Module Viewer.

Import JS Types.

Definition Math_abs (v : number) : number :=
  match v with
  | NaN => NaN
  | PosInf | NegInf => PosInf
  | Fin a => Fin (if Qle_bool 0 a then a else - a)%Q
  end.

(** [v === w] on numbers. *)
Definition strictEq (v w : number) : bool :=
  match v, w with
  | PosInf, PosInf | NegInf, NegInf => true
  | Fin a, Fin b => Qeq_bool a b
  | _, _ => false
  end.

Record DOMRect := mkRect {
  left : number;
  top : number;
  width : number;
  height : number
}.

Record MouseEvent := mkMouse {
  clientX : number;
  clientY : number;
  button : number
}.

Record coordinates := mkCoordinates {
  naturalX : number;        (* [x] *)
  naturalY : number;        (* [y] *)
  displayX : number;
  displayY : number
}.

Definition getCoordinates (e : MouseEvent) (rect : DOMRect)
    (naturalWidth naturalHeight : number) : coordinates :=
  let x := sub (clientX e) (left rect) in
  let y := sub (clientY e) (top rect) in
  let scaleX := div naturalWidth (width rect) in
  let scaleY := div naturalHeight (height rect) in
  let clampedNaturalX :=
    Math_max (of_Z 0)
      (Math_min (sub naturalWidth (of_Z 1)) (Math_round (mul x scaleX))) in
  let clampedNaturalY :=
    Math_max (of_Z 0)
      (Math_min (sub naturalHeight (of_Z 1)) (Math_round (mul y scaleY))) in
  mkCoordinates clampedNaturalX clampedNaturalY x y.

(** An image or video element: its bounding rectangle and its
    [naturalWidth]/[naturalHeight] (or [videoWidth]/[videoHeight]). *)
Record element := mkElement {
  rect : DOMRect;
  pixelWidth : nat;
  pixelHeight : nat
}.

Record props := mkProps {
  showProcessed : bool;
  mediaType : MediaType;
  trackingFrames : bool;          (* [!!result?.trackingFrames] *)
  onPointClick : bool;            (* the callback is given *)
  onBoxComplete : bool;
  imageRef : option element;
  videoRef : option element
}.

Record gesture := mkGesture {
  isDragging : bool;
  startClientPos : option (number * number);
  startNaturalPos : option (number * number);
  currentDragRect : option BoundingBox
}.

Definition idle : gesture := mkGesture false None None None.

Inductive callback :=
| PointClick (point : Point)
| BoxComplete (box : BoundingBox)
| TogglePlay.

(** The element under the pointer with [nw] and [nh], as each handler
    selects it. *)
Definition target (p : props) : option element * number * number :=
  match mediaType p, imageRef p, videoRef p with
  | image, Some el, _ =>
      (Some el, of_nat (pixelWidth el), of_nat (pixelHeight el))
  | video, _, Some el | stream, _, Some el =>
      (Some el, of_nat (pixelWidth el), of_nat (pixelHeight el))
  | _, _, _ => (None, of_Z 0, of_Z 0)
  end.

Definition handlePointerDown (p : props) (e : MouseEvent) (s : gesture)
    : gesture * option callback :=
  if showProcessed p then (s, None)
  else if match mediaType p with video => trackingFrames p | _ => false end
  then (s, match videoRef p with Some _ => Some TogglePlay | None => None end)
  else if negb (onPointClick p) then (s, None)
  else
    match target p with
    | (Some el, nw, nh) =>
        if gtb nw (of_Z 0) && gtb nh (of_Z 0) then
          let coords := getCoordinates e (rect el) nw nh in
          (mkGesture true (Some (clientX e, clientY e))
             (Some (naturalX coords, naturalY coords)) None, None)
        else (s, None)
    | (None, _, _) => (s, None)
    end.

Definition handlePointerMove (p : props) (e : MouseEvent) (s : gesture)
    : gesture :=
  match isDragging s, startNaturalPos s with
  | true, Some (startX, startY) =>
      match target p with
      | (Some el, nw, nh) =>
          if gtb nw (of_Z 0) then
            let coords := getCoordinates e (rect el) nw nh in
            mkGesture (isDragging s) (startClientPos s) (startNaturalPos s)
              (Some (mkBox (Math_min startY (naturalY coords))
                           (Math_min startX (naturalX coords))
                           (Math_max startY (naturalY coords))
                           (Math_max startX (naturalX coords))))
          else s
      | (None, _, _) => s
      end
  | _, _ => s
  end.

Definition screenThreshold : number := of_Z 4.

Definition handlePointerUp (p : props) (e : MouseEvent) (s : gesture)
    : gesture * option callback :=
  match isDragging s, startNaturalPos s, startClientPos s with
  | true, Some _, Some (startClientX, startClientY) =>
      let emitted :=
        match target p with
        | (Some el, nw, nh) =>
            if gtb nw (of_Z 0) then
              let coords := getCoordinates e (rect el) nw nh in
              let screenDx := Math_abs (sub (clientX e) startClientX) in
              let screenDy := Math_abs (sub (clientY e) startClientY) in
              if ltb screenDx screenThreshold && ltb screenDy screenThreshold
              then
                let isRightClick := strictEq (button e) (of_Z 2) in
                if onPointClick p then
                  Some (PointClick
                          (mkPoint (naturalX coords) (naturalY coords)
                             (if isRightClick then of_Z 0 else of_Z 1)))
                else None
              else
                match onBoxComplete p, currentDragRect s with
                | true, Some box =>
                    if gtb (Math_abs (sub (xmax box) (xmin box))) (of_Z 5)
                       && gtb (Math_abs (sub (ymax box) (ymin box))) (of_Z 5)
                    then Some (BoxComplete box)
                    else None
                | _, _ => None
                end
            else None
        | (None, _, _) => None
        end in
      (idle, emitted)
  | _, _, _ => (s, None)
  end.

Inductive pointerEvent :=
| Down (e : MouseEvent)
| Move (e : MouseEvent)
| Up (e : MouseEvent).

Definition handle (p : props) (ev : pointerEvent) (s : gesture)
    : gesture * option callback :=
  match ev with
  | Down e => handlePointerDown p e s
  | Move e => (handlePointerMove p e s, None)
  | Up e => handlePointerUp p e s
  end.

(** The callbacks of a sequence of pointer events, in order. *)
Fixpoint callbacks (p : props) (events : list pointerEvent) (s : gesture)
    : list callback :=
  match events with
  | [] => []
  | ev :: rest =>
      let '(s', emitted) := handle p ev s in
      match emitted with
      | Some c => c :: callbacks p rest s'
      | None => callbacks p rest s'
      end
  end.

(** A rectangle with finite edges and a positive extent, as an element
    that is laid out has. *)
Definition laidOut (r : DOMRect) : bool :=
  isFinite (left r) && isFinite (top r)
  && isFinite (width r) && isFinite (height r)
  && gtb (width r) (of_Z 0) && gtb (height r) (of_Z 0).

Definition atFinitePosition (e : MouseEvent) : bool :=
  isFinite (clientX e) && isFinite (clientY e).

Definition eventOf (ev : pointerEvent) : MouseEvent :=
  match ev with
  | Down e | Move e | Up e => e
  end.

(** A box with integer corners inside an image of [nw] by [nh] pixels whose
    sides span at least [gap] pixels. *)
Definition boxWithin (nw nh : nat) (gap : Z) (box : BoundingBox) : Prop :=
  exists x0 y0 x1 y1 : Z,
    box = mkBox (of_Z y0) (of_Z x0) (of_Z y1) (of_Z x1) /\
    0 <= x0 /\ x0 + gap <= x1 /\ x1 <= Z.of_nat nw - 1 /\
    0 <= y0 /\ y0 + gap <= y1 /\ y1 <= Z.of_nat nh - 1.

(** A point with integer coordinates inside the image. *)
Definition pointWithin (nw nh : nat) (px py : number) : Prop :=
  exists i j : Z,
    px = of_Z i /\ py = of_Z j /\
    0 <= i <= Z.of_nat nw - 1 /\ 0 <= j <= Z.of_nat nh - 1.

(** What a callback hands over lies inside the image. *)
Definition inFrame (nw nh : nat) (c : callback) : Prop :=
  match c with
  | PointClick point =>
      pointWithin nw nh (x point) (y point) /\
      (label point = of_Z 0 \/ label point = of_Z 1)
  | BoxComplete box => boxWithin nw nh 6 box
  | TogglePlay => True
  end.

(** The state of a drag in progress is inside the image. *)
Definition dragWithin (nw nh : nat) (s : gesture) : Prop :=
  isDragging s = true ->
  (0 < nw)%nat /\ (0 < nh)%nat /\
  (exists startX startY,
     startNaturalPos s = Some (startX, startY) /\
     pointWithin nw nh startX startY) /\
  (forall box, currentDragRect s = Some box -> boxWithin nw nh 0 box).

End Viewer.

(** ** A drag over a photograph

    An 800 by 600 image shown at half size with its corner at the origin,
    and a drag from (10, 10) to (110, 60). *)

Module Sketch.

Definition shown : Viewer.element :=
  Viewer.mkElement
    (Viewer.mkRect (JS.of_Z 0) (JS.of_Z 0) (JS.of_Z 400) (JS.of_Z 300))
    800 600.

Definition viewer : Viewer.props :=
  Viewer.mkProps false Types.image false true true (Some shown) None.

Definition pointerAt (cx cy : Z) : Viewer.MouseEvent :=
  Viewer.mkMouse (JS.of_Z cx) (JS.of_Z cy) (JS.of_Z 0).

Definition drag : list Viewer.pointerEvent :=
  [Viewer.Down (pointerAt 10 10); Viewer.Move (pointerAt 110 60);
   Viewer.Up (pointerAt 110 60)].

End Sketch.

(** ** The trim range

    [VideoTrimmer]: two handles on a track select the range to keep.  The
    range is the parent's state: [handleVideoMetadata] of [App] sets it to
    the whole video and [handleTrimChange] stores what the trimmer hands
    over. *)

Module VideoTrimmer.

Import JS.

Inductive handle :=
| start     (* 'start' *)
| finish.   (* 'end' *)

(** [container] is the bounding rectangle of the track, absent while the
    ref is not attached. *)
Definition getTimeFromX (container : option Viewer.DOMRect)
    (duration x : number) : number :=
  match container with
  | None => of_Z 0
  | Some rect =>
      let percent :=
        Math_max (of_Z 0)
          (Math_min (of_Z 1)
             (div (sub x (Viewer.left rect)) (Viewer.width rect))) in
      mul percent duration
  end.

Definition minGap : number := of_Z 1.

Record trimmer := mkTrimmer {
  isDragging : option handle;
  range : number * number          (* the parent's [trimRange] *)
}.

(** [handleVideoMetadata] of [App] *)
Definition handleVideoMetadata (duration : number) : number * number :=
  (of_Z 0, duration).

(** The state after [handlePointerMove] and the time handed to
    [onPreviewTime]. *)
Definition handlePointerMove (container : option Viewer.DOMRect)
    (duration clientX : number) (s : trimmer) : trimmer * option number :=
  match isDragging s with
  | None => (s, None)
  | Some dragged =>
      let time := getTimeFromX container duration clientX in
      let '(rangeStart, rangeEnd) := range s in
      match dragged with
      | start =>
          let newStart := Math_min time (sub rangeEnd minGap) in
          (mkTrimmer (isDragging s) (newStart, rangeEnd), Some newStart)
      | finish =>
          let newEnd := Math_max time (add rangeStart minGap) in
          (mkTrimmer (isDragging s) (rangeStart, newEnd), Some newEnd)
      end
  end.

Inductive event :=
| PointerDown (type : handle)
| PointerMove (clientX : number)
| PointerUp.





End VideoTrimmer.

From stdpp Require Import pretty.

#[local] Open Scope Z_scope.

(** ** Times as text

    [formatTime] of [videoService].  Numbers print as JavaScript prints
    integers below 2^53 in magnitude: there every integer is a number of
    its own and prints with all its digits.  A number that prints otherwise
    (a fraction, a larger number, whose digits are those of the shortest
    decimal that reads back as it, or one in exponent notation) is outside
    of what [toString] gives here, and is [None].  The quotient by 60 is
    exact here; the rounded quotient of the code has the same floor for a
    time below 2^53 in magnitude that is not a negative subnormal number
    (such a time divided by 60 can round to zero). *)

Module Format.

Import JS.

(** The integer part, towards zero. *)
Definition truncate (q : Q) : Z :=
  if Qle_bool 0 q then Qfloor q else Qceiling q.

(** [x % y] *)
Definition rem (x y : number) : number :=
  match x, y with
  | Fin a, Fin b =>
      if Qeq_bool b 0 then NaN
      else Fin (a - b * inject_Z (truncate (a / b)))%Q
  | Fin a, PosInf | Fin a, NegInf => Fin a
  | _, _ => NaN
  end.

Definition toString (v : number) : option string :=
  match v with
  | NaN => Some "NaN"
  | PosInf => Some "Infinity"
  | NegInf => Some "-Infinity"
  | Fin q =>
      if Qeq_bool q (inject_Z (Qfloor q)) && (Z.abs (Qfloor q) <? 2 ^ 53)
      then Some (pretty (Qfloor q))
      else None
  end.

Fixpoint repeated (padString : string) (n : nat) : string :=
  match n with
  | O => ""
  | S n' => padString +:+ repeated padString n'
  end.

Definition padStart (targetLength : nat) (padString s : string) : string :=
  let fill := (targetLength - String.length s)%nat in
  if (fill =? 0)%nat || (String.length padString =? 0)%nat then s
  else String.substring 0 fill (repeated padString fill) +:+ s.

Definition formatTime (seconds : number) : option string :=
  let min := Math_floor (div seconds (of_Z 60)) in
  let sec := Math_floor (rem seconds (of_Z 60)) in
  match toString min, toString sec with
  | Some minText, Some secText =>
      Some (minText +:+ ":" +:+ padStart 2 "0" secText)
  | _, _ => None
  end.

End Format.

(** ** The selection and the request

    The points and the box of [App], the condition that enables the
    Analyze button in [ControlPanel], and the form [analyzeMedia] builds
    before it calls the API.  A form value is kept as the value that [JSON.stringify] or
    [toString] is applied to; the image is the name it is appended under,
    with the size [processImageForApi] gave it when it comes from a file. *)

Module Selection.

Import JS Types.

(** [!!s] for a string *)
Definition truthy (s : string) : bool :=
  match s with
  | EmptyString => false
  | String _ _ => true
  end.

Record selection := mkSelection {
  prompt : string;
  points : list Point;
  box : option BoundingBox;
  mediaUrl : option string;
  isCameraActive : bool
}.

(** [App]: the handlers of the selection. *)
Definition handlePointClick (point : Point) (s : selection) : selection :=
  mkSelection (prompt s) (points s ++ [point]) (box s) (mediaUrl s)
    (isCameraActive s).

Definition handleBoxComplete (b : BoundingBox) (s : selection) : selection :=
  mkSelection (prompt s) [] (Some b) (mediaUrl s) (isCameraActive s).

(** [points.slice(0, -1)] *)
Definition handleUndoPoint (s : selection) : selection :=
  if (0 <? length (points s))%nat then
    mkSelection (prompt s) (take (length (points s) - 1) (points s)) (box s)
      (mediaUrl s) (isCameraActive s)
  else s.

Definition handleClearPoints (s : selection) : selection :=
  mkSelection (prompt s) [] None (mediaUrl s) (isCameraActive s).

(** [ControlPanel] *)
Definition hasInput (s : selection) : bool :=
  truthy (prompt s) || (0 <? length (points s))%nat
  || match box s with Some _ => true | None => false end.

Definition canAnalyze (s : selection) : bool :=
  (match mediaUrl s with Some url => truthy url | None => false end
   || isCameraActive s)
  && hasInput s.

Inductive field :=
| image (filename : string) (size : option (number * number))
| pointsField (coordinates : list (number * number))       (* "points" *)
| point_labels (labels : list number)
| boxes (corners : list (number * number * number * number))
| box_labels (labels : list number)
| text (value : string)
| threshold (value : number)
| mask_threshold (value : number).

Inductive failure :=
| ImageFailed (e : ImageApi.failure)   (* [processImageForApi] rejects *)
| InvalidDataURL                       (* [dataURLtoBlob] throws *)
| NoMediaProvided                      (* "No media provided for analysis" *)
| NoPromptProvided.                    (* "Please provide a text prompt, ..." *)

Section request.

(** [String.prototype.trim], and whether [dataURLtoBlob] returns a blob. *)
Variable trim : string -> string.
Variable dataURLtoBlob : string -> bool.

(** [analyzeMedia] up to the call of [fetch]: the form it sends, or the
    error it throws before sending anything. *)
Definition analyzeMedia (file : option ImageApi.platform) (promptText : string)
    (imageBase64 : option string) (confidence maskQuality : number)
    (clicks : list Point) (drawn : option BoundingBox)
    : failure + list field :=
  let source :=
    match file, imageBase64 with
    | Some f, _ =>
        match ImageApi.processImageForApi f with
        | inr p =>
            inr [image "input.jpg"
                   (Some (ImageApi.width p, ImageApi.height p))]
        | inl e => inl (ImageFailed e)
        end
    | None, Some url =>
        if truthy url then
          if dataURLtoBlob url then inr [image "capture.jpg" None]
          else inl InvalidDataURL
        else inl NoMediaProvided
    | None, None => inl NoMediaProvided
    end in
  match source with
  | inl e => inl e
  | inr formData =>
      let '(formData, hasPrompt) :=
        if (0 <? length clicks)%nat then
          (formData ++
             [pointsField (map (fun p => (x p, y p)) clicks);
              point_labels (map label clicks)], true)
        else
          match drawn with
          | Some b =>
              (formData ++
                 [boxes [(xmin b, ymin b, xmax b, ymax b)];
                  box_labels [of_Z 1]], true)
          | None => (formData, false)
          end in
      let '(formData, hasPrompt) :=
        if truthy promptText && truthy (trim promptText) then
          (formData ++ [text (trim promptText)], true)
        else (formData, hasPrompt) in
      if negb hasPrompt then inl NoPromptProvided
      else
        inr (formData ++ [threshold confidence; mask_threshold maskQuality])
  end.

End request.

Definition isBoxes (f : field) : bool :=
  match f with
  | boxes _ | box_labels _ => true
  | _ => false
  end.

Definition isPoints (f : field) : bool :=
  match f with
  | pointsField _ | point_labels _ => true
  | _ => false
  end.

End Selection.

(** ** The video put in the payload

    [fileToBase64], and [trackVideoText] and [trackVideoTextFast] up to the
    call of [fetch]: the base64 text that goes into the payload, or the
    error thrown before anything is sent.  The data URL that
    [FileReader.readAsDataURL] produced is an input; it is absent when the
    reader fails. *)

Module Upload.

Import Stdlib.Strings.Ascii JS.

(** The text after the first comma: [None] when [s.includes(',')] is
    false. *)
Fixpoint afterComma (s : string) : option string :=
  match s with
  | EmptyString => None
  | String c rest => if Ascii.eqb c ","%char then Some rest else afterComma rest
  end.

(** The text up to the first comma: [s.split(',')[0]]. *)
Fixpoint untilComma (s : string) : string :=
  match s with
  | EmptyString => EmptyString
  | String c rest =>
      if Ascii.eqb c ","%char then EmptyString else String c (untilComma rest)
  end.

Inductive failure :=
| FileReaderError          (* "Failed to read file: ..." *)
| ReadFailed               (* "Failed to read file as base64" *)
| FileTooLarge             (* "Video file too large (...). Maximum size is 50MB..." *)
| ConversionFailed         (* "Failed to convert video to base64" *)
| TooLargeAfterEncoding    (* "Video too large after encoding (...)" *)
| VideoTooLarge.           (* "Video is too large (...). Max allowed is 50MB..." *)

Definition fileToBase64 (result : option string) : failure + string :=
  match result with
  | None => inl FileReaderError
  | Some result =>
      let base64 :=
        match afterComma result with
        | Some rest => untilComma rest          (* [result.split(',')[1]] *)
        | None => result
        end in
      if (String.length base64 =? 0)%nat then inl ReadFailed else inr base64
  end.

(** [bytes / 1024 / 1024] *)
Definition megabytes (bytes : number) : number :=
  div (div bytes (of_Z 1024)) (of_Z 1024).

Definition trackVideoText (size : nat) (result : option string)
    : failure + string :=
  let fileSizeMB := megabytes (of_nat size) in
  if gtb fileSizeMB (of_Z 50) then inl FileTooLarge
  else
    match fileToBase64 result with
    | inl e => inl e
    | inr videoBase64 =>
        if (String.length videoBase64 =? 0)%nat then inl ConversionFailed
        else
          let base64SizeMB :=
            megabytes
              (div (mul (of_nat (String.length videoBase64)) (of_Z 3))
                 (of_Z 4)) in
          if gtb base64SizeMB (of_Z 70) then inl TooLargeAfterEncoding
          else inr videoBase64
    end.

Definition trackVideoTextFast (result : option string) : failure + string :=
  match fileToBase64 result with
  | inl e => inl e
  | inr videoBase64 =>
      let base64SizeMB :=
        megabytes
          (div (mul (of_nat (String.length videoBase64)) (of_Z 3)) (of_Z 4)) in
      if gtb base64SizeMB (of_Z 50) then inl VideoTooLarge
      else inr videoBase64
  end.

(** The data URL of a file of [size] bytes: a header without a comma, a
    comma, and base64 text of four characters for every three bytes. *)
Definition dataURLOf (size : nat) (header base64 : string) (result : string)
    : Prop :=
  result = header +:+ "," +:+ base64 /\
  afterComma header = None /\ afterComma base64 = None /\
  String.length base64 = (4 * ((size + 2) / 3))%nat.

End Upload.

(** ** The overlay of a still image

    [compositeOverlay] of [aiService]: the image is drawn on a canvas and
    the mask image, tinted, is drawn over it at half opacity.  The inputs
    of the model are the size of the blob, the mask image (the raster that
    [decodeMasksToDataURL] encoded, absent for the empty string), the raster
    the blob decodes to, and the events of the two images and of the timer
    in the order in which they are delivered.  A promise keeps its first
    settlement.  The result stands for the JPEG data URL of the canvas, or
    for the object URL of the blob when there is no mask image. *)

Module Composite.

Import Canvas.

(** [#4f46e5] *)
Definition tint : Z * Z * Z := (79, 70, 229).

Inductive event :=
| ImgLoad
| ImgError
| MaskLoad
| MaskError
| Timeout.

Inductive failure :=
| InvalidImageBlob       (* "Invalid image blob provided" *)
| CanvasContextError     (* "Canvas context error" *)
| OriginalLoadFailed     (* "Failed to load original image. ..." *)
| TimeoutWaiting         (* "Timeout waiting for images" *)
| InvalidResult.         (* "Failed to generate valid image data URL" *)

Inductive result :=
| ObjectURL                       (* the blob itself *)
| DataURL (canvas : Raster).      (* [canvas.toDataURL('image/jpeg', 0.9)] *)

Record loader := mkLoader {
  imgLoaded : bool;
  maskLoaded : bool;
  maskError : bool;
  timeoutId : bool;                       (* the timer is still set *)
  settled : option (failure + result)
}.

(** [resolve] and [reject]: only the first call settles the promise. *)
Definition settle (v : failure + result) (s : loader) : loader :=
  match settled s with
  | Some _ => s
  | None =>
      mkLoader (imgLoaded s) (maskLoaded s) (maskError s) (timeoutId s) (Some v)
  end.

Definition clearTimeout (s : loader) : loader :=
  mkLoader (imgLoaded s) (maskLoaded s) (maskError s) false (settled s).

(** [!imgLoaded || (!maskLoaded && !maskError)] *)
Definition waiting (s : loader) : bool :=
  negb (imgLoaded s) || (negb (maskLoaded s) && negb (maskError s)).

Section draw.

(** The platform's resampling of an image drawn at another size. *)
Variable scale : nat -> nat -> Raster -> Raster.

(** [drawImage(mask, 0, 0, width, height)]: a copy when the mask has the
    size of the canvas. *)
Definition drawScaled (globalAlpha : Q) (src dst : Raster) : Raster :=
  drawImage globalAlpha
    (if (rw src =? rw dst)%nat && (rh src =? rh dst)%nat then src
     else scale (rw dst) (rh dst) src)
    dst.

(** The canvas [tryComposite] encodes: the image, and the tinted mask over
    it when the mask is applied. *)
Definition paint (offContext2d : bool) (img : Raster) (mask : option Raster)
    : Raster :=
  let canvas := drawImage 1 img (blank (rw img) (rh img)) in
  match mask with
  | Some mask =>
      if offContext2d then
        let offCanvas :=
          fillSourceIn tint
            (drawScaled 1 mask (blank (rw canvas) (rh canvas))) in
        drawImage (1 # 2) offCanvas canvas
      else drawScaled (1 # 2) mask canvas
  | None => canvas
  end.

(** [toDataURL] of a canvas without pixels is "data:,", which is refused. *)
Definition encode (canvas : Raster) : failure + result :=
  if (rw canvas =? 0)%nat || (rh canvas =? 0)%nat then inl InvalidResult
  else inr (DataURL canvas).

Definition tryComposite (offContext2d : bool) (img mask : Raster)
    (s : loader) : loader :=
  if waiting s then s
  else
    let s := clearTimeout s in
    let applied :=
      if negb (maskError s) && (0 <? rw mask)%nat then Some mask else None in
    settle (encode (paint offContext2d img applied)) s.

Definition handle (offContext2d : bool) (img mask : Raster)
    (s : loader) (ev : event) : loader :=
  match ev with
  | ImgLoad =>
      tryComposite offContext2d img mask
        (mkLoader true (maskLoaded s) (maskError s) (timeoutId s) (settled s))
  | ImgError => settle (inl OriginalLoadFailed) (clearTimeout s)
  | MaskLoad =>
      tryComposite offContext2d img mask
        (mkLoader (imgLoaded s) true (maskError s) (timeoutId s) (settled s))
  | MaskError =>
      tryComposite offContext2d img mask
        (mkLoader (imgLoaded s) (maskLoaded s) true (timeoutId s) (settled s))
  | Timeout =>
      if timeoutId s && waiting s then settle (inl TimeoutWaiting) s else s
  end.

Definition loading : loader := mkLoader false false false true None.

(** The state after the events, delivered in order. *)
Definition deliver (offContext2d : bool) (img mask : Raster)
    (events : list event) (s : loader) : loader :=
  fold_left (handle offContext2d img mask) events s.

(** What the promise has settled to after the events; [None] while it is
    pending. *)
Definition compositeOverlay (blobSize : nat) (maskDataUrl : option Raster)
    (context2d offContext2d : bool) (img : Raster) (events : list event)
    : option (failure + result) :=
  if (blobSize =? 0)%nat then Some (inl InvalidImageBlob)
  else
    match maskDataUrl with
    | None => Some (inr ObjectURL)
    | Some mask =>
        if negb context2d then Some (inl CanvasContextError)
        else
          settled (deliver offContext2d img mask events loading)
    end.

End draw.

Definition sameEvent (a b : event) : bool :=
  match a, b with
  | ImgLoad, ImgLoad | ImgError, ImgError | MaskLoad, MaskLoad
  | MaskError, MaskError | Timeout, Timeout => true
  | _, _ => false
  end.

(** The events delivered include [ev]. *)
Definition delivered (ev : event) (events : list event) : bool :=
  existsb (sameEvent ev) events.

End Composite.

(** ** The flow of a trim

    [trimVideoFile] of [videoService] as the handlers it installs: the
    events of the video element, of [video.play()], of the animation
    frames and of the recorder are delivered in order, and the promise
    keeps its first settlement.  A handler whose trigger has not been
    armed (a frame that was not requested, a recorder that was not
    stopped) does nothing. *)

Module TrimFlow.

Import JS Trim.

Inductive event :=
| LoadedMetadata
| Seeked (currentTime : number)
| Played (ended : bool) (currentTime : number)   (* [video.play()] resolves *)
| PlayFailed                                     (* [video.play()] rejects *)
| AnimationFrame (ended : bool) (currentTime : number)
| RecorderStopped                                (* [mediaRecorder.onstop] *)
| VideoError.

Inductive outcome :=
| TrimmedFile                 (* resolves with "trimmed_clip.webm" *)
| NoCanvasContext             (* "Could not get canvas context" *)
| PlayRejected                (* the error of [video.play()] *)
| PlaybackError.              (* "Video playback error" *)

Record flow := mkFlow {
  recorder : trimmer;
  playPending : bool;
  frameRequested : bool;
  settled : option outcome
}.

Definition settle (v : outcome) (f : flow) : flow :=
  match settled f with
  | Some _ => f
  | None => mkFlow (recorder f) (playPending f) (frameRequested f) (Some v)
  end.

(** [cleanup] cancels the animation frame. *)
Definition cleanup (f : flow) : flow :=
  mkFlow (recorder f) (playPending f) false (settled f).

(** The guard of [video.onseeked]:
    [video.currentTime < endTime] and
    [Math.abs(video.currentTime - startTime) < 0.5]. *)
Definition atStart (startTime endTime currentTime : number) : bool :=
  ltb currentTime endTime
  && ltb (Viewer.Math_abs (sub currentTime startTime)) (Fin (1 # 2)).

Definition startRecording (f : flow) : flow :=
  mkFlow (mkTrimmer true (Some recording) false) true (frameRequested f)
    (settled f).

Definition frame (startTime endTime : number) (onProgress ended : bool)
    (currentTime : number) (f : flow) : flow :=
  let t := processFrame (recorder f) ended currentTime startTime endTime
             onProgress in
  mkFlow (next t) (playPending f) (rescheduled t) (settled f).

Definition handle (startTime endTime : number) (onProgress : bool)
    (f : flow) (ev : event) : flow :=
  match ev with
  | LoadedMetadata => f                     (* sizes the canvas and seeks *)
  | Seeked currentTime =>
      if negb (isRecording (recorder f))
         && atStart startTime endTime currentTime
      then startRecording f
      else f
  | Played ended currentTime =>
      if playPending f then
        frame startTime endTime onProgress ended currentTime
          (mkFlow (recorder f) false (frameRequested f) (settled f))
      else f
  | PlayFailed =>
      if playPending f then
        settle PlayRejected
          (cleanup (mkFlow (recorder f) false (frameRequested f) (settled f)))
      else f
  | AnimationFrame ended currentTime =>
      if frameRequested f then
        frame startTime endTime onProgress ended currentTime f
      else f
  | RecorderStopped =>
      match isRecording (recorder f), mediaRecorder (recorder f) with
      | false, Some inactive => settle TrimmedFile (cleanup f)
      | _, _ => f
      end
  | VideoError => settle PlaybackError (cleanup f)
  end.

Definition waitingForSeek : flow :=
  mkFlow (mkTrimmer false None false) false false None.

(** What the promise has settled to after the events; [None] while it is
    pending. *)
Definition trimVideoFile (context2d : bool) (startTime endTime : number)
    (onProgress : bool) (events : list event) : option outcome :=
  if negb context2d then Some NoCanvasContext
  else
    settled (fold_left (handle startTime endTime onProgress) events
               waitingForSeek).

(** No seek of [events] passes the guard, and the video reports no
    error. *)
Definition neverAtStart (startTime endTime : number) (events : list event)
    : Prop :=
  Forall (fun ev =>
            match ev with
            | Seeked currentTime =>
                atStart startTime endTime currentTime = false
            | VideoError => False
            | _ => True
            end) events.

End TrimFlow.

(** * Properties *)

(** ** Typed-array stores *)

Section typed_array_facts.

Import TypedArray.

Lemma store_length data idx v : length (store data idx v) = length data.
Proof. unfold store. destruct (0 <=? idx); [apply length_insert | done]. Qed.

Lemma store_lookup data idx v (k : nat) :
  store data idx v !! k =
  if bool_decide (idx = Z.of_nat k /\ (k < length data)%nat) then Some v
  else data !! k.
Proof.
  unfold store. destruct (Z.leb_spec 0 idx) as [Hidx | Hidx].
  - rewrite list_lookup_insert.
    case_decide as H1; case_bool_decide as H2; try done; exfalso; lia.
  - case_bool_decide; [lia | done].
Qed.

End typed_array_facts.

(** ** RLEMaskDecoder *)

Section rle_facts.

Import RLE.

Implicit Types (buf : list Z) (cs : list Z) (j p : Z) (k n : nat).

Lemma setWhite_length buf j : length (setWhite buf j) = length buf.
Proof.
  unfold setWhite. destruct (_ <? _); [| done].
  by rewrite !store_length.
Qed.

(** A store of the inner loop touches exactly the four bytes of pixel [j],
    and only when [j] is a pixel of the buffer. *)
Lemma setWhite_lookup buf j n k :
  length buf = (4 * n)%nat ->
  setWhite buf j !! k =
  if bool_decide (Z.of_nat k / 4 = j /\ (k < 4 * n)%nat) then Some 255
  else buf !! k.
Proof.
  intros Hlen. unfold setWhite.
  destruct (Z.ltb_spec (j * 4 + 3) (Z.of_nat (length buf))) as [Hin | Hout].
  - rewrite !store_lookup, !store_length.
    repeat case_bool_decide; try done; exfalso;
      try (zify; Z.to_euclidean_division_equations; lia).
  - case_bool_decide as H; [| done].
    exfalso. zify; Z.to_euclidean_division_equations; lia.
Qed.

Lemma forRange_length m j buf : length (forRange m j buf) = length buf.
Proof.
  revert j buf. induction m as [| m IH]; intros j buf; simpl; [done |].
  by rewrite IH, setWhite_length.
Qed.

Lemma forRange_lookup m j buf n k :
  length buf = (4 * n)%nat ->
  forRange m j buf !! k =
  if bool_decide (j <= Z.of_nat k / 4 < j + Z.of_nat m /\ (k < 4 * n)%nat)
  then Some 255 else buf !! k.
Proof.
  revert j buf. induction m as [| m IH]; intros j buf Hlen; simpl.
  - case_bool_decide; [lia | done].
  - rewrite (IH _ _) by (by rewrite setWhite_length).
    rewrite (setWhite_lookup _ _ n) by done.
    repeat case_bool_decide; try done; exfalso; lia.
Qed.

Lemma fillRun_length buf p e : length (fillRun buf p e) = length buf.
Proof. apply forRange_length. Qed.

Lemma fillRun_lookup buf p e n k :
  length buf = (4 * n)%nat ->
  fillRun buf p e !! k =
  if bool_decide (p <= Z.of_nat k / 4 < e /\ (k < 4 * n)%nat)
  then Some 255 else buf !! k.
Proof.
  intros Hlen. unfold fillRun. rewrite (forRange_lookup _ _ _ n) by done.
  repeat case_bool_decide; try done; exfalso; lia.
Qed.

(** Each iteration advances the cursor by the run length and flips the
    fill value, whatever it writes. *)
Lemma step_cursor wh st count :
  p (step wh st count) = p st + count /\ val (step wh st count) = 1 - val st.
Proof. done. Qed.

(** One iteration: with the fill value at 1 the bytes of the pixels of
    [[p, p + count)] that lie on the canvas become 255; nothing else
    changes. *)
Lemma step_lookup n st count k :
  length (buf st) = (4 * n)%nat ->
  buf (step (Z.of_nat n) st count) !! k =
  if bool_decide (val st = 1 /\ p st <= Z.of_nat k / 4 < p st + count
                  /\ (k < 4 * n)%nat)
  then Some 255 else buf st !! k.
Proof.
  intros Hlen. unfold step. cbn [buf].
  destruct (Z.eqb_spec (val st) 1) as [Hv | Hv].
  - rewrite (fillRun_lookup _ _ _ n) by done.
    repeat case_bool_decide; try done; exfalso;
      zify; Z.to_euclidean_division_equations; lia.
  - case_bool_decide as H; [by destruct H | done].
Qed.

(** The loop invariant: after the runs [cs], the bytes set to 255 are those
    of the pixels below [n] that lie in a foreground run. *)
Lemma decodeLoop_lookup cs : forall st v n,
  val st = valOf v ->
  length (buf st) = (4 * n)%nat ->
  let st' := decodeLoop (Z.of_nat n) cs st in
  length (buf st') = (4 * n)%nat /\
  val st' = valOf (Nat.iter (length cs) negb v) /\
  p st' = p st + foldr Z.add 0 cs /\
  forall k, buf st' !! k =
            if bool_decide (inRun cs (p st) v (Z.of_nat k / 4) = true
                            /\ (k < 4 * n)%nat)
            then Some 255 else buf st !! k.
Proof.
  induction cs as [| c rest IH]; intros st v n Hval Hlen; simpl.
  - repeat split; try done; try lia;
      intros k; case_bool_decide; naive_solver.
  - destruct (IH (step (Z.of_nat n) st c) (negb v) n) as (Hl & Hv & Hp & Hk).
    + simpl. rewrite Hval. by destruct v.
    + simpl. destruct (val st =? 1); [by rewrite fillRun_length | done].
    + repeat split; [done | | |].
      * rewrite Hv. f_equal. clear. induction (length rest); simpl; congruence.
      * rewrite Hp. simpl. lia.
      * intros k. rewrite Hk. simpl. rewrite Hval.
        destruct v; simpl.
        -- rewrite (fillRun_lookup _ _ _ n) by done.
           repeat case_bool_decide; try done; exfalso;
             try (zify; Z.to_euclidean_division_equations; simpl in *; lia);
             try (destruct (inRun rest _ _ _); simpl in *;
                  zify; Z.to_euclidean_division_equations; lia).
        -- repeat case_bool_decide; try done; exfalso; naive_solver.
Qed.

(** The cursor-based membership test agrees with the positional reading of
    the runs. *)
Lemma inRun_runs cs : forall p v j,
  inRun cs p v j = true <->
  exists i count, cs !! i = Some count /\ Nat.odd i = negb v /\
                  p + start cs i <= j < p + start cs i + count.
Proof.
  induction cs as [| c rest IH]; intros p v j; simpl.
  - split; [done | by intros (i & count & H & _)].
  - rewrite orb_true_iff, !andb_true_iff, Z.leb_le, Z.ltb_lt, IH. split.
    + intros [((Hv & H1) & H2) | (i & count & Hi & Hodd & Hj)].
      * exists 0%nat, c. subst v. unfold start; simpl.
        repeat split; try done; lia.
      * exists (S i), count. split; [done |]. split.
        -- rewrite Nat.odd_succ, <- Nat.negb_odd, Hodd. by destruct v.
        -- unfold start in *. simpl. lia.
    + intros ([| i] & count & Hi & Hodd & Hj).
      * left. simpl in *. destruct v; [| done].
        unfold start in Hj; simpl in *. simplify_eq. repeat split; lia.
      * right. exists i, count. split; [done |]. split.
        -- rewrite Nat.odd_succ, <- Nat.negb_odd in Hodd.
           destruct (Nat.odd i), v; done.
        -- unfold start in *. simpl in *. lia.
Qed.

Lemma inRun_foreground cs j : inRun cs 0 false j = true <-> foreground cs j.
Proof. rewrite inRun_runs. unfold foreground. naive_solver. Qed.

Lemma byte_of_pixel (j : nat) (c : nat) :
  (c < 4)%nat -> Z.of_nat (4 * j + c) / 4 = Z.of_nat j.
Proof. intros Hc. zify. Z.to_euclidean_division_equations. lia. Qed.

(** The pixels of a decoded mask, read four bytes at a time. *)
Lemma decoded_pixel cs (w h : nat) (j : nat) :
  (j < w * h)%nat ->
  let final :=
    decodeLoop (Z.of_nat w * Z.of_nat h) cs
      (mkDecoder 0 0 (replicate (4 * w * h) 0)) in
  pixel (buf final) j = Some (if inRun cs 0 false (Z.of_nat j) then white else clear).
Proof.
  intros Hj final. subst final. rewrite <- Nat2Z.inj_mul.
  destruct (decodeLoop_lookup cs (mkDecoder 0 0 (replicate (4 * w * h) 0))
              false (w * h)) as (_ & _ & _ & Hk); [done | |].
  { simpl. rewrite length_replicate. lia. }
  simpl in Hk. unfold pixel.
  replace (4 * j)%nat with (4 * j + 0)%nat at 1 by lia.
  rewrite !Hk, !byte_of_pixel by lia.
  destruct (inRun cs 0 false (Z.of_nat j)).
  - rewrite !bool_decide_eq_true_2 by (split; [done | lia]). done.
  - rewrite !bool_decide_eq_false_2 by (by intros [? _]).
    rewrite !lookup_replicate_2 by lia. done.
Qed.

End rle_facts.

(** C1.  Each iteration of the decoder's loop advances the cursor by the
    run length, flips the fill value, and, when the fill value was 1, sets
    the bytes of the pixels of [[p, p + count)] that lie on the canvas.
    Started with the cursor at 0 and the fill value at background, the
    decoder therefore marks the runs of odd position, clipped to
    [width * height]: the call fails only for a canvas with a zero
    dimension, and otherwise pixel [j] of the result is opaque white exactly
    when [j] lies in a run of odd position, and untouched (transparent)
    otherwise.  The mask of size [2, 4] with runs [2, 2, 2, 2] decodes to
    the bits 0 0 1 1 0 0 1 1. *)
Theorem decodeRLEToImageData_runs :
  (forall (n : nat) (st : RLE.decoder) (count : Z) (k : nat),
      length (RLE.buf st) = (4 * n)%nat ->
      let st' := RLE.step (Z.of_nat n) st count in
      RLE.p st' = RLE.p st + count /\ RLE.val st' = 1 - RLE.val st /\
      RLE.buf st' !! k =
      if bool_decide (RLE.val st = 1
                      /\ RLE.p st <= Z.of_nat k / 4 < RLE.p st + count
                      /\ (k < 4 * n)%nat)
      then Some 255 else RLE.buf st !! k) /\
  (forall (mask : RLE.RLEMask) (w h : nat),
      match RLE.decodeRLEToImageData mask w h with
      | Some img =>
          width img = w /\ height img = h /\
          forall j : nat, (j < w * h)%nat ->
            (RLE.foreground (RLE.counts mask) (Z.of_nat j) ->
             RLE.pixel (data img) j = Some RLE.white) /\
            (~ RLE.foreground (RLE.counts mask) (Z.of_nat j) ->
             RLE.pixel (data img) j = Some RLE.clear)
      | None => w = 0%nat \/ h = 0%nat
      end) /\
  RLE.bits <$> RLE.decodeRLEToImageData (RLE.mkMask (2%nat, 4%nat) [2; 2; 2; 2]) 4 2
  = Some [Some 0; Some 0; Some 1; Some 1; Some 0; Some 0; Some 1; Some 1].
Proof.
  split; [| split; [| reflexivity]].
  { intros n st count k Hlen. repeat split. by apply step_lookup. }
  intros mask w h. unfold RLE.decodeRLEToImageData, newImageData.
  destruct w as [| w]; [by left |]. destruct h as [| h]; [by right |].
  cbn [Nat.eqb orb data width height]. repeat split.
  - intros Hfg. rewrite decoded_pixel by done.
    apply inRun_foreground in Hfg. by rewrite Hfg.
  - intros Hbg. rewrite decoded_pixel by done.
    destruct (RLE.inRun _ _ _ _) eqn:E; [| done].
    by apply inRun_foreground in E.
Qed.

(** The characterisation at work on a 3 x 1 canvas: the middle pixel is the
    only foreground one. *)
Lemma decodeRLEToImageData_runs_witness :
  RLE.foreground [1; 1; 1] 1 /\
  exists img,
    RLE.decodeRLEToImageData (RLE.mkMask (1%nat, 3%nat) [1; 1; 1]) 3 1 = Some img /\
    RLE.pixel (data img) 1 = Some RLE.white.
Proof.
  assert (Hfg : RLE.foreground [1; 1; 1] (Z.of_nat 1)).
  { exists 1%nat, 1. by vm_compute. }
  split; [exact Hfg |].
  pose proof (proj1 (proj2 decodeRLEToImageData_runs)
                (RLE.mkMask (1%nat, 3%nat) [1; 1; 1]) 3%nat 1%nat) as H.
  destruct (RLE.decodeRLEToImageData _ _ _) as [img |]; [| by destruct H].
  exists img. split; [done |]. destruct H as (_ & _ & H).
  exact (proj1 (H 1%nat ltac:(simpl; lia)) Hfg).
Defined.

(** ** JavaScript numbers *)

Section js_facts.

Import JS.

Lemma Qle_bool_inject (a b : Z) : Qle_bool (inject_Z a) (inject_Z b) = (a <=? b).
Proof. unfold Qle_bool. simpl. by rewrite !Z.mul_1_r. Qed.

Lemma leb_of_Z (a b : Z) : leb (of_Z a) (of_Z b) = (a <=? b).
Proof. apply Qle_bool_inject. Qed.

Lemma ltb_of_Z (a b : Z) : ltb (of_Z a) (of_Z b) = (a <? b).
Proof.
  unfold ltb, of_Z. rewrite Qle_bool_inject.
  destruct (Z.leb_spec b a), (Z.ltb_spec a b); simpl; try done; lia.
Qed.

Lemma Math_max_of_Z (a b : Z) : Math_max (of_Z a) (of_Z b) = of_Z (Z.max a b).
Proof.
  unfold Math_max. rewrite leb_of_Z. unfold of_Z at 1 2.
  destruct (Z.leb_spec a b); f_equal; lia.
Qed.

Lemma Math_min_of_Z (a b : Z) : Math_min (of_Z a) (of_Z b) = of_Z (Z.min a b).
Proof.
  unfold Math_min. rewrite leb_of_Z. unfold of_Z at 1 2.
  destruct (Z.leb_spec a b); f_equal; lia.
Qed.

Lemma gtb_Fin_0 (q : Q) : gtb (Fin q) (of_Z 0) = negb (Qle_bool q 0).
Proof. done. Qed.

Lemma div_Fin_pos (a d : Q) : (0 < d)%Q -> div (Fin a) (Fin d) = Fin (a / d).
Proof. intros Hd. unfold div. apply Qgt_alt in Hd. by rewrite Hd. Qed.

Lemma Math_max_all_of_Z (xs : list Z) :
  Math_max_all (map of_Z xs) = from_option of_Z NegInf (Rates.maxIdx xs).
Proof.
  induction xs as [| x rest IH]; [done |].
  unfold Math_max_all in *. simpl. rewrite IH.
  destruct (Rates.maxIdx rest) as [y |]; simpl; [apply Math_max_of_Z | done].
Qed.

(** [Math.round] brackets its argument: the result is the integer [n] with
    [n - 1/2 <= x < n + 1/2]. *)
Lemma round_bracket (x : Q) :
  (inject_Z (Qfloor (x + (1 # 2))) - (1 # 2) <= x
   /\ x < inject_Z (Qfloor (x + (1 # 2))) + (1 # 2))%Q.
Proof.
  pose proof (Qfloor_le (x + (1 # 2))) as Hlo.
  pose proof (Qlt_floor (x + (1 # 2))) as Hhi.
  rewrite inject_Z_plus in Hhi. change (inject_Z 1) with 1%Q in Hhi.
  split; lra.
Qed.

End js_facts.

(** ** FrameRateReconciler *)

Section rate_facts.

Import JS Rates.

Lemma sampledRate_eq (duration : number) (frameIndices : list Z) :
  sampledRate duration frameIndices =
  match maxIdx frameIndices with
  | Some m =>
      if gtb duration (of_Z 0) && (0 <? m)
      then Math_round (div (of_Z (m + 1)) duration)
      else of_Z 30
  | None => of_Z 30
  end.
Proof.
  unfold sampledRate. rewrite Math_max_all_of_Z.
  destruct (maxIdx frameIndices) as [m |]; cbn [from_option].
  - unfold gtb at 2. rewrite ltb_of_Z.
    replace (add (of_Z m) (of_Z 1)) with (of_Z (m + 1)); [done |].
    unfold add, of_Z. by rewrite inject_Z_plus.
  - change (gtb NegInf (of_Z 0)) with false. by rewrite andb_false_r.
Qed.

Lemma sampledRate_finite (d : Q) (frameIndices : list Z) (m : Z) :
  maxIdx frameIndices = Some m -> (0 < d)%Q -> 0 < m ->
  sampledRate (Fin d) frameIndices =
  of_Z (Qfloor (inject_Z (m + 1) / d + (1 # 2))).
Proof.
  intros Hm Hd Hpos. rewrite sampledRate_eq, Hm, gtb_Fin_0.
  destruct (Qle_bool d 0) eqn:E; [apply Qle_bool_iff in E; lra |].
  destruct (Z.ltb_spec 0 m); [| lia]. cbn [negb andb].
  unfold of_Z at 1. by rewrite div_Fin_pos.
Qed.

End rate_facts.

(** C2.  The guard [duration > 0 && maxFrameIdx > 0] does not keep the
    sampled rate at 1 or above, nor does it send a duration that is not
    finite to the default.  When the largest frame index [m] is positive
    and the duration is infinite, or finite and above [2 (m + 1)] seconds,
    the quotient [(m + 1) / duration] is below one half and the sampled
    rate is 0, and so is the source rate computed from it; the rule as the
    specification words it gives 30 for the infinite duration and 1 for the
    finite one. *)
Theorem sampledRate_unclamped (duration : JS.number) (frameIndices : list Z)
    (m : Z) :
  Rates.maxIdx frameIndices = Some m -> 0 < m ->
  duration = JS.PosInf \/
  (exists d : Q, duration = JS.Fin d /\ (inject_Z (2 * (m + 1)) < d)%Q) ->
  Rates.sam3FPS
    (Rates.videoMetadata (Rates.loadedmetadata duration) frameIndices)
  = JS.of_Z 0 /\
  Rates.originalFPS
    (Rates.videoMetadata (Rates.loadedmetadata duration) frameIndices)
  = JS.of_Z 0 /\
  Rates.spec_sampledRate (Rates.loadedmetadata duration) frameIndices
  = JS.of_Z (match duration with JS.PosInf => 30 | _ => 1 end).
Proof.
  intros Hm Hpos Hdur.
  cbn [Rates.videoMetadata Rates.onloadedmetadata Rates.sam3FPS
       Rates.originalFPS].
  assert (Hrate : Rates.sampledRate duration frameIndices = JS.of_Z 0 /\
                  Rates.spec_sampledRate (Rates.loadedmetadata duration)
                    frameIndices
                  = JS.of_Z (match duration with JS.PosInf => 30 | _ => 1 end)).
  { destruct Hdur as [-> | (d & -> & Hd)].
    - split; [| reflexivity]. rewrite sampledRate_eq, Hm.
      change (JS.gtb JS.PosInf (JS.of_Z 0)) with true. cbn [andb].
      by destruct (Z.ltb_spec 0 m); [| lia].
    - assert (H2 : (2 * inject_Z (m + 1) < d)%Q).
      { rewrite inject_Z_mult in Hd. exact Hd. }
      assert (Hm1 : (1 <= inject_Z (m + 1))%Q).
      { change 1%Q with (inject_Z 1). rewrite <- Zle_Qle. lia. }
      assert (Hd0 : (0 < d)%Q) by lra.
      set (x := (inject_Z (m + 1) / d)%Q).
      assert (Hx : (x * d == inject_Z (m + 1))%Q) by (unfold x; field; lra).
      assert (Hx0 : (0 < x)%Q) by (apply Qlt_shift_div_l; lra).
      assert (Hxh : (x < 1 # 2)%Q) by (apply Qlt_shift_div_r; lra).
      assert (Hround : Qfloor (x + (1 # 2)) = 0).
      { destruct (round_bracket x) as [Hlo Hhi].
        assert (Qfloor (x + (1 # 2)) < 1).
        { rewrite Zlt_Qlt. change (inject_Z 1) with 1%Q. lra. }
        assert (-1 < Qfloor (x + (1 # 2))).
        { rewrite Zlt_Qlt. change (inject_Z (-1)) with (-1)%Q. lra. }
        lia. }
      split.
      + rewrite (sampledRate_finite d _ m) by done. fold x. by rewrite Hround.
      + unfold Rates.spec_sampledRate.
        rewrite Math_max_all_of_Z, Hm. cbn [from_option].
        replace (JS.add (JS.of_Z m) (JS.of_Z 1)) with (JS.of_Z (m + 1))
          by (unfold JS.add, JS.of_Z; by rewrite inject_Z_plus).
        unfold JS.of_Z at 2. rewrite div_Fin_pos by done. fold x.
        change (JS.Math_round (JS.Fin x)) with (JS.of_Z (Qfloor (x + (1 # 2)))).
        by rewrite Hround. }
  destruct Hrate as [-> Hspec]. split; [reflexivity |].
  split; [reflexivity | exact Hspec].
Qed.

(** Two indices over 100 seconds: the rate is 0 where the worded rule gives
    1; and the indices 0, 5 and 10 over an infinite duration: the rate is 0
    where the worded rule gives 30. *)
Lemma sampledRate_unclamped_witness :
  (Rates.sam3FPS
     (Rates.videoMetadata (Rates.loadedmetadata (JS.of_Z 100)) [0; 1])
   = JS.of_Z 0 /\
   Rates.spec_sampledRate (Rates.loadedmetadata (JS.of_Z 100)) [0; 1]
   = JS.of_Z 1) /\
  (Rates.sam3FPS
     (Rates.videoMetadata (Rates.loadedmetadata JS.PosInf) [0; 5; 10])
   = JS.of_Z 0 /\
   Rates.spec_sampledRate (Rates.loadedmetadata JS.PosInf) [0; 5; 10]
   = JS.of_Z 30).
Proof.
  destruct (sampledRate_unclamped (JS.of_Z 100) [0; 1] 1 eq_refl ltac:(lia))
    as (Hrate & _ & Hspec).
  { right. exists (inject_Z 100). split; reflexivity. }
  destruct (sampledRate_unclamped JS.PosInf [0; 5; 10] 10 eq_refl ltac:(lia))
    as (Hrate' & _ & Hspec'); [by left |].
  split; split; assumption.
Defined.

Section multiplier_facts.

Import JS Rates.

(** Every rate the estimate computes is a non-negative integer. *)
Lemma sampledRate_integer (duration : number) (frameIndices : list Z) :
  exists r : Z, 0 <= r /\ sampledRate duration frameIndices = of_Z r.
Proof.
  rewrite sampledRate_eq.
  destruct (maxIdx frameIndices) as [m |]; [| by exists 30].
  destruct (gtb duration (of_Z 0) && (0 <? m)) eqn:E; [| by exists 30].
  apply andb_true_iff in E as [Hd Hm]. apply Z.ltb_lt in Hm.
  destruct duration as [| | | d]; try done.
  - by exists 0.
  - rewrite gtb_Fin_0 in Hd.
    assert (0 < d)%Q as Hpos.
    { destruct (Qlt_le_dec 0 d) as [? | Hle]; [done |].
      apply Qle_bool_iff in Hle. by rewrite Hle in Hd. }
    unfold of_Z at 1. rewrite div_Fin_pos by done.
    eexists; split; [| reflexivity].
    assert (0 < inject_Z (m + 1) / d)%Q.
    { apply Qlt_shift_div_l; [done |]. rewrite Qmult_0_l.
      change 0%Q with (inject_Z 0). rewrite <- Zlt_Qlt. lia. }
    exact (Qfloor_resp_le 0 (inject_Z (m + 1) / d + (1 # 2)) ltac:(lra)).
Qed.

Lemma fpsMultiplier_of_Z (r : Z) :
  fpsMultiplier (of_Z r) =
  of_Z (if r <=? 10 then 5 else if r <=? 15 then 2 else 1).
Proof.
  unfold fpsMultiplier. rewrite !leb_of_Z.
  by destruct (r <=? 10), (r <=? 15).
Qed.

Lemma mul_of_Z (a b : Z) : mul (of_Z a) (of_Z b) = of_Z (a * b).
Proof. unfold mul, of_Z. by rewrite inject_Z_mult. Qed.

End multiplier_facts.

(** C3.  On both outcomes of the metadata promise the source rate is the
    sampled rate times the multiplier, the sampled rate being an integer
    [r] and the multiplier 5 for [r <= 10], 2 for [10 < r <= 15] and 1
    above; at the boundaries 10, 11, 15 and 16 the multiplier is 5, 2, 2
    and 1. *)
Theorem sourceRate_multiplier (ev : Rates.metadataEvent) (frameIndices : list Z) :
  let e := Rates.videoMetadata ev frameIndices in
  (Rates.originalFPS e
   = JS.mul (Rates.sam3FPS e) (Rates.fpsMultiplier (Rates.sam3FPS e)) /\
   exists r : Z,
     Rates.sam3FPS e = JS.of_Z r /\
     Rates.fpsMultiplier (JS.of_Z r)
     = JS.of_Z (if r <=? 10 then 5 else if r <=? 15 then 2 else 1) /\
     Rates.originalFPS e
     = JS.of_Z (r * (if r <=? 10 then 5 else if r <=? 15 then 2 else 1))) /\
  Rates.fpsMultiplier (JS.of_Z 10) = JS.of_Z 5 /\
  Rates.fpsMultiplier (JS.of_Z 11) = JS.of_Z 2 /\
  Rates.fpsMultiplier (JS.of_Z 15) = JS.of_Z 2 /\
  Rates.fpsMultiplier (JS.of_Z 16) = JS.of_Z 1.
Proof.
  split; [| by repeat split].
  destruct ev as [duration |]; simpl.
  - split; [done |].
    destruct (sampledRate_integer duration frameIndices) as (r & _ & Hr).
    exists r. rewrite Hr. split; [done |].
    split; [apply fpsMultiplier_of_Z |].
    by rewrite fpsMultiplier_of_Z, mul_of_Z.
  - split; [done |]. by exists 30.
Qed.

(** ** FrameExtractor *)

Section extractor_facts.

Import JS Canvas Extractor.

Implicit Types (video : Video) (pf : platform) (fps : number)
               (frameIndices : list Z) (frames : list Raster).

(** When no attempted seek times out and every attempted time is finite,
    the loop resolves with the pictures of the indices that succeeded, in
    the order requested. *)
Lemma extractLoop_resolves video pf fps frameIndices : forall frames,
  (forall frameIdx, frameIdx ∈ frameIndices -> attempted video fps frameIdx ->
     isFinite (div (of_Z frameIdx) fps) = true /\
     awaitSeek pf frameIdx = Seeked) ->
  extractLoop video pf fps frameIndices frames =
  Resolved (frames ++ (spec_extract video pf fps frameIndices).*2).
Proof.
  unfold spec_extract.
  induction frameIndices as [| frameIdx rest IH]; intros frames Hok.
  - simpl. by rewrite app_nil_r.
  - assert (Hrest : forall k, k ∈ rest -> attempted video fps k ->
              isFinite (div (of_Z k) fps) = true /\ awaitSeek pf k = Seeked).
    { intros k Hk. apply Hok. by right. }
    specialize (Hok frameIdx ltac:(by left)). unfold attempted in Hok.
    cbn [extractLoop List.filter]. unfold succeeds at 1.
    destruct (gtb (div (of_Z frameIdx) fps) (duration video)) eqn:Hgt.
    + cbn [negb andb]. by apply IH.
    + destruct (Hok eq_refl) as [Hfin Hseek]. rewrite Hfin, Hseek.
      cbn [negb andb].
      destruct (capture pf frameIdx); [by apply IH ..|].
      rewrite IH by done.
      cbn [map fmap list_fmap snd]. by rewrite <- app_assoc.
Qed.

(** A timeout on an attempted index settles the whole extraction as a
    rejection, whatever was captured before it. *)
Lemma extractLoop_timeout video pf fps frameIndices : forall frames frameIdx,
  frameIdx ∈ frameIndices ->
  attempted video fps frameIdx ->
  awaitSeek pf frameIdx = TimedOut ->
  exists e, extractLoop video pf fps frameIndices frames = Rejected e.
Proof.
  induction frameIndices as [| k rest IH]; intros frames frameIdx Hin Hatt Hto.
  - by apply elem_of_nil in Hin.
  - cbn [extractLoop].
    apply elem_of_cons in Hin as [<- | Hin].
    + unfold attempted in Hatt. rewrite Hatt.
      destruct (isFinite _); cbn [negb]; [| by eexists].
      rewrite Hto. by eexists.
    + destruct (gtb (div (of_Z k) fps) (duration video)); [by eapply IH |].
      destruct (isFinite _); cbn [negb]; [| by eexists].
      destruct (awaitSeek pf k); [| by eexists].
      destruct (capture pf k); by eapply IH.
Qed.

End extractor_facts.

(** C4, evaluated on the code.  Each seek is raced against a 5000 ms timer,
    but when the timer wins, the rejection of the per-frame promise reaches
    the enclosing [catch] and rejects the extraction: with frame 1 of
    [0, 1, 2] never seeking, the result is the timeout error of frame 1 and
    not the two frames that the specification's extraction keeps.  The same
    holds for any timeout on an index whose time lies within the video. *)
Theorem extract_timeout_rejects_all :
  Extractor.seekTimeoutMs = 5000 /\
  Extractor.extractVideoFrames Scenario.clip Scenario.stalledSeek [0; 1; 2] (JS.of_Z 30)
  = Rejected (TimeoutWaitingForFrame 1) /\
  Extractor.spec_extract Scenario.clip Scenario.stalledSeek (JS.of_Z 30) [0; 1; 2]
  = [(0, Scenario.pictureOf 0); (2, Scenario.pictureOf 2)] /\
  (forall video pf fps frameIndices frameIdx,
      Extractor.loads pf = true -> Extractor.context2d pf = true ->
      frameIdx ∈ frameIndices ->
      Extractor.attempted video fps frameIdx ->
      Extractor.awaitSeek pf frameIdx = Extractor.TimedOut ->
      exists e,
        Extractor.extractVideoFrames video pf frameIndices fps = Rejected e).
Proof.
  split; [done |]. split; [reflexivity |]. split; [reflexivity |].
  intros video pf fps frameIndices frameIdx Hl Hc Hin Hatt Hto.
  unfold Extractor.extractVideoFrames. rewrite Hl, Hc. cbn [negb].
  by eapply extractLoop_timeout.
Qed.

(** The general part of the statement above, at the stalled platform. *)
Lemma extract_timeout_rejects_all_witness :
  exists e,
    Extractor.extractVideoFrames Scenario.clip Scenario.stalledSeek [0; 1; 2] (JS.of_Z 30)
    = Rejected e.
Proof.
  apply (proj2 (proj2 (proj2 extract_timeout_rejects_all))
           Scenario.clip Scenario.stalledSeek (JS.of_Z 30) [0; 1; 2] 1);
    try reflexivity.
  apply list_elem_of_lookup. by exists 1%nat.
Defined.

(** ** The rendering loop of the trackers *)

Section tracker_facts.

Import JS Canvas Tracker.

(** The indices handed to the extractor are in ascending order. *)
Lemma sortedIndices_sorted (frames : list FramePacket) :
  Sorted Z.le (sortedIndices frames).
Proof.
  assert (Total Z.le) by (intros x y; lia).
  by apply Sorted_merge_sort.
Qed.

Lemma indexOf_lookup (xs : list Z) (x : Z) :
  x ∈ xs -> exists i : nat, indexOf xs x = Z.of_nat i /\ xs !! i = Some x.
Proof.
  induction xs as [| y ys IH]; intros Hin; [by apply elem_of_nil in Hin |].
  cbn [indexOf]. destruct (Z.eqb_spec y x) as [-> | Hne].
  - by exists 0%nat.
  - apply elem_of_cons in Hin as [-> | Hin]; [done |].
    destruct (IH Hin) as (i & Hi & Hx). rewrite Hi.
    destruct (Z.eqb_spec (Z.of_nat i) (-1)); [lia |].
    exists (S i). split; [lia | done].
Qed.

(** When every requested index was captured, each index finds the picture
    taken for it. *)
Lemma originalFrameFor_aligned (frameIndices : list Z) (pic : Z -> Raster)
    (frameIdx : Z) :
  frameIdx ∈ frameIndices ->
  originalFrameFor frameIndices (pic <$> frameIndices) frameIdx
  = Some (pic frameIdx).
Proof.
  intros Hin. destruct (indexOf_lookup _ _ Hin) as (i & Hi & Hx).
  unfold originalFrameFor. rewrite Hi, length_fmap.
  pose proof (lookup_lt_Some _ _ _ Hx) as Hlt.
  destruct (Z.eqb_spec (Z.of_nat i) (-1)); [lia |].
  destruct (Z.leb_spec (Z.of_nat (length frameIndices)) (Z.of_nat i)); [lia |].
  cbn [orb]. unfold arrayGet.
  destruct (Z.leb_spec 0 (Z.of_nat i)); [| lia].
  by rewrite Nat2Z.id, list_lookup_fmap, Hx.
Qed.

Lemma pairing_aligned (frames : list FramePacket) (pic : Z -> Raster) :
  pairing frames (sortedIndices frames) (pic <$> sortedIndices frames)
  = map (fun frameData => (frameData, pic (frame_idx frameData))) frames.
Proof.
  unfold pairing.
  assert (Hall : forall frameData, frameData ∈ frames ->
            frame_idx frameData ∈ sortedIndices frames).
  { intros frameData Hin. unfold sortedIndices.
    rewrite merge_sort_Permutation. by apply list_elem_of_fmap_2. }
  revert Hall. generalize (sortedIndices frames) as idxs.
  induction frames as [| frameData rest IH]; intros idxs Hall; [done |].
  cbn [omap list_omap map].
  rewrite originalFrameFor_aligned by (apply Hall; by left).
  f_equal. apply IH. intros fd Hfd. apply Hall. by right.
Qed.

End tracker_facts.

(** C5, evaluated on the code.  [extractVideoFrames] returns the captured
    images without their indices, and the tracker looks a packet's image up
    at the position of its index among the requested ones.  With the
    capture of frame 1 of [0, 1, 2] failing, two images are returned in
    ascending order, the packet of frame 1 is rendered on the image captured
    for frame 2, and the packet of frame 2 is rendered on nothing. *)
Theorem pairing_shifts_after_failure :
  Extractor.extractVideoFrames Scenario.clip Scenario.lostBlob
    (Tracker.sortedIndices Scenario.packets) (JS.of_Z 30)
  = Resolved [Scenario.pictureOf 0; Scenario.pictureOf 2] /\
  Tracker.pairing Scenario.packets (Tracker.sortedIndices Scenario.packets)
    [Scenario.pictureOf 0; Scenario.pictureOf 2]
  = [(Scenario.packet 0, Scenario.pictureOf 0);
     (Scenario.packet 1, Scenario.pictureOf 2)] /\
  Scenario.pictureOf 1 <> Scenario.pictureOf 2.
Proof. split; [reflexivity |]. split; [reflexivity |]. discriminate. Qed.

(** ** PlaybackSynchronizer *)

Section synchronizer_facts.

Import JS Synchronizer.

(** [Math.max(0, Math.min(1, x))] on a finite [x] is finite, lies in
    [0, 1], and is [x] itself when [x] does. *)
Lemma clamp_unit (x : Q) :
  exists p : Q,
    Math_max (of_Z 0) (Math_min (of_Z 1) (Fin x)) = Fin p /\
    (0 <= p <= 1)%Q /\
    ((x <= 0 -> p == 0) /\ (0 <= x <= 1 -> p == x) /\ (1 <= x -> p == 1))%Q.
Proof.
  unfold Math_max, Math_min, of_Z. cbn [leb].
  destruct (Qle_bool (inject_Z 1) x) eqn:H1.
  - apply Qle_bool_iff in H1. change (inject_Z 1) with 1%Q in H1.
    exists 1%Q. cbn [leb]. change (Qle_bool (inject_Z 0) (inject_Z 1)) with true.
    repeat split; intros; try done; try lra.
  - assert (x < 1)%Q as Hlt.
    { destruct (Qlt_le_dec x 1) as [? | Hle]; [done |].
      apply Qle_bool_iff in Hle. change 1%Q with (inject_Z 1) in Hle. congruence. }
    cbn [leb]. destruct (Qle_bool (inject_Z 0) x) eqn:H0.
    + apply Qle_bool_iff in H0. change (inject_Z 0) with 0%Q in H0.
      exists x. repeat split; intros; try done; lra.
    + assert (x < 0)%Q.
      { destruct (Qlt_le_dec x 0) as [? | Hle]; [done |].
        apply Qle_bool_iff in Hle. change 0%Q with (inject_Z 0) in Hle.
        congruence. }
      exists 0%Q. repeat split; intros; try done; lra.
Qed.

Lemma sub_of_Z (a b : Z) : sub (of_Z a) (of_Z b) = of_Z (a - b).
Proof.
  unfold sub, neg, add, of_Z, inject_Z, Qplus, Qopp. cbn [Qnum Qden].
  f_equal. f_equal. lia.
Qed.

Lemma index_of_nat {A : Type} (xs : list A) (i : nat) :
  index xs (of_nat i) = xs !! i.
Proof.
  unfold index, of_nat, of_Z. rewrite Qfloor_Z.
  rewrite (proj2 (Qeq_bool_iff _ _)) by reflexivity.
  destruct (Z.leb_spec 0 (Z.of_nat i)); [| lia].
  cbn [andb]. by rewrite Nat2Z.id.
Qed.

(** A positive duration is an infinity or a positive rational. *)
Lemma positive_duration (duration : number) :
  gtb duration (of_Z 0) = true ->
  duration = PosInf \/ exists d : Q, duration = Fin d /\ (0 < d)%Q.
Proof.
  destruct duration as [| | | d]; try done; [by left |].
  rewrite gtb_Fin_0. intros H. right. exists d. split; [done |].
  destruct (Qlt_le_dec 0 d) as [? | Hle]; [done |].
  apply Qle_bool_iff in Hle. by rewrite Hle in H.
Qed.

(** Outside its guard [updateOverlay] leaves the shown overlay alone. *)
Lemma updateOverlay_guard (fl : Q -> number) (currentTime duration : number)
    (frames : list string) (shown : option string) :
  gtb duration (of_Z 0) = false \/ frames = [] ->
  updateOverlay fl currentTime duration frames shown = shown.
Proof.
  intros [Hd | ->]; unfold updateOverlay.
  - by rewrite Hd.
  - cbn [length]. change (gtb (of_nat 0) (of_Z 0)) with false.
    by rewrite andb_false_r.
Qed.

(** The exact results are a rounding in the sense of [Binary64.nearest]. *)
Lemma exact_nearest : Binary64.nearest Fin.
Proof.
  split.
  - done.
  - intros a b Hab. cbn [leb]. by apply Qle_bool_iff.
  - intros q _. cbn [eqv]. reflexivity.
Qed.

Lemma representable_Z (z : Z) :
  Z.abs z < 2 ^ 53 -> Binary64.representable (inject_Z z).
Proof.
  intros Hz. exists z, 0. split; [done |]. split; [lia |].
  change (2 ^ 0)%Q with 1%Q. by rewrite Qmult_1_r.
Qed.

Section rounded_facts.

Variable fl : Q -> number.
Hypothesis Hfl : Binary64.nearest fl.

(** A rounded integer below [2 ^ 53] is that integer. *)
Lemma fl_Z (z : Z) :
  Z.abs z < 2 ^ 53 -> exists r : Q, fl (inject_Z z) = Fin r /\ (r == inject_Z z)%Q.
Proof.
  intros Hz.
  pose proof (Binary64.nearest_exact fl Hfl _ (representable_Z z Hz)) as He.
  destruct (fl (inject_Z z)) as [| | | r]; try done. by exists r.
Qed.

(** A value between two integers below [2 ^ 53] rounds to a rational
    between them. *)
Lemma fl_between (lo hi : Z) (y : Q) :
  Z.abs lo < 2 ^ 53 -> Z.abs hi < 2 ^ 53 ->
  (inject_Z lo <= y)%Q -> (y <= inject_Z hi)%Q ->
  exists r : Q, fl y = Fin r /\ (inject_Z lo <= r)%Q /\ (r <= inject_Z hi)%Q.
Proof.
  intros Hlo Hhi Hy1 Hy2.
  destruct (fl_Z lo Hlo) as (rlo & Elo & Hrlo).
  destruct (fl_Z hi Hhi) as (rhi & Ehi & Hrhi).
  pose proof (Binary64.nearest_monotone fl Hfl _ _ Hy1) as M1.
  pose proof (Binary64.nearest_monotone fl Hfl _ _ Hy2) as M2.
  pose proof (Binary64.nearest_number fl Hfl y) as Hn.
  rewrite Elo in M1. rewrite Ehi in M2.
  destruct (fl y) as [| | | r]; try done.
  cbn [leb] in M1, M2. apply Qle_bool_iff in M1, M2.
  exists r. split; [done |]. split; lra.
Qed.

(** Rounding does not tell equal rationals apart. *)
Lemma fl_exact (y q : Q) :
  Binary64.representable q -> (y == q)%Q ->
  exists r : Q, fl y = Fin r /\ (r == q)%Q.
Proof.
  intros (m & e & Hm & He & Hq) Hy.
  assert (Hrep : Binary64.representable y).
  { exists m, e. split; [done |]. split; [done |]. by rewrite Hy. }
  pose proof (Binary64.nearest_exact fl Hfl _ Hrep) as Hex.
  destruct (fl y) as [| | | r]; try done. cbn [eqv] in Hex.
  exists r. split; [done |]. by rewrite Hex.
Qed.

(** The clamp of a number that is not NaN. *)
Lemma clamp_number (x : number) :
  x <> NaN ->
  exists p : Q,
    Math_max (of_Z 0) (Math_min (of_Z 1) x) = Fin p /\ (0 <= p <= 1)%Q /\
    (forall q : Q, x = Fin q ->
       (q <= 0 -> p == 0)%Q /\ (0 <= q <= 1 -> p == q)%Q /\
       (1 <= q -> p == 1)%Q).
Proof.
  intros Hx. destruct x as [| | | q]; [done | | |].
  - exists 1%Q. split; [reflexivity |]. split; [lra | done].
  - exists 0%Q. split; [reflexivity |]. split; [lra | done].
  - destruct (clamp_unit q) as (p & Hp & Hrange & Hcases).
    exists p. split; [done |]. split; [done |]. by intros ? [= <-].
Qed.

(** The quotient of a finite time by a positive duration, rounded, is not
    NaN. *)
Lemma quotient_number (currentTime : Q) (duration : number) :
  gtb duration (of_Z 0) = true ->
  Binary64.rounded fl (div (Fin currentTime) duration) <> NaN.
Proof.
  intros Hdur.
  destruct (positive_duration _ Hdur) as [-> | (d & -> & Hd)].
  - cbn [div Binary64.rounded]. apply (Binary64.nearest_number fl Hfl).
  - rewrite div_Fin_pos by done. cbn [Binary64.rounded].
    apply (Binary64.nearest_number fl Hfl).
Qed.

End rounded_facts.

End synchronizer_facts.

(** C6.  Results are rounded to the nearest binary64 value, as the code
    computes them.  When the guard of [updateOverlay] holds (a positive
    duration and at least one overlay), the progress is the quotient
    [currentTime / duration] clamped to [0, 1], the index is
    [min (frameCount - 1, floor (progress * frameCount))], it lies within
    the overlays, and the overlay at that index is the one shown
    afterwards.  With four overlays, a duration of 2 s and a current time
    of 1.5 s the progress is 3/4 and the index is 3. *)
Theorem updateOverlay_in_bounds (fl : Q -> JS.number) (currentTime : Q)
    (duration : JS.number) (frames : list string) (shown : option string) :
  Binary64.nearest fl ->
  JS.gtb duration (JS.of_Z 0) = true ->
  frames <> [] ->
  Z.of_nat (length frames) < 2 ^ 53 ->
  (exists (x : JS.number) (p r : Q) (i : nat),
     Binary64.rounded fl (JS.div (JS.Fin currentTime) duration) = x /\
     JS.Math_max (JS.of_Z 0) (JS.Math_min (JS.of_Z 1) x) = JS.Fin p /\
     Synchronizer.progress fl (JS.Fin currentTime) duration = JS.Fin p /\
     (0 <= p <= 1)%Q /\
     (forall q : Q, x = JS.Fin q ->
        (q <= 0 -> p == 0)%Q /\ (0 <= q <= 1 -> p == q)%Q /\
        (1 <= q -> p == 1)%Q) /\
     Binary64.rounded fl (JS.mul (JS.Fin p) (JS.of_nat (length frames)))
     = JS.Fin r /\
     Synchronizer.frameIndex fl (JS.Fin currentTime) duration (length frames)
     = JS.of_nat i /\
     Z.of_nat i = Z.min (Z.of_nat (length frames) - 1) (Qfloor r) /\
     (i < length frames)%nat /\
     exists overlay,
       frames !! i = Some overlay /\
       Synchronizer.updateOverlay fl (JS.Fin currentTime) duration frames shown
       = Some overlay) /\
  JS.eqv (Synchronizer.progress fl (JS.Fin (3 # 2)) (JS.of_Z 2))
    (JS.Fin (3 # 4)) /\
  Synchronizer.frameIndex fl (JS.Fin (3 # 2)) (JS.of_Z 2) 4 = JS.of_Z 3.
Proof.
  intros Hfl Hdur Hne Hlen.
  assert (Hscenario :
    exists p r : Q,
      Synchronizer.progress fl (JS.Fin (3 # 2)) (JS.of_Z 2) = JS.Fin p /\
      (p == 3 # 4)%Q /\
      fl (p * inject_Z 4)%Q = JS.Fin r /\ (r == 3)%Q).
  { unfold Synchronizer.progress.
    change (JS.div (JS.Fin (3 # 2)) (JS.of_Z 2)) with (JS.Fin ((3 # 2) / 2)%Q).
    cbn [Binary64.rounded].
    destruct (fl_exact fl Hfl ((3 # 2) / 2)%Q (3 # 4)) as (q & -> & Hq).
    { exists 3, (-2). split; [done |]. split; [lia | reflexivity]. }
    { reflexivity. }
    destruct (clamp_unit q) as (p & -> & _ & _ & Hin & _).
    assert (Hp : (p == 3 # 4)%Q) by (rewrite Hin; [done | lra]).
    destruct (fl_exact fl Hfl (p * inject_Z 4)%Q 3%Q) as (r & Hr & Hr3).
    { exists 3, 0. split; [done |]. split; [lia | reflexivity]. }
    { rewrite Hp. reflexivity. }
    by exists p, r. }
  split; [| split].
  - set (n := length frames) in *.
    assert (0 < n)%nat as Hn by (subst n; destruct frames; [done | simpl; lia]).
    pose proof (quotient_number fl Hfl currentTime duration Hdur) as Hx.
    destruct (clamp_number _ Hx) as (p & Hp & Hrange & Hcases).
    destruct (fl_between fl Hfl 0 (Z.of_nat n) (p * inject_Z (Z.of_nat n))%Q)
      as (r & Hr & Hr0 & Hrn); [done | lia | | |].
    { change (inject_Z 0) with 0%Q. apply Qmult_le_0_compat; [lra |].
      change 0%Q with (inject_Z 0). rewrite <- Zle_Qle. lia. }
    { assert (0 <= inject_Z (Z.of_nat n))%Q
        by (change 0%Q with (inject_Z 0); rewrite <- Zle_Qle; lia).
      nra. }
    set (k := Z.min (Z.of_nat n - 1) (Qfloor r)).
    assert (0 <= Qfloor r) as Hfloor by exact (Qfloor_resp_le 0 r Hr0).
    assert (Hidx : Synchronizer.frameIndex fl (JS.Fin currentTime) duration n
                   = JS.of_nat (Z.to_nat k)).
    { unfold Synchronizer.frameIndex, Synchronizer.progress.
      rewrite Hp. unfold JS.of_nat at 1. rewrite sub_of_Z.
      change (JS.mul (JS.Fin p) (JS.of_nat n))
        with (JS.Fin (p * inject_Z (Z.of_nat n))%Q).
      cbn [Binary64.rounded]. rewrite Hr. cbn [JS.Math_floor].
      rewrite Math_min_of_Z. fold k. unfold JS.of_nat. f_equal. lia. }
    exists (Binary64.rounded fl (JS.div (JS.Fin currentTime) duration)), p, r,
      (Z.to_nat k).
    split; [done |]. split; [done |]. split; [done |]. split; [done |].
    split; [done |]. split; [exact Hr |]. split; [done |].
    split; [lia |]. split; [lia |].
    destruct (lookup_lt_is_Some_2 frames (Z.to_nat k)) as [overlay Hov];
      [fold n; lia |].
    exists overlay. split; [done |].
    unfold Synchronizer.updateOverlay. fold n. rewrite Hdur.
    unfold JS.gtb at 1. unfold JS.of_nat at 1. rewrite ltb_of_Z.
    destruct (Z.ltb_spec 0 (Z.of_nat n)); [| lia]. cbn [andb].
    rewrite Hidx, index_of_nat, Hov.
    by case_bool_decide.
  - destruct Hscenario as (p & r & -> & Hp & _). exact Hp.
  - destruct Hscenario as (p & r & Hprog & Hp & Hr & Hr3).
    unfold Synchronizer.frameIndex. rewrite Hprog.
    change (JS.mul (JS.Fin p) (JS.of_nat 4)) with (JS.Fin (p * inject_Z 4)%Q).
    cbn [Binary64.rounded]. rewrite Hr. cbn [JS.Math_floor].
    rewrite (Qfloor_comp r 3 Hr3).
    reflexivity.
Qed.

(** The scenario of the specification, through the general statement, with
    the exact results for the rounded ones. *)
Lemma updateOverlay_in_bounds_witness :
  Synchronizer.updateOverlay JS.Fin (JS.Fin (3 # 2)) (JS.of_Z 2)
    ["f0"; "f1"; "f2"; "f3"] None = Some "f3".
Proof.
  destruct (updateOverlay_in_bounds JS.Fin (3 # 2) (JS.of_Z 2)
              ["f0"; "f1"; "f2"; "f3"] None exact_nearest eq_refl
              ltac:(done) ltac:(done))
    as [(x & p & r & i & _ & _ & _ & _ & _ & _ & _ & _ & _ & overlay & _ & H)
        _].
  rewrite H. vm_compute in H. by symmetry.
Defined.

(** ** OverlayCompositor *)

Section overlay_facts.

Import Canvas Overlay.

Lemma colorForObjectId_palette (id : Z) :
  0 <= id -> colorForObjectId id = spec_color id.
Proof.
  intros Hid. unfold colorForObjectId, spec_color, arrayGet.
  rewrite Z.rem_mod_nonneg by (simpl; lia).
  destruct (Z.leb_spec 0 (id mod Z.of_nat (length colors))); [done |].
  pose proof (Z.mod_pos_bound id (Z.of_nat (length colors))). simpl in *. lia.
Qed.

(** A listed, non-zero id decides the colour by itself. *)
Lemma maskColor_by_id (objectIds : list Z) (i : nat) (id : Z) :
  objectIds !! i = Some id -> id <> 0 ->
  maskColor objectIds i = colorForObjectId id.
Proof.
  intros Hi Hne. unfold maskColor, objIdAt. rewrite Hi.
  by destruct (Z.eqb_spec id 0).
Qed.

(** The id 0 is read as missing: the position decides the colour. *)
Lemma maskColor_zero (objectIds : list Z) (i : nat) :
  objectIds !! i = Some 0 ->
  maskColor objectIds i = colorForObjectId (Z.of_nat i).
Proof. intros Hi. unfold maskColor, objIdAt. by rewrite Hi. Qed.

End overlay_facts.

(** C7, evaluated on the code.  The palette has ten colours and a
    non-negative id [id] that is listed and not zero gets the colour at
    [id mod 10] wherever its mask stands.  The object id 0, however, is
    falsy in [objectIds[i] || i], so its mask takes the colour of its
    position: red at position 0, green at position 1, where it also
    coincides with the colour of object 1. *)
Theorem maskColor_zero_id_by_position :
  length Overlay.colors = 10%nat /\
  Overlay.spec_color 0 = Some (255, 0, 0) /\
  Overlay.maskColor [0; 1] 0 = Some (255, 0, 0) /\
  Overlay.maskColor [1; 0] 1 = Some (0, 255, 0) /\
  Overlay.maskColor [1; 0] 0 = Some (0, 255, 0) /\
  (forall (objectIds : list Z) (i : nat) (id : Z),
      objectIds !! i = Some id -> 0 < id ->
      Overlay.maskColor objectIds i = Overlay.spec_color id) /\
  (forall (objectIds : list Z) (i : nat),
      objectIds !! i = Some 0 ->
      Overlay.maskColor objectIds i = Overlay.spec_color (Z.of_nat i)).
Proof.
  repeat split; try reflexivity.
  - intros objectIds i id Hi Hid.
    rewrite (maskColor_by_id _ _ id) by (done || lia).
    apply colorForObjectId_palette. lia.
  - intros objectIds i Hi. rewrite maskColor_zero by done.
    apply colorForObjectId_palette. lia.
Qed.

(** Object 12 in second position takes the colour at 12 mod 10. *)
Lemma maskColor_zero_id_by_position_witness :
  Overlay.maskColor [3; 12] 1 = Some (0, 0, 255).
Proof.
  rewrite (proj1 (proj2 (proj2 (proj2 (proj2 (proj2
             maskColor_zero_id_by_position))))) [3; 12] 1%nat 12);
    [reflexivity | reflexivity | lia].
Defined.

Section compositing_facts.

Import Canvas.

Lemma quantize_channel (c : Z) (q : Q) :
  channel8 c -> (q == inject_Z c)%Q -> quantize q = c.
Proof.
  intros Hc Hq. unfold quantize. rewrite Hq.
  assert (Qfloor (inject_Z c + (1 # 2)) = c) as ->.
  { pose proof (Qfloor_le (inject_Z c + (1 # 2))) as Hlo.
    pose proof (Qlt_floor (inject_Z c + (1 # 2))) as Hhi.
    set (n := Qfloor (inject_Z c + (1 # 2))) in *.
    assert (inject_Z n < inject_Z (c + 1))%Q as H1.
    { rewrite inject_Z_plus. change (inject_Z 1) with 1%Q. lra. }
    assert (inject_Z (c - 1) < inject_Z n)%Q as H2.
    { rewrite inject_Z_plus in Hhi. unfold Z.sub.
      rewrite inject_Z_plus, inject_Z_opp.
      change (inject_Z 1) with 1%Q in *. lra. }
    rewrite <- Zlt_Qlt in H1, H2. lia. }
  unfold channel8 in Hc. lia.
Qed.

(** An opaque pixel drawn at full alpha onto a transparent one is kept as
    it is. *)
Lemma sourceOver_transparent (s : rgba) :
  validPixel s -> s.2 = 255 -> sourceOver 1 s transparent = s.
Proof.
  destruct s as [[[sr sg] sb] sa]. simpl. intros (Hr & Hg & Hb & Ha) ->.
  unfold sourceOver, transparent.
  set (alphaS := (1 * (255 # 255))%Q).
  set (alphaD := (0 # 255)%Q).
  assert (Hs : (alphaS == 1)%Q) by reflexivity.
  assert (Hd : (alphaD == 0)%Q) by reflexivity.
  assert (Ho : (alphaS + alphaD * (1 - alphaS) == 1)%Q) by reflexivity.
  destruct (Qeq_bool (alphaS + alphaD * (1 - alphaS)) 0) eqn:E.
  { apply Qeq_bool_iff in E. lra. }
  assert (Hch : forall c, channel8 c ->
            quantize ((inject_Z c * alphaS + inject_Z 0 * alphaD * (1 - alphaS))
                      / (alphaS + alphaD * (1 - alphaS))) = c).
  { intros c Hc. apply quantize_channel; [done |].
    rewrite Ho, Hs, Hd. field. }
  rewrite !Hch by done.
  rewrite (quantize_channel 255) by (done || (rewrite Ho; reflexivity)).
  done.
Qed.

(** Drawing an opaque image onto a fresh canvas of its size reproduces the
    image. *)
Lemma drawImage_blank (frame : Raster) :
  wellFormed frame -> opaque frame ->
  drawImage 1 frame (blank (rw frame) (rh frame)) = frame.
Proof.
  intros [Hlen Hvalid] Hop. destruct frame as [w h px].
  unfold drawImage, blank. cbn [rw rh pixels] in *. f_equal.
  apply list_eq. intros k. rewrite list_lookup_imap.
  destruct (px !! k) as [s |] eqn:Hk.
  - rewrite lookup_replicate_2 by (apply lookup_lt_Some in Hk; lia).
    cbn [fmap option_fmap option_map]. f_equal.
    apply sourceOver_transparent.
    + by eapply Forall_lookup_1 in Hvalid.
    + by eapply Forall_lookup_1 in Hop.
  - apply lookup_ge_None in Hk.
    rewrite (proj1 (lookup_replicate_None _ _ _)) by lia. done.
Qed.

End compositing_facts.

(** C8.  With a 2D context available, both ways the trackers composite a
    frame that has no mask, [renderMasksOnFrame] with an empty list and the
    plain copy taken when [masks.length] is 0, return the frame itself,
    pixel for pixel, for every well-formed opaque frame and whatever the
    resampling, object ids, alpha and frame index are. *)
Theorem empty_masks_frame_unchanged
    (scaleNearest : nat -> nat -> Canvas.Raster -> Canvas.Raster)
    (frame : Canvas.Raster) (frameIdx : Z) (objectIds : list Z) (alpha : Q) :
  Canvas.wellFormed frame -> Canvas.opaque frame ->
  Overlay.renderMasksOnFrame scaleNearest true frame [] objectIds alpha
  = Resolved frame /\
  Tracker.renderPacket scaleNearest true
    (Tracker.mkPacket frameIdx [] objectIds) frame = [frame].
Proof.
  intros Hwf Hop.
  unfold Overlay.renderMasksOnFrame, Tracker.renderPacket, Tracker.copyFrame.
  cbn [negb Overlay.renderLoop Tracker.masks length Nat.ltb Nat.leb].
  by rewrite drawImage_blank.
Qed.

(** A 2 x 1 frame of two opaque pixels, composited with no mask. *)
Lemma empty_masks_frame_unchanged_witness :
  Overlay.renderMasksOnFrame (fun _ _ r => r) true
    (Canvas.mkRaster 2 1 [(10, 20, 30, 255); (0, 255, 7, 255)]) [] [] (7 # 10)
  = Resolved (Canvas.mkRaster 2 1 [(10, 20, 30, 255); (0, 255, 7, 255)]).
Proof.
  apply (empty_masks_frame_unchanged (fun _ _ r => r)
           (Canvas.mkRaster 2 1 [(10, 20, 30, 255); (0, 255, 7, 255)]) 0 []
           (7 # 10)).
  - split; [reflexivity |].
    repeat constructor; unfold Canvas.channel8; lia.
  - repeat constructor.
Defined.

(** ** TrimPipeline *)

Section trim_facts.

Import JS Trim.

Lemma Math_max_Fin (a b : Q) :
  Math_max (Fin a) (Fin b) = Fin (if Qle_bool a b then b else a).
Proof. unfold Math_max. cbn [leb]. by destruct (Qle_bool a b). Qed.

Lemma Math_min_Fin (a b : Q) :
  Math_min (Fin a) (Fin b) = Fin (if Qle_bool a b then a else b).
Proof. unfold Math_min. cbn [leb]. by destruct (Qle_bool a b). Qed.

Lemma Qle_bool_false (a b : Q) : Qle_bool a b = false -> (b < a)%Q.
Proof.
  intros H. destruct (Qlt_le_dec b a) as [? | Hle]; [done |].
  apply Qle_bool_iff in Hle. congruence.
Qed.

(** The percentage the code reports and the fraction the specification
    words, side by side. *)
Lemma progressValue_percent (currentTime startTime endTime : Q) :
  (startTime < endTime)%Q ->
  exists v f : Q,
    progressValue (Fin currentTime) (Fin startTime) (Fin endTime) = Fin v /\
    spec_progress (Fin currentTime) (Fin startTime) (Fin endTime) = Fin f /\
    (v == 100 * f)%Q /\ (0 <= f <= 1)%Q /\
    ((Trim.fraction currentTime startTime endTime <= 0 -> f == 0) /\
     (0 <= Trim.fraction currentTime startTime endTime <= 1 ->
      f == Trim.fraction currentTime startTime endTime) /\
     (1 <= Trim.fraction currentTime startTime endTime -> f == 1))%Q.
Proof.
  intros Hwin. unfold progressValue, spec_progress, Trim.fraction.
  unfold sub, neg, add. rewrite div_Fin_pos by lra.
  set (x := ((currentTime + - startTime) / (endTime + - startTime))%Q).
  replace ((currentTime - startTime) / (endTime - startTime))%Q with x by done.
  unfold mul, of_Z. rewrite !Math_max_Fin, !Math_min_Fin.
  change (inject_Z 0) with 0%Q. change (inject_Z 1) with 1%Q.
  change (inject_Z 100) with 100%Q.
  eexists _, _. split; [reflexivity |]. split; [reflexivity |].
  destruct (Qle_bool 0 (x * 100)) eqn:E1; destruct (Qle_bool 0 x) eqn:E2;
    try apply Qle_bool_iff in E1; try apply Qle_bool_iff in E2;
    try apply Qle_bool_false in E1; try apply Qle_bool_false in E2;
    try (exfalso; lra).
  - destruct (Qle_bool 100 (x * 100)) eqn:E3; destruct (Qle_bool 1 x) eqn:E4;
      try apply Qle_bool_iff in E3; try apply Qle_bool_iff in E4;
      try apply Qle_bool_false in E3; try apply Qle_bool_false in E4;
      try (exfalso; lra); repeat split; intros; lra.
  - change (Qle_bool 100 0) with false. change (Qle_bool 1 0) with false.
    repeat split; intros; lra.
Qed.

End trim_facts.

(** C9, as the code has it.  While recording over a window of positive
    length, a call of [processFrame] stops the recorder, and reports
    nothing, when the video has ended or the current time has reached
    [endTime]; otherwise it draws, reschedules itself, and reports to the
    callback 100 times the elapsed fraction clamped to [0, 1]: a percentage
    between 0 and 100. *)
Theorem processFrame_reports_percent (t : Trim.trimmer) (ended : bool)
    (currentTime startTime endTime : Q) :
  Trim.isRecording t = true ->
  (startTime < endTime)%Q ->
  let tk := Trim.processFrame t ended (JS.Fin currentTime) (JS.Fin startTime)
              (JS.Fin endTime) true in
  if ended || Qle_bool endTime currentTime then
    Trim.next tk = Trim.stopRecording t /\
    Trim.isRecording (Trim.next tk) = false /\
    (forall s, Trim.mediaRecorder t = Some s ->
               Trim.mediaRecorder (Trim.next tk) = Some Trim.inactive) /\
    Trim.reported tk = None /\ Trim.drew tk = false /\
    Trim.rescheduled tk = false
  else
    Trim.next tk = t /\ Trim.drew tk = true /\ Trim.rescheduled tk = true /\
    exists v f : Q,
      Trim.reported tk = Some (JS.Fin v) /\
      Trim.spec_progress (JS.Fin currentTime) (JS.Fin startTime) (JS.Fin endTime)
      = JS.Fin f /\
      (v == 100 * f)%Q /\ (0 <= v <= 100)%Q /\ (0 <= f <= 1)%Q /\
      ((Trim.fraction currentTime startTime endTime <= 0 -> f == 0) /\
       (0 <= Trim.fraction currentTime startTime endTime <= 1 ->
        f == Trim.fraction currentTime startTime endTime))%Q.
Proof.
  intros Hrec Hwin tk. subst tk. unfold Trim.processFrame. rewrite Hrec.
  cbn [negb]. unfold JS.geb. cbn [JS.leb].
  destruct (ended || Qle_bool endTime currentTime) eqn:Hstop.
  - cbn [Trim.next Trim.reported Trim.drew Trim.rescheduled].
    repeat split; try done.
    intros s Hs. unfold Trim.stopRecording. cbn [Trim.mediaRecorder].
    rewrite Hs. by destruct s.
  - cbn [Trim.next Trim.reported Trim.drew Trim.rescheduled].
    repeat split; try done.
    destruct (progressValue_percent currentTime startTime endTime Hwin)
      as (v & f & Hv & Hf & Hvf & Hrange & H0 & H1 & _).
    exists v, f. rewrite Hv. repeat split; try done; lra.
Qed.

(** Half-way through a ten-second window the callback receives 50, where
    the specification's fraction is 1/2. *)
Lemma processFrame_reports_percent_witness :
  exists v : Q,
    Trim.reported
      (Trim.processFrame (Trim.mkTrimmer true (Some Trim.recording) false)
         false (JS.Fin 5) (JS.Fin 0) (JS.Fin 10) true)
    = Some (JS.Fin v) /\ (v == 50)%Q.
Proof.
  pose proof (processFrame_reports_percent
                (Trim.mkTrimmer true (Some Trim.recording) false) false
                5 0 10 eq_refl ltac:(reflexivity)) as H.
  cbv zeta in H. change (false || Qle_bool 10 5) with false in H.
  destruct H as (_ & _ & _ & v & f & Hv & _ & Hvf & _ & _ & _ & Hf).
  exists v. split; [exact Hv |].
  rewrite Hvf, Hf; [reflexivity |]. split; by vm_compute.
Defined.

(** C9, as the specification words it, fails on the code: half-way through
    a ten-second window the reported value is 50, not 1/2. *)
Lemma processFrame_progress_counterexample :
  exists v : JS.number,
    Trim.reported
      (Trim.processFrame (Trim.mkTrimmer true (Some Trim.recording) false)
         false (JS.of_Z 5) (JS.of_Z 0) (JS.of_Z 10) true) = Some v /\
    JS.eqv v (JS.of_Z 50) /\
    JS.eqv (Trim.spec_progress (JS.of_Z 5) (JS.of_Z 0) (JS.of_Z 10))
           (JS.Fin (1 # 2)) /\
    ~ JS.eqv v (Trim.spec_progress (JS.of_Z 5) (JS.of_Z 0) (JS.of_Z 10)).
Proof.
  eexists. split; [reflexivity |]. split; [reflexivity |].
  split; [reflexivity |]. vm_compute. discriminate.
Qed.

(** ** VideoAssembler *)

(** C10.  Whatever the platform and the rate, [createVideoFromFrames]
    rejects with the error "No frames provided" when the frames are missing
    or empty, so that a resolved video always comes from at least one input
    frame; [decodeMasksToDataURL], by contrast, answers an empty mask list
    with the empty result and no error. *)
Theorem createVideoFromFrames_no_frames {Frame : Type}
    (pf : Assembler.platform Frame) (fps : JS.number) :
  Assembler.createVideoFromFrames pf None fps = Rejected NoFramesProvided /\
  Assembler.createVideoFromFrames pf (Some []) fps = Rejected NoFramesProvided /\
  message NoFramesProvided = Some "No frames provided" /\
  (forall frames video,
      Assembler.createVideoFromFrames pf frames fps = Resolved video ->
      exists first rest, frames = Some (first :: rest)) /\
  (forall context2d, MaskImage.decodeMasksToDataURL context2d [] = None).
Proof.
  repeat split; try reflexivity.
  intros [[| first rest] |] video H; try discriminate. by exists first, rest.
Qed.

(** A single loadable frame on a working platform does assemble. *)
Lemma createVideoFromFrames_no_frames_witness :
  exists first rest,
    Some ["frame"] = Some (first :: rest) /\
    Assembler.createVideoFromFrames
      (Assembler.mkPlatform true (fun _ : string => true) false)
      (Some ["frame"]) (JS.of_Z 22)
    = Resolved (Assembler.mkVideo ["frame"] (JS.of_Z 22)).
Proof.
  destruct (proj1 (proj2 (proj2 (proj2
              (createVideoFromFrames_no_frames
                 (Assembler.mkPlatform true (fun _ : string => true) false)
                 (JS.of_Z 22)))))
              (Some ["frame"]) (Assembler.mkVideo ["frame"] (JS.of_Z 22))
              ltac:(reflexivity)) as (first & rest & H).
  exists first, rest. split; [exact H | reflexivity].
Defined.

(** * Further properties of the code *)

(** ** [decodeMasksToDataURL] *)

Section mask_image_facts.

Import RLE Canvas MaskImage Reading.

(** Decoding the masks one after the other into one buffer sets the bytes
    of the pixels that some mask covers. *)
Lemma composite_lookup (masks : list RLEMask) : forall (d : list Z) (n : nat),
  length d = (4 * n)%nat ->
  let d' :=
    fold_left
      (fun d mask =>
         buf (decodeLoop (Z.of_nat n) (counts mask) (mkDecoder 0 0 d)))
      masks d in
  length d' = (4 * n)%nat /\
  forall k : nat,
    d' !! k =
    if bool_decide (covered masks (Z.of_nat k / 4) = true /\ (k < 4 * n)%nat)
    then Some 255 else d !! k.
Proof.
  induction masks as [| mask rest IH]; intros d n Hlen; cbn [fold_left].
  - split; [done |]. intros k. by case_bool_decide as H; [destruct H |].
  - destruct (decodeLoop_lookup (counts mask) (mkDecoder 0 0 d) false n)
      as (Hl & _ & _ & Hk); [done | done |].
    cbn [RLE.p RLE.buf] in Hk.
    destruct (IH _ n Hl) as [Hl' Hk']. split; [done |].
    intros k. rewrite Hk', Hk. unfold covered. cbn [existsb].
    fold (covered rest (Z.of_nat k / 4)).
    destruct (inRun (counts mask) 0 false (Z.of_nat k / 4)),
             (covered rest (Z.of_nat k / 4)); cbn [orb];
      repeat case_bool_decide; try done; exfalso; tauto.
Qed.

Lemma covered_Exists (masks : list RLEMask) (j : Z) :
  covered masks j = true <->
  Exists (fun mask => foreground (counts mask) j) masks.
Proof.
  unfold covered. rewrite existsb_exists, Exists_exists.
  split; intros (mask & Hin & H); exists mask.
  - split; [by apply list_elem_of_In |]. by apply inRun_foreground.
  - split; [by apply list_elem_of_In |]. by apply inRun_foreground.
Qed.

(** Reading a buffer back pixel by pixel. *)
Lemma putImageData_lookup (w h : nat) (d : list Z) (f : nat -> rgba) (j : nat) :
  (forall i, (i < w * h)%nat -> pixel d i = Some (f i)) ->
  (j < w * h)%nat ->
  pixels (putImageData (mkImageData w h d)) !! j = Some (f j).
Proof.
  intros Hpx Hj. unfold putImageData. cbn [pixels width height data].
  assert (Heq : forall n s, (s + n <= w * h)%nat ->
            omap (pixel d) (seq s n) = map f (seq s n)).
  { induction n as [| n IH]; intros s Hs; [done |].
    cbn [seq omap list_omap map]. rewrite Hpx by lia. f_equal.
    apply IH. lia. }
  rewrite Heq by lia.
  change (map f (seq 0 (w * h))) with (f <$> seq 0 (w * h)).
  by rewrite list_lookup_fmap, lookup_seq_lt.
Qed.

End mask_image_facts.

(** X1.  [decodeMasksToDataURL] answers with the empty result exactly when
    there is no mask, no 2D context, or the first mask has a zero
    dimension: the empty result has one of these causes, and an image comes
    only with a 2D context and from a first mask with two positive sides.
    The image has the size of the first mask and a pixel is opaque white
    when some mask has it in a foreground run, and clear when none has: the
    masks are united on one canvas. *)
Theorem decodeMasksToDataURL_union (context2d : bool) (masks : list RLE.RLEMask) :
  match MaskImage.decodeMasksToDataURL context2d masks with
  | None =>
      context2d = false \/ masks = [] \/
      exists first rest,
        masks = first :: rest /\
        ((RLE.size first).1 = 0%nat \/ (RLE.size first).2 = 0%nat)
  | Some image =>
      context2d = true /\
      (0 < Canvas.rw image)%nat /\ (0 < Canvas.rh image)%nat /\
      exists first rest,
        masks = first :: rest /\
        RLE.size first = (Canvas.rh image, Canvas.rw image) /\
        forall j : nat, (j < Canvas.rw image * Canvas.rh image)%nat ->
          (Exists (fun mask => RLE.foreground (RLE.counts mask) (Z.of_nat j)) masks ->
           Canvas.pixels image !! j = Some RLE.white) /\
          (~ Exists (fun mask => RLE.foreground (RLE.counts mask) (Z.of_nat j)) masks ->
           Canvas.pixels image !! j = Some RLE.clear)
  end.
Proof.
  unfold MaskImage.decodeMasksToDataURL.
  destruct masks as [| first rest]; [by right; left |].
  destruct (RLE.size first) as [h w] eqn:Hsize.
  destruct context2d; cbn [negb]; [| by left].
  unfold newImageData.
  destruct w as [| w]; [right; right; exists first, rest; rewrite Hsize; auto |].
  destruct h as [| h]; [right; right; exists first, rest; rewrite Hsize; auto |].
  cbn [Nat.eqb orb data].
  split; [done |].
  split; [unfold Canvas.putImageData; cbn [Canvas.rw width]; lia |].
  split; [unfold Canvas.putImageData; cbn [Canvas.rh height]; lia |].
  exists first, rest. split; [done |]. split; [done |].
  unfold Canvas.putImageData at 1 2. cbn [Canvas.rw Canvas.rh width height].
  intros j Hj.
  destruct (composite_lookup (first :: rest) (replicate (4 * S w * S h) 0)
              (S w * S h)) as [_ Hk].
  { rewrite length_replicate. lia. }
  rewrite Nat2Z.inj_mul in Hk.
  set (d' := fold_left _ _ _) in *.
  assert (Hpx : forall i, (i < S w * S h)%nat ->
            RLE.pixel d' i =
            Some (if Reading.covered (first :: rest) (Z.of_nat i)
                  then RLE.white else RLE.clear)).
  { intros i Hi. unfold RLE.pixel.
    replace (4 * i)%nat with (4 * i + 0)%nat at 1 by lia.
    rewrite !Hk, !byte_of_pixel by lia.
    destruct (Reading.covered (first :: rest) (Z.of_nat i)).
    - by rewrite !bool_decide_eq_true_2 by (split; [done | lia]).
    - rewrite !bool_decide_eq_false_2 by (by intros [? _]).
      by rewrite !lookup_replicate_2 by lia. }
  pose proof (putImageData_lookup (S w) (S h) d'
                (fun i => if Reading.covered (first :: rest) (Z.of_nat i)
                          then RLE.white else RLE.clear) j Hpx Hj) as Hget.
  cbv beta in Hget. split.
  - intros Hex. apply covered_Exists in Hex. rewrite Hex in Hget. exact Hget.
  - intros Hno. destruct (Reading.covered _ _) eqn:E; [| exact Hget].
    by apply covered_Exists in E.
Qed.

(** ** [renderMasksOnFrame]: the overlay, pixel by pixel *)

Section overlay_pixel_facts.

Import Canvas Reading OverlaySpec.







End overlay_pixel_facts.

Section overlay_loop_facts.

Import Canvas Reading OverlaySpec Overlay.

Variable scaleNearest : nat -> nat -> Raster -> Raster.




End overlay_loop_facts.

Section overlay_reading_facts.

Import Canvas Reading OverlaySpec Overlay.





End overlay_reading_facts.



Section overlay_failure_facts.

Import Canvas Overlay Tracker OverlaySpec.

Variable scaleNearest : nat -> nat -> Raster -> Raster.

Lemma renderMask_size (alpha : Q) (objectIds : list Z) (canvas canvas' : Raster)
    (i : nat) (mask : RLE.RLEMask) :
  renderMask scaleNearest alpha objectIds canvas i mask = Resolved canvas' ->
  rw canvas' = rw canvas /\ rh canvas' = rh canvas /\
  length (pixels canvas') = length (pixels canvas).
Proof.
  unfold renderMask. destruct (RLE.size mask) as [mh mw].
  destruct (RLE.decodeRLEToImageData mask mw mh); [| done].
  destruct (maskColor objectIds i); [| done].
  intros [= <-]. split; [done |]. split; [done |].
  unfold drawImage at 1. cbn [pixels]. by rewrite length_imap.
Qed.

Lemma renderLoop_size (alpha : Q) (objectIds : list Z)
    (masks : list RLE.RLEMask) : forall (canvas canvas' : Raster) (i : nat),
  renderLoop scaleNearest alpha objectIds canvas i masks = Resolved canvas' ->
  rw canvas' = rw canvas /\ rh canvas' = rh canvas /\
  length (pixels canvas') = length (pixels canvas).
Proof.
  induction masks as [| mask rest IH]; intros canvas canvas' i H;
    cbn [renderLoop] in H.
  - by injection H as <-.
  - destruct (renderMask scaleNearest alpha objectIds canvas i mask)
      as [c1 | e] eqn:E; [| done].
    apply renderMask_size in E as (Hw & Hh & Hl).
    apply IH in H as (Hw' & Hh' & Hl'). repeat split; congruence.
Qed.

Lemma renderLoop_zeroSized (alpha : Q) (objectIds : list Z)
    (masks : list RLE.RLEMask) : forall (canvas : Raster) (i : nat),
  Exists zeroSized masks ->
  exists e, renderLoop scaleNearest alpha objectIds canvas i masks = Rejected e.
Proof.
  induction masks as [| mask rest IH]; intros canvas i Hex.
  - by apply Exists_nil in Hex.
  - cbn [renderLoop].
    destruct (renderMask scaleNearest alpha objectIds canvas i mask)
      as [c1 | e] eqn:E; [| by exists e].
    apply Exists_cons in Hex as [Hz | Hrest]; [| by apply IH].
    exfalso. unfold renderMask in E. unfold zeroSized in Hz.
    destruct (RLE.size mask) as [mh mw]. cbn [fst snd] in Hz.
    unfold RLE.decodeRLEToImageData, newImageData in E.
    destruct Hz as [-> | ->]; [by rewrite orb_true_r in E | done].
Qed.

End overlay_failure_facts.

(** X3.  A mask with a zero dimension makes [new ImageData] throw, which
    rejects [renderMasksOnFrame] as a whole; the tracker then emits the
    frame without any overlay, so the other masks of that frame are lost
    with it, but the frame itself is kept. *)
Theorem zero_sized_mask_falls_back
    (scaleNearest : nat -> nat -> Canvas.Raster -> Canvas.Raster)
    (frame : Canvas.Raster) (frameIdx : Z) (masks : list RLE.RLEMask)
    (objectIds : list Z) (alpha : Q) :
  Canvas.wellFormed frame -> Canvas.opaque frame ->
  Exists OverlaySpec.zeroSized masks ->
  (exists e,
      Overlay.renderMasksOnFrame scaleNearest true frame masks objectIds alpha
      = Rejected e) /\
  Tracker.renderPacket scaleNearest true
    (Tracker.mkPacket frameIdx masks objectIds) frame = [frame].
Proof.
  intros Hwf Hop Hex. split.
  - unfold Overlay.renderMasksOnFrame. cbn [negb]. by apply renderLoop_zeroSized.
  - unfold Tracker.renderPacket. cbn [Tracker.masks Tracker.object_ids].
    destruct masks as [| mask rest]; [by apply Exists_nil in Hex |].
    cbn [length Nat.ltb Nat.leb].
    unfold Overlay.renderMasksOnFrame. cbn [negb].
    destruct (renderLoop_zeroSized scaleNearest (7 # 10) objectIds (mask :: rest)
                (Canvas.drawImage 1 frame
                   (Canvas.blank (Canvas.rw frame) (Canvas.rh frame))) 0 Hex)
      as [e He].
    rewrite He. unfold Tracker.copyFrame. by rewrite drawImage_blank.
Qed.

(** A frame with one empty-sized mask among its two. *)
Lemma zero_sized_mask_falls_back_witness :
  Tracker.renderPacket (fun _ _ r => r) true
    (Tracker.mkPacket 4 [RLE.mkMask (1%nat, 1%nat) [0; 1];
                         RLE.mkMask (0%nat, 1%nat) []] [1; 2])
    (Canvas.mkRaster 1 1 [(10, 20, 30, 255)])
  = [Canvas.mkRaster 1 1 [(10, 20, 30, 255)]].
Proof.
  apply (zero_sized_mask_falls_back (fun _ _ r => r)
           (Canvas.mkRaster 1 1 [(10, 20, 30, 255)]) 4 _ [1; 2] (7 # 10)).
  - split; [reflexivity |]. repeat constructor; unfold Canvas.channel8; lia.
  - repeat constructor.
  - apply Exists_cons. right. apply Exists_cons. left. by left.
Defined.

(** X4.  With a 2D context a packet always contributes exactly one frame
    of the size of its original frame, whatever its masks and object ids
    are; without one it contributes none, and no error is raised. *)
Theorem renderPacket_one_frame
    (scaleNearest : nat -> nat -> Canvas.Raster -> Canvas.Raster)
    (frameData : Tracker.FramePacket) (frame : Canvas.Raster) :
  (exists rendered,
      Tracker.renderPacket scaleNearest true frameData frame = [rendered] /\
      Canvas.rw rendered = Canvas.rw frame /\
      Canvas.rh rendered = Canvas.rh frame /\
      length (Canvas.pixels rendered) = (Canvas.rw frame * Canvas.rh frame)%nat) /\
  Tracker.renderPacket scaleNearest false frameData frame = [].
Proof.
  split.
  - unfold Tracker.renderPacket, Tracker.copyFrame.
    assert (Hcopy : length (Canvas.pixels
              (Canvas.drawImage 1 frame
                 (Canvas.blank (Canvas.rw frame) (Canvas.rh frame))))
            = (Canvas.rw frame * Canvas.rh frame)%nat).
    { unfold Canvas.drawImage, Canvas.blank. cbn [Canvas.pixels].
      by rewrite length_imap, length_replicate. }
    destruct (0 <? length (Tracker.masks frameData))%nat; [| by eexists].
    unfold Overlay.renderMasksOnFrame. cbn [negb].
    destruct (Overlay.renderLoop _ _ _ _ _ _) as [rendered | e] eqn:E;
      [| by eexists].
    apply renderLoop_size in E as (Hw & Hh & Hl).
    exists rendered. split; [done |]. cbn [Canvas.rw Canvas.rh] in *.
    split; [done |]. split; [done |]. by rewrite Hl.
  - unfold Tracker.renderPacket, Tracker.copyFrame, Overlay.renderMasksOnFrame.
    cbn [negb]. by destruct (0 <? _)%nat.
Qed.

(** Two masks on a 3 x 1 canvas: the first covers the middle pixel, the
    second the first one, and nothing covers the last. *)
Lemma decodeMasksToDataURL_union_witness :
  exists image,
    MaskImage.decodeMasksToDataURL true
      [RLE.mkMask (1%nat, 3%nat) [1; 1; 1]; RLE.mkMask (1%nat, 3%nat) [0; 1; 2]]
    = Some image /\
    Canvas.pixels image !! 0%nat = Some RLE.white /\
    Canvas.pixels image !! 2%nat = Some RLE.clear.
Proof.
  pose proof (decodeMasksToDataURL_union true
                [RLE.mkMask (1%nat, 3%nat) [1; 1; 1];
                 RLE.mkMask (1%nat, 3%nat) [0; 1; 2]]) as H.
  destruct (MaskImage.decodeMasksToDataURL _ _) as [image |] eqn:E;
    [| by vm_compute in E].
  exists image. split; [done |].
  destruct H as (_ & _ & _ & first & rest & Hm & Hsz & Hpx).
  injection Hm as <- <-. cbn [RLE.size] in Hsz. injection Hsz as Hrh Hrw.
  split.
  - apply (Hpx 0%nat); [rewrite <- Hrh, <- Hrw; lia |].
    apply Exists_cons. right. apply Exists_cons. left.
    exists 1%nat, 1. by vm_compute.
  - apply (Hpx 2%nat); [rewrite <- Hrh, <- Hrw; lia |].
    intros Hex. apply covered_Exists in Hex. by vm_compute in Hex.
Defined.

(** ** [extractVideoFrames]: partial results *)

Section extractor_partial_facts.

Import JS Extractor.

Lemma time_finite (frameIdx : Z) (fps : Q) :
  (0 < fps)%Q -> isFinite (div (of_Z frameIdx) (Fin fps)) = true.
Proof. intros H. unfold of_Z. by rewrite div_Fin_pos. Qed.

End extractor_partial_facts.

(** X5.  At a positive sampling rate, when the video loads, a 2D context
    exists and no seek of an index within the duration times out, the
    extraction resolves, and its result is exactly the pictures of the
    indices whose capture succeeded, in the order requested: an index past
    the duration, a throwing [drawImage], a [null] blob and a rejected
    bitmap each drop one frame and nothing else. *)
Theorem extractVideoFrames_partial (video : Extractor.Video)
    (pf : Extractor.platform) (frameIndices : list Z) (fps : Q) :
  Extractor.loads pf = true -> Extractor.context2d pf = true ->
  (0 < fps)%Q ->
  (forall frameIdx, frameIdx ∈ frameIndices ->
     Extractor.attempted video (JS.Fin fps) frameIdx ->
     Extractor.awaitSeek pf frameIdx = Extractor.Seeked) ->
  Extractor.extractVideoFrames video pf frameIndices (JS.Fin fps)
  = Resolved (Extractor.spec_extract video pf (JS.Fin fps) frameIndices).*2.
Proof.
  intros Hl Hc Hfps Hseek. unfold Extractor.extractVideoFrames.
  rewrite Hl, Hc. cbn [negb].
  rewrite extractLoop_resolves; [done |].
  intros frameIdx Hin Hatt. split; [by apply time_finite | by apply Hseek].
Qed.

(** The clip with the blob of frame 1 lost: frames 0 and 2 come back. *)
Lemma extractVideoFrames_partial_witness :
  Extractor.extractVideoFrames Scenario.clip Scenario.lostBlob [0; 1; 2]
    (JS.Fin 30)
  = Resolved [Scenario.pictureOf 0; Scenario.pictureOf 2].
Proof.
  rewrite (extractVideoFrames_partial Scenario.clip Scenario.lostBlob
             [0; 1; 2] 30); try reflexivity.
Defined.

(** ** The tail of the trackers *)

Section pipeline_facts.

Import JS Canvas Tracker Pipeline.

Variable scaleNearest : nat -> nat -> Raster -> Raster.

Lemma extractLoop_error video pf fps (frameIndices : list Z) :
  forall frames e,
    Extractor.extractLoop video pf fps frameIndices frames = Rejected e ->
    extractionError frameIndices e.
Proof.
  unfold extractionError.
  induction frameIndices as [| k rest IH]; intros frames e H;
    cbn [Extractor.extractLoop] in H; [done |].
  assert (Hrest : forall frames,
            Extractor.extractLoop video pf fps rest frames = Rejected e ->
            e = FailedToLoadVideo \/ e = FailedToGetCanvasContext \/
            e = NonFiniteCurrentTime \/
            exists frameIdx, frameIdx ∈ k :: rest
                             /\ e = TimeoutWaitingForFrame frameIdx).
  { intros fs Hfs. destruct (IH _ _ Hfs) as [? | [? | [? | (i & Hi & ?)]]]; auto.
    right; right; right. exists i. split; [by right | done]. }
  destruct (gtb _ _); [by eapply Hrest |].
  destruct (isFinite _); cbn [negb] in H; [| injection H as <-; auto].
  destruct (Extractor.awaitSeek pf k).
  - destruct (Extractor.capture pf k); by eapply Hrest.
  - injection H as <-. right; right; right. exists k. split; [by left | done].
Qed.

Lemma extractVideoFrames_error video pf fps (frameIndices : list Z) e :
  Extractor.extractVideoFrames video pf frameIndices fps = Rejected e ->
  extractionError frameIndices e.
Proof.
  unfold Extractor.extractVideoFrames.
  destruct (Extractor.loads pf); cbn [negb];
    [| intros [= <-]; by left].
  destruct (Extractor.context2d pf); cbn [negb];
    [| intros [= <-]; by right; left].
  apply extractLoop_error.
Qed.

Lemma renderPacket_length (context2d : bool) (frameData : FramePacket)
    (frame : Raster) :
  (length (renderPacket scaleNearest context2d frameData frame) <= 1)%nat.
Proof.
  unfold renderPacket, copyFrame.
  destruct (0 <? _)%nat; [| destruct context2d; simpl; lia].
  destruct (Overlay.renderMasksOnFrame _ _ _ _ _ _); [simpl; lia |].
  destruct context2d; simpl; lia.
Qed.

Lemma renderedFrames_length (context2d : bool) (frames : list FramePacket)
    (frameIndices : list Z) (originalFrames : list Raster) :
  (length (renderedFrames scaleNearest context2d frames frameIndices
             originalFrames) <= length frames)%nat.
Proof.
  unfold renderedFrames, pairing.
  induction frames as [| frameData rest IH]; [done |].
  cbn [omap list_omap].
  destruct (originalFrameFor frameIndices originalFrames (frame_idx frameData))
    as [frame |]; cbn [flat_map length].
  - rewrite length_app.
    pose proof (renderPacket_length context2d frameData frame).
    cbn [omap] in IH. lia.
  - cbn [omap] in IH. lia.
Qed.

End pipeline_facts.

(** X6.  A run of the tracker's tail throws only what the extraction
    rejects with: a video that fails to load, a missing 2D context, a
    non-finite seek time or the timeout of one of the requested frames.  A
    failure of the video assembly is never thrown: the run still reports
    its frames, with the first rendered frame as an image.  The frames kept
    are never empty and never outnumber the packets of the response. *)
Theorem trackingResult_failures
    (scaleNearest : nat -> nat -> Canvas.Raster -> Canvas.Raster)
    (w : Pipeline.world) (frames : list Tracker.FramePacket) :
  match Pipeline.trackingResult scaleNearest w frames with
  | Pipeline.Thrown e =>
      Pipeline.extractionError (Tracker.sortedIndices frames) e
  | Pipeline.Tracked result =>
      Pipeline.trackedFrames result = length frames /\
      (0 < length (Pipeline.trackingFrames result) <= length frames)%nat /\
      match Pipeline.processedMedia result with
      | Pipeline.VideoMedia video =>
          Pipeline.creationFailed result = false /\
          Assembler.createVideoFromFrames (Pipeline.assembly w)
            (Some (Pipeline.trackingFrames result))
            (Rates.originalFPS
               (Rates.videoMetadata (Pipeline.metadata w)
                  (Tracker.sortedIndices frames)))
          = Resolved video
      | Pipeline.ImageMedia image =>
          Pipeline.creationFailed result = true /\
          head (Pipeline.trackingFrames result) = Some image
      end
  | Pipeline.NoFramesRendered => frames <> []
  | Pipeline.NoObjectsTracked => frames = []
  end.
Proof.
  unfold Pipeline.trackingResult.
  destruct frames as [| first rest]; [done |].
  set (frames := first :: rest).
  destruct (Extractor.extractVideoFrames _ _ _ _) as [originalFrames | e] eqn:E.
  2: { by eapply extractVideoFrames_error. }
  pose proof (renderedFrames_length scaleNearest (Pipeline.renderContext2d w)
                frames (Tracker.sortedIndices frames) originalFrames) as Hlen.
  destruct (Tracker.renderedFrames _ _ _ _ _) as [| firstRendered others] eqn:R;
    [done |].
  destruct (Assembler.createVideoFromFrames _ _ _) as [videoUrl | e] eqn:A;
    cbn [Pipeline.trackedFrames Pipeline.trackingFrames Pipeline.processedMedia
         Pipeline.creationFailed].
  - split; [done |]. split; [simpl in *; lia |]. done.
  - split; [done |]. split; [simpl in *; lia |]. done.
Qed.

Section rate_zero_facts.

Import JS Canvas Tracker Pipeline.

Variable scaleNearest : nat -> nat -> Raster -> Raster.

(** At a sampling rate of 0 every time is [0/0] or an infinity: nothing is
    ever captured, and the first index that is not skipped throws. *)
Lemma extractLoop_rate_zero video pf (frameIndices : list Z) :
  forall frames,
    Extractor.extractLoop video pf (of_Z 0) frameIndices frames = Resolved frames
    \/ Extractor.extractLoop video pf (of_Z 0) frameIndices frames
       = Rejected NonFiniteCurrentTime.
Proof.
  induction frameIndices as [| k rest IH]; intros frames; [by left |].
  cbn [Extractor.extractLoop].
  assert (Htime : div (of_Z k) (of_Z 0) = NaN \/ div (of_Z k) (of_Z 0) = PosInf
                  \/ div (of_Z k) (of_Z 0) = NegInf).
  { unfold div, of_Z. change (inject_Z 0 ?= 0)%Q with Eq.
    destruct (inject_Z k ?= 0)%Q; auto. }
  destruct Htime as [-> | [-> | ->]];
    destruct (Extractor.duration video); cbn [gtb ltb isFinite negb];
    solve [by right | apply IH].
Qed.

Lemma pairing_nil (frames : list FramePacket) (frameIndices : list Z) :
  pairing frames frameIndices [] = [].
Proof.
  unfold pairing. induction frames as [| frameData rest IH]; [done |].
  cbn [omap list_omap]. cbn [omap] in IH. rewrite IH.
  unfold originalFrameFor. cbn [length].
  destruct (Z.eqb_spec (indexOf frameIndices (frame_idx frameData)) (-1));
    [done |].
  destruct (Z.leb_spec (Z.of_nat 0) (indexOf frameIndices (frame_idx frameData)));
    [done |].
  unfold arrayGet. destruct (Z.leb_spec 0 (indexOf frameIndices (frame_idx frameData)));
    [lia | done].
Qed.

Lemma Qfloor_unit (y : Q) : (0 <= y)%Q -> (y < 1)%Q -> Qfloor y = 0.
Proof.
  intros H0 H1.
  pose proof (Qfloor_le y) as Hlo. pose proof (Qlt_floor y) as Hhi.
  assert (inject_Z (Qfloor y) < inject_Z 1)%Q as Ha
    by (change (inject_Z 1) with 1%Q; lra).
  assert (inject_Z (-1) < inject_Z (Qfloor y))%Q as Hb.
  { rewrite inject_Z_plus in Hhi. change (inject_Z 1) with 1%Q in Hhi.
    change (inject_Z (-1)) with (-1 # 1)%Q. lra. }
  rewrite <- Zlt_Qlt in Ha, Hb. lia.
Qed.

(** The rate is 0 for an infinite duration and for a duration beyond
    [2 (m + 1)] seconds. *)
Lemma sampledRate_zero (duration : number) (frameIndices : list Z) (m : Z) :
  Rates.maxIdx frameIndices = Some m -> 0 < m ->
  (duration = PosInf \/
   exists d, duration = Fin d /\ (inject_Z (2 * (m + 1)) < d)%Q) ->
  Rates.sampledRate duration frameIndices = of_Z 0.
Proof.
  intros Hm Hpos [-> | (d & -> & Hd)].
  - rewrite sampledRate_eq, Hm.
    change (gtb PosInf (of_Z 0)) with true.
    by destruct (Z.ltb_spec 0 m); [| lia].
  - assert (0 < inject_Z (m + 1))%Q as Hm1.
    { change 0%Q with (inject_Z 0). rewrite <- Zlt_Qlt. lia. }
    rewrite inject_Z_mult in Hd. change (inject_Z 2) with 2%Q in Hd.
    assert (0 < d)%Q as Hdpos by lra.
    rewrite (sampledRate_finite d _ m) by done. f_equal.
    set (x := (inject_Z (m + 1) / d)%Q).
    assert (Hx : (x * d == inject_Z (m + 1))%Q) by (unfold x; field; lra).
    assert (0 < x)%Q.
    { unfold x. apply Qlt_shift_div_l; [done |]. by rewrite Qmult_0_l. }
    assert (x < 1 # 2)%Q by nra.
    apply Qfloor_unit; lra.
Qed.

End rate_zero_facts.

(** X7.  When the largest frame index [m] is positive and the duration the
    metadata reports is infinite or longer than [2 (m + 1)] seconds, the
    sampled rate is 0 and the run never yields any media: it ends with "No
    frames rendered." or it throws, with a non-finite seek time unless the
    video or the 2D context was unavailable. *)
Theorem trackingResult_long_video
    (scaleNearest : nat -> nat -> Canvas.Raster -> Canvas.Raster)
    (w : Pipeline.world) (frames : list Tracker.FramePacket)
    (duration : JS.number) (m : Z) :
  Pipeline.metadata w = Rates.loadedmetadata duration ->
  Rates.maxIdx (Tracker.sortedIndices frames) = Some m -> 0 < m ->
  (duration = JS.PosInf \/
   exists d, duration = JS.Fin d /\ (inject_Z (2 * (m + 1)) < d)%Q) ->
  Rates.sam3FPS
    (Rates.videoMetadata (Pipeline.metadata w) (Tracker.sortedIndices frames))
  = JS.of_Z 0 /\
  match Pipeline.trackingResult scaleNearest w frames with
  | Pipeline.NoFramesRendered => True
  | Pipeline.Thrown e =>
      e = NonFiniteCurrentTime \/ e = FailedToLoadVideo \/
      e = FailedToGetCanvasContext
  | _ => False
  end.
Proof.
  intros Hmeta Hm Hpos Hdur.
  assert (Hrate : Rates.sam3FPS
            (Rates.videoMetadata (Pipeline.metadata w)
               (Tracker.sortedIndices frames)) = JS.of_Z 0).
  { rewrite Hmeta. cbn [Rates.videoMetadata Rates.onloadedmetadata Rates.sam3FPS].
    by eapply sampledRate_zero. }
  split; [done |].
  unfold Pipeline.trackingResult.
  destruct frames as [| first rest]; [by vm_compute in Hm |].
  rewrite Hrate. unfold Extractor.extractVideoFrames.
  destruct (Extractor.loads _); cbn [negb]; [| auto].
  destruct (Extractor.context2d _); cbn [negb]; [| auto].
  destruct (extractLoop_rate_zero (Pipeline.video w) (Pipeline.extraction w)
              (Tracker.sortedIndices (first :: rest)) []) as [-> | ->]; [| auto].
  unfold Tracker.renderedFrames. by rewrite pairing_nil.
Qed.

(** Three packets with indices up to 10 on a video that reports an infinite
    duration. *)
Lemma trackingResult_long_video_witness :
  Pipeline.trackingResult (fun _ _ r => r)
    (Pipeline.mkWorld (Rates.loadedmetadata JS.PosInf) Scenario.clip
       Scenario.lostBlob true
       (Assembler.mkPlatform true (fun _ => true) false))
    [Scenario.packet 0; Scenario.packet 5; Scenario.packet 10]
  = Pipeline.Thrown NonFiniteCurrentTime.
Proof.
  pose proof (trackingResult_long_video (fun _ _ r => r)
    (Pipeline.mkWorld (Rates.loadedmetadata JS.PosInf) Scenario.clip
       Scenario.lostBlob true
       (Assembler.mkPlatform true (fun _ => true) false))
    [Scenario.packet 0; Scenario.packet 5; Scenario.packet 10]
    JS.PosInf 10 eq_refl eq_refl ltac:(lia) ltac:(by left)) as [_ H].
  destruct (Pipeline.trackingResult _ _ _) as [| | r | e] eqn:E; done.
Defined.

Section short_video_facts.

Import JS.

Lemma maxIdx_le (frameIndices : list Z) (m k : Z) :
  Rates.maxIdx frameIndices = Some m -> k ∈ frameIndices -> k <= m.
Proof.
  revert m. induction frameIndices as [| x rest IH]; intros m Hm Hk;
    [by apply elem_of_nil in Hk |].
  cbn [Rates.maxIdx] in Hm. injection Hm as <-.
  apply elem_of_cons in Hk as [-> | Hk].
  - destruct (Rates.maxIdx rest); lia.
  - destruct (Rates.maxIdx rest) as [y |] eqn:E.
    + specialize (IH y eq_refl Hk). lia.
    + destruct rest; [by apply elem_of_nil in Hk | done].
Qed.

End short_video_facts.

(** X8.  For a video of at most two seconds whose largest frame index is
    positive, the sampled rate is at least 1 and no requested index is
    skipped for lying past the duration: each index's time, at the sampled
    rate, is within the video.  Beyond two seconds the rounding of the rate
    can push the last frames out: at 5 s with a largest index of 51 the
    rate is 10 and frame 51 is skipped. *)
Theorem short_video_all_attempted (d : Q) (picture : JS.number -> Canvas.Raster)
    (frameIndices : list Z) (m : Z) :
  Rates.maxIdx frameIndices = Some m -> 0 < m ->
  (0 < d)%Q -> (d <= 2)%Q ->
  (exists n : Z,
      1 <= n /\ Rates.sampledRate (JS.Fin d) frameIndices = JS.of_Z n /\
      forall frameIdx, frameIdx ∈ frameIndices ->
        Extractor.attempted (Extractor.mkVideo (JS.Fin d) picture)
          (Rates.sampledRate (JS.Fin d) frameIndices) frameIdx) /\
  Rates.sampledRate (JS.of_Z 5) [0; 51] = JS.of_Z 10 /\
  ~ Extractor.attempted (Extractor.mkVideo (JS.of_Z 5) picture)
      (Rates.sampledRate (JS.of_Z 5) [0; 51]) 51.
Proof.
  intros Hm Hpos Hd0 Hd2. split; [| split; [reflexivity | by vm_compute]].
  rewrite (sampledRate_finite d _ m) by done.
  set (x := (inject_Z (m + 1) / d)%Q).
  set (n := Qfloor (x + (1 # 2))).
  destruct (round_bracket x) as [Hlo Hhi]. fold n in Hlo, Hhi.
  assert (Hx : (x * d == inject_Z (m + 1))%Q) by (unfold x; field; lra).
  assert (Hm1 : (2 <= inject_Z (m + 1))%Q).
  { change 2%Q with (inject_Z 2). rewrite <- Zle_Qle. lia. }
  assert (Hx1 : (1 <= x)%Q) by nra.
  assert (Hn : 1 <= n).
  { exact (Qfloor_resp_le 1 (x + (1 # 2)) ltac:(lra)). }
  exists n. split; [done |]. split; [done |].
  intros k Hk. pose proof (maxIdx_le _ _ _ Hm Hk) as Hkm.
  unfold Extractor.attempted. cbn [Extractor.duration].
  assert (Hnq : (1 <= inject_Z n)%Q).
  { change 1%Q with (inject_Z 1). by rewrite <- Zle_Qle. }
  unfold JS.of_Z. rewrite div_Fin_pos by lra.
  unfold JS.gtb, JS.ltb. apply negb_false_iff, Qle_bool_iff.
  apply Qle_shift_div_r; [lra |].
  assert (inject_Z k <= inject_Z m)%Q as Hkq by (by rewrite <- Zle_Qle).
  rewrite inject_Z_plus in Hx. change (inject_Z 1) with 1%Q in Hx.
  nra.
Qed.

(** The scenario of the specification: indices 0, 5 and 10 over one
    second. *)
Lemma short_video_all_attempted_witness :
  Extractor.attempted (Extractor.mkVideo (JS.Fin 1) (Extractor.picture Scenario.clip))
    (Rates.sampledRate (JS.Fin 1) [0; 5; 10]) 10.
Proof.
  destruct (short_video_all_attempted 1 (Extractor.picture Scenario.clip)
              [0; 5; 10] 10 eq_refl ltac:(lia) ltac:(lra) ltac:(lra))
    as [(n & _ & _ & H) _].
  apply H. apply list_elem_of_lookup. by exists 2%nat.
Defined.

Section complete_run_facts.

Import JS Canvas Tracker Pipeline.

Variable scaleNearest : nat -> nat -> Raster -> Raster.

Lemma spec_extract_all video pf fps (frameIndices : list Z) :
  (forall k, k ∈ frameIndices -> Extractor.succeeds video pf fps k = true) ->
  (Extractor.spec_extract video pf fps frameIndices).*2
  = (fun k => Extractor.picture video (div (of_Z k) fps)) <$> frameIndices.
Proof.
  unfold Extractor.spec_extract.
  induction frameIndices as [| k rest IH]; intros Hall; [done |].
  cbn [List.filter]. rewrite Hall by (by left).
  cbn [map fmap list_fmap snd]. f_equal.
  apply IH. intros k' Hk'. apply Hall. by right.
Qed.

Lemma renderPacket_single (frameData : FramePacket) (frame : Raster) :
  exists rendered, renderPacket scaleNearest true frameData frame = [rendered].
Proof.
  unfold renderPacket, copyFrame.
  destruct (0 <? _)%nat; [| by eexists].
  destruct (Overlay.renderMasksOnFrame _ _ _ _ _ _); by eexists.
Qed.

Lemma flat_map_single_length {A B : Type} (f : A -> list B) (xs : list A) :
  (forall x, exists y, f x = [y]) -> length (flat_map f xs) = length xs.
Proof.
  intros Hf. induction xs as [| x rest IH]; [done |].
  cbn [flat_map]. destruct (Hf x) as [y ->]. simpl. by rewrite IH.
Qed.

Lemma flat_map_pairs {A B C : Type} (g : A -> B) (f : A -> B -> list C)
    (xs : list A) :
  flat_map (fun '(x, y) => f x y) (map (fun x => (x, g x)) xs)
  = flat_map (fun x => f x (g x)) xs.
Proof. induction xs as [| x rest IH]; [done |]. simpl. by rewrite IH. Qed.

Lemma filter_all {A : Type} (p : A -> bool) (xs : list A) :
  (forall x, p x = true) -> List.filter p xs = xs.
Proof.
  intros Hp. induction xs as [| x rest IH]; [done |].
  cbn [List.filter]. by rewrite Hp, IH.
Qed.

End complete_run_facts.

(** X9.  When everything the platform contributes goes well (the rate is
    positive, every requested index lies within the video, seeks and
    captures succeed, 2D contexts exist, images load and the recorder
    reports no error), the run yields a video at the estimated source rate
    that shows exactly one rendered frame per packet, in the order of the
    response, each packet rendered on the picture of its own frame index. *)
Theorem trackingResult_complete
    (scaleNearest : nat -> nat -> Canvas.Raster -> Canvas.Raster)
    (w : Pipeline.world) (frames : list Tracker.FramePacket) (r : Q) :
  frames <> [] ->
  Rates.sam3FPS
    (Rates.videoMetadata (Pipeline.metadata w) (Tracker.sortedIndices frames))
  = JS.Fin r ->
  (0 < r)%Q ->
  Extractor.loads (Pipeline.extraction w) = true ->
  Extractor.context2d (Pipeline.extraction w) = true ->
  (forall k, k ∈ Tracker.sortedIndices frames ->
     Extractor.attempted (Pipeline.video w) (JS.Fin r) k /\
     Extractor.awaitSeek (Pipeline.extraction w) k = Extractor.Seeked /\
     Extractor.capture (Pipeline.extraction w) k = Extractor.BitmapCreated) ->
  Pipeline.renderContext2d w = true ->
  Assembler.context2d (Pipeline.assembly w) = true ->
  (forall f, Assembler.imageLoads (Pipeline.assembly w) f = true) ->
  Assembler.recorderError (Pipeline.assembly w) = false ->
  exists result,
    Pipeline.trackingResult scaleNearest w frames = Pipeline.Tracked result /\
    Pipeline.trackingFrames result
    = flat_map
        (fun frameData =>
           Tracker.renderPacket scaleNearest true frameData
             (Extractor.picture (Pipeline.video w)
                (JS.div (JS.of_Z (Tracker.frame_idx frameData)) (JS.Fin r))))
        frames /\
    length (Pipeline.trackingFrames result) = length frames /\
    Pipeline.trackedFrames result = length frames /\
    Pipeline.creationFailed result = false /\
    Pipeline.processedMedia result
    = Pipeline.VideoMedia
        (Assembler.mkVideo (Pipeline.trackingFrames result)
           (Rates.originalFPS
              (Rates.videoMetadata (Pipeline.metadata w)
                 (Tracker.sortedIndices frames)))).
Proof.
  intros Hne Hrate Hr Hl Hc Hall Hctx Hactx Hload Hrec.
  unfold Pipeline.trackingResult.
  destruct frames as [| first rest]; [done |].
  set (frames := first :: rest) in *.
  rewrite Hrate. unfold Extractor.extractVideoFrames. rewrite Hl, Hc.
  cbn [negb].
  rewrite extractLoop_resolves.
  2: { intros k Hk _. split; [by apply time_finite | by apply Hall]. }
  cbn [app]. rewrite spec_extract_all.
  2: { intros k Hk. destruct (Hall k Hk) as (Hatt & Hseek & Hcap).
       unfold Extractor.succeeds. unfold Extractor.attempted in Hatt.
       by rewrite Hatt, time_finite, Hseek, Hcap. }
  unfold Tracker.renderedFrames. rewrite Hctx, pairing_aligned, flat_map_pairs.
  set (rendered := flat_map _ frames).
  assert (Hlen : length rendered = length frames).
  { apply flat_map_single_length. intros p. apply renderPacket_single. }
  destruct rendered as [| firstRendered others] eqn:R; [done |].
  unfold Assembler.createVideoFromFrames.
  rewrite Hactx, Hload, Hrec. cbn [negb].
  rewrite filter_all by done.
  eexists. split; [reflexivity |].
  cbn [Pipeline.trackingFrames Pipeline.trackedFrames Pipeline.creationFailed
       Pipeline.processedMedia].
  by repeat split.
Qed.

(** The three packets of the scenario on the ten-second clip, sampled at
    30 frames per second, with every seek and capture succeeding. *)
Lemma trackingResult_complete_witness :
  exists result,
    Pipeline.trackingResult (fun _ _ r => r)
      (Pipeline.mkWorld Rates.metadataError Scenario.clip
         (Extractor.mkPlatform true true (fun _ => Some 40)
            (fun _ => Extractor.BitmapCreated))
         true (Assembler.mkPlatform true (fun _ => true) false))
      Scenario.packets
    = Pipeline.Tracked result /\
    Pipeline.trackingFrames result
    = [Scenario.pictureOf 0; Scenario.pictureOf 1; Scenario.pictureOf 2].
Proof.
  destruct (trackingResult_complete (fun _ _ r => r)
      (Pipeline.mkWorld Rates.metadataError Scenario.clip
         (Extractor.mkPlatform true true (fun _ => Some 40)
            (fun _ => Extractor.BitmapCreated))
         true (Assembler.mkPlatform true (fun _ => true) false))
      Scenario.packets 30) as (result & Hres & Hframes & _); try done.
  - intros k Hk. repeat split.
    change (Tracker.sortedIndices Scenario.packets) with [0; 1; 2] in Hk.
    apply list_elem_of_In in Hk. simpl in Hk.
    by destruct Hk as [<- | [<- | [<- | []]]].
  - exists result. split; [exact Hres |]. rewrite Hframes. reflexivity.
Defined.

Section image_api_facts.

Import JS ImageApi.

Lemma round_between (x : Q) (lo hi : Z) :
  (inject_Z lo <= x)%Q -> (x <= inject_Z hi)%Q ->
  lo <= Qfloor (x + (1 # 2)) <= hi.
Proof.
  intros Hlo Hhi. pose proof (round_bracket x) as [Hb1 Hb2].
  split.
  - apply Z.lt_pred_le. rewrite Zlt_Qlt. unfold Z.pred.
    rewrite inject_Z_plus. change (inject_Z (-1)) with (-1)%Q. lra.
  - apply Z.lt_succ_r. rewrite Zlt_Qlt. unfold Z.succ.
    rewrite inject_Z_plus. change (inject_Z 1) with 1%Q. lra.
Qed.

Lemma round_of_Z (z : Z) : Math_round (of_Z z) = of_Z z.
Proof.
  unfold Math_round, of_Z. do 2 f_equal.
  cut (z <= Qfloor (inject_Z z + (1 # 2)) <= z); [lia |].
  apply round_between; lra.
Qed.

Lemma inject_nat_nonneg (n : nat) : (0 <= inject_Z (Z.of_nat n))%Q.
Proof. change 0%Q with (inject_Z 0). rewrite <- Zle_Qle. lia. Qed.

(** The ratio of the first stage scales both sides into [0, 800]. *)
Lemma ratio_fits (nw nh : nat) :
  (800 < nw \/ 800 < nh)%nat ->
  exists r : Q,
    Math_min (div MAX_DIM (of_nat nw)) (div MAX_DIM (of_nat nh)) = Fin r /\
    (0 <= inject_Z (Z.of_nat nw) * r <= 800)%Q /\
    (0 <= inject_Z (Z.of_nat nh) * r <= 800)%Q.
Proof.
  intros Hbig. unfold MAX_DIM, of_nat, of_Z.
  pose proof (inject_nat_nonneg nw) as Hw.
  pose proof (inject_nat_nonneg nh) as Hh.
  assert (Hpos : forall n : nat, (0 < n)%nat -> (0 < inject_Z (Z.of_nat n))%Q).
  { intros n Hn. change 0%Q with (inject_Z 0). rewrite <- Zlt_Qlt. lia. }
  assert (Hzero : div (Fin (inject_Z 800)) (Fin (inject_Z (Z.of_nat 0))) = PosInf)
    by reflexivity.
  assert (Hscale : forall n : nat, (0 < n)%nat ->
            (inject_Z (Z.of_nat n) * (inject_Z 800 / inject_Z (Z.of_nat n))
             == 800)%Q).
  { intros n Hn. specialize (Hpos n Hn).
    change (inject_Z 800) with 800%Q. field. lra. }
  destruct nw as [| nw'], nh as [| nh']; [lia | | |].
  - rewrite Hzero, (div_Fin_pos _ _ (Hpos (S nh') ltac:(lia))).
    eexists. split; [reflexivity |].
    rewrite (Hscale (S nh')) by lia.
    change (inject_Z (Z.of_nat 0)) with 0%Q. lra.
  - rewrite Hzero, (div_Fin_pos _ _ (Hpos (S nw') ltac:(lia))).
    eexists. split; [reflexivity |].
    rewrite (Hscale (S nw')) by lia.
    change (inject_Z (Z.of_nat 0)) with 0%Q. lra.
  - set (w := S nw') in *. set (h := S nh') in *.
    pose proof (Hpos w ltac:(lia)) as Hw'. pose proof (Hpos h ltac:(lia)) as Hh'.
    rewrite (div_Fin_pos _ _ Hw'), (div_Fin_pos _ _ Hh'), Math_min_Fin.
    eexists. split; [reflexivity |].
    pose proof (Hscale w ltac:(lia)) as Sw.
    pose proof (Hscale h ltac:(lia)) as Sh.
    assert (Rw : (0 < inject_Z 800 / inject_Z (Z.of_nat w))%Q).
    { apply Qlt_shift_div_l; [done |]. change (inject_Z 800) with 800%Q. lra. }
    assert (Rh : (0 < inject_Z 800 / inject_Z (Z.of_nat h))%Q).
    { apply Qlt_shift_div_l; [done |]. change (inject_Z 800) with 800%Q. lra. }
    destruct (Qle_bool _ _) eqn:E.
    + apply Qle_bool_iff in E. nra.
    + apply Qle_bool_false in E. nra.
Qed.

(** The first stage leaves both sides integers within [0, 800]. *)
Lemma fitted_sides (nw nh : nat) :
  exists a b : Z,
    0 <= a <= 800 /\ 0 <= b <= 800 /\
    (if gtb (of_nat nw) MAX_DIM || gtb (of_nat nh) MAX_DIM then
       let ratio :=
         Math_min (div MAX_DIM (of_nat nw)) (div MAX_DIM (of_nat nh)) in
       (Math_round (mul (of_nat nw) ratio), Math_round (mul (of_nat nh) ratio))
     else (of_nat nw, of_nat nh)) = (of_Z a, of_Z b) /\
    ((nw <= 800)%nat -> (nh <= 800)%nat ->
     a = Z.of_nat nw /\ b = Z.of_nat nh).
Proof.
  unfold gtb, MAX_DIM, of_nat. rewrite !ltb_of_Z.
  destruct ((800 <? Z.of_nat nw) || (800 <? Z.of_nat nh)) eqn:E.
  - destruct (ratio_fits nw nh) as (r & Hr & Hw & Hh); [lia |].
    unfold MAX_DIM, of_nat in Hr. rewrite Hr.
    unfold of_Z at 1 3. cbn [mul Math_round].
    eexists _, _.
    split; [| split; [| split; [reflexivity | lia]]];
      apply round_between; change (inject_Z 0) with 0%Q;
      change (inject_Z 800) with 800%Q; lra.
  - exists (Z.of_nat nw), (Z.of_nat nh).
    split; [lia | split; [lia | split; [reflexivity | done]]].
Qed.

(** The second and third stages put a side within [0, 800] on the grid. *)
Lemma grid_side (z : Z) :
  0 <= z <= 800 ->
  exists k : Z,
    1 <= k <= 25 /\
    Math_max (of_Z 32) (mul (Math_round (div (of_Z z) (of_Z 32))) (of_Z 32))
    = of_Z (32 * k) /\
    (16 <= z -> -16 <= 32 * k - z <= 16) /\
    (forall j, z = 32 * j -> 1 <= j -> k = j).
Proof.
  intros Hz.
  change (div (of_Z z) (of_Z 32))
    with (div (Fin (inject_Z z)) (Fin (inject_Z 32))).
  rewrite div_Fin_pos by (by vm_compute).
  cbn [Math_round]. rewrite mul_of_Z, Math_max_of_Z.
  set (q := (inject_Z z / inject_Z 32)%Q).
  assert (Hq : (inject_Z z == 32 * q)%Q).
  { unfold q. change (inject_Z 32) with 32%Q. field. }
  pose proof (round_bracket q) as [Hb1 Hb2].
  set (n := Qfloor (q + (1 # 2))) in *.
  assert (H0 : (inject_Z 0 <= inject_Z z <= inject_Z 800)%Q)
    by (rewrite <- !Zle_Qle; lia).
  change (inject_Z 0) with 0%Q in H0. change (inject_Z 800) with 800%Q in H0.
  assert (Hn : 0 <= n <= 25).
  { apply round_between; change (inject_Z 0) with 0%Q;
      change (inject_Z 25) with 25%Q; lra. }
  assert (Hlo : 32 * n - 16 <= z).
  { rewrite Zle_Qle. unfold Z.sub.
    rewrite inject_Z_plus, inject_Z_mult, inject_Z_opp.
    change (inject_Z 32) with 32%Q. change (inject_Z 16) with 16%Q. lra. }
  assert (Hhi : z < 32 * n + 16).
  { rewrite Zlt_Qlt. rewrite inject_Z_plus, inject_Z_mult.
    change (inject_Z 32) with 32%Q. change (inject_Z 16) with 16%Q. lra. }
  exists (Z.max 1 n).
  split; [lia | split; [f_equal; lia | split; [lia | intros j Hj Hj1; lia]]].
Qed.

(** Both sides of the canvas are on the grid of 32 up to 800; sides that
    fit and are at least 16 move by at most 16; sides already on the grid
    stay. *)
Lemma canvasSize_grid (w h : nat) :
  exists a b : Z,
    1 <= a <= 25 /\ 1 <= b <= 25 /\
    canvasSize (of_nat w) (of_nat h) = (of_Z (32 * a), of_Z (32 * b)) /\
    ((16 <= w <= 800)%nat -> (16 <= h <= 800)%nat ->
     -16 <= 32 * a - Z.of_nat w <= 16 /\
     -16 <= 32 * b - Z.of_nat h <= 16) /\
    (forall i j, Z.of_nat w = 32 * i -> Z.of_nat h = 32 * j ->
                 1 <= i <= 25 -> 1 <= j <= 25 -> a = i /\ b = j).
Proof.
  unfold canvasSize.
  destruct (fitted_sides w h) as (a0 & b0 & Ha0 & Hb0 & Hfit & Hsame).
  cbv zeta in Hfit |- *. rewrite Hfit.
  destruct (grid_side a0 Ha0) as (a & Ha & -> & Hda & Hia).
  destruct (grid_side b0 Hb0) as (b & Hb & -> & Hdb & Hib).
  exists a, b.
  split; [exact Ha | split; [exact Hb | split; [reflexivity | split]]].
  - intros Hw Hh. destruct Hsame as [-> ->]; lia.
  - intros i j Hi Hj Hri Hrj. destruct Hsame as [-> ->]; [lia | lia |].
    split; [apply Hia | apply Hib]; lia.
Qed.

(** What [processImageForApi] resolves with has the size of the canvas. *)
Lemma processImageForApi_size (pf : platform) (p : processed) :
  processImageForApi pf = inr p ->
  exists nw nh : nat,
    natural pf = Some (nw, nh) /\
    (width p, height p) = canvasSize (of_nat nw) (of_nat nh).
Proof.
  unfold processImageForApi.
  destruct (natural pf) as [[nw nh] |]; [| done].
  destruct (canvasSize (of_nat nw) (of_nat nh)) as [w h] eqn:E.
  destruct (context2d pf); [| done]. cbn [negb].
  destruct (blob pf); [| done].
  intros [= <-]. by exists nw, nh.
Qed.

End image_api_facts.

(** X10.  Whenever [processImageForApi] resolves, both sides of the image
    it sends are multiples of 32 between 32 and 800; the same computation
    applied to that size returns it unchanged; and for an image that fits
    800 pixels and has sides of at least 16, each side moves by at most 16
    pixels (so the two scale factors differ in general). *)
Theorem processImageForApi_grid
    (pf : ImageApi.platform) (nw nh : nat) (p : ImageApi.processed) :
  ImageApi.natural pf = Some (nw, nh) ->
  ImageApi.processImageForApi pf = inr p ->
  exists a b : Z,
    1 <= a <= 25 /\ 1 <= b <= 25 /\
    ImageApi.width p = JS.of_Z (32 * a) /\
    ImageApi.height p = JS.of_Z (32 * b) /\
    ImageApi.canvasSize (ImageApi.width p) (ImageApi.height p)
    = (ImageApi.width p, ImageApi.height p) /\
    ((16 <= nw <= 800)%nat -> (16 <= nh <= 800)%nat ->
     -16 <= 32 * a - Z.of_nat nw <= 16 /\ -16 <= 32 * b - Z.of_nat nh <= 16).
Proof.
  intros Hnat Hres.
  destruct (processImageForApi_size pf p Hres) as (nw' & nh' & Hnat' & Hsz).
  rewrite Hnat in Hnat'. injection Hnat' as <- <-.
  destruct (canvasSize_grid nw nh) as (a & b & Ha & Hb & Hcs & Hnear & _).
  rewrite Hcs in Hsz. injection Hsz as -> ->.
  exists a, b.
  split; [exact Ha | split; [exact Hb |]].
  split; [reflexivity | split; [reflexivity | split; [| exact Hnear]]].
  destruct (canvasSize_grid (Z.to_nat (32 * a)) (Z.to_nat (32 * b)))
    as (a' & b' & _ & _ & Hcs' & _ & Hfix).
  unfold JS.of_nat in Hcs'. rewrite !Z2Nat.id in Hcs' by lia.
  destruct (Hfix a b) as [-> ->]; [lia | lia | lia | lia |]. exact Hcs'.
Qed.

(** A 1920 by 1080 photograph is sent at 800 by 448: the factors are
    5/12 and 56/135. *)
Lemma processImageForApi_grid_witness :
  exists p,
    ImageApi.processImageForApi
      (ImageApi.mkPlatform (Some (1920, 1080)%nat) true true) = inr p /\
    ImageApi.width p = JS.of_Z 800 /\ ImageApi.height p = JS.of_Z 448 /\
    ImageApi.canvasSize (ImageApi.width p) (ImageApi.height p)
    = (ImageApi.width p, ImageApi.height p).
Proof.
  eexists. split; [vm_compute; reflexivity |].
  destruct (processImageForApi_grid
              (ImageApi.mkPlatform (Some (1920, 1080)%nat) true true)
              1920 1080 _ eq_refl ltac:(vm_compute; reflexivity))
    as (a & b & _ & _ & _ & _ & Hfix & _).
  split_and!; [reflexivity | reflexivity | exact Hfix].
Defined.


Section viewer_facts.

Import JS Types Viewer.

Lemma clamp_pixel (n : nat) (v : Q) :
  exists i : Z,
    Math_max (of_Z 0)
      (Math_min (sub (of_nat n) (of_Z 1)) (Math_round (Fin v))) = of_Z i /\
    0 <= i /\ ((0 < n)%nat -> i <= Z.of_nat n - 1) /\
    ((v < 0)%Q -> i = 0) /\
    ((inject_Z (Z.of_nat n) - 1 <= v)%Q -> (0 < n)%nat -> i = Z.of_nat n - 1).
Proof.
  unfold of_nat. rewrite sub_of_Z. cbn [Math_round].
  rewrite Math_min_of_Z, Math_max_of_Z.
  pose proof (round_bracket v) as [Hb1 Hb2].
  set (r := Qfloor (v + (1 # 2))) in *.
  eexists. split; [reflexivity |].
  split; [lia |]. split; [lia |]. split.
  - intros Hv. assert (r <= 0); [| lia].
    apply Z.lt_succ_r. rewrite Zlt_Qlt. change (inject_Z (Z.succ 0)) with 1%Q.
    lra.
  - intros Hv Hn. assert (Z.of_nat n - 1 <= r); [| lia].
    apply Z.lt_pred_le. rewrite Zlt_Qlt. unfold Z.pred, Z.sub.
    rewrite !inject_Z_plus, inject_Z_opp. change (inject_Z 1) with 1%Q.
    change (inject_Z (-1)) with (-1)%Q. lra.
Qed.

Lemma getCoordinates_clamped (e : MouseEvent) (r : DOMRect) (nw nh : nat) :
  laidOut r = true -> atFinitePosition e = true ->
  exists i j : Z,
    naturalX (getCoordinates e r (of_nat nw) (of_nat nh)) = of_Z i /\
    naturalY (getCoordinates e r (of_nat nw) (of_nat nh)) = of_Z j /\
    0 <= i /\ 0 <= j /\
    ((0 < nw)%nat -> i <= Z.of_nat nw - 1) /\
    ((0 < nh)%nat -> j <= Z.of_nat nh - 1).
Proof.
  unfold laidOut, atFinitePosition. intros Hr He.
  destruct r as [l t w h], e as [cx cy b]. cbn [left top width height] in Hr.
  cbn [clientX clientY] in He.
  destruct l as [| | | l], t as [| | | t], w as [| | | w], h as [| | | h];
    try discriminate Hr.
  destruct cx as [| | | cx], cy as [| | | cy]; try discriminate He.
  cbn [isFinite andb] in Hr. rewrite !gtb_Fin_0 in Hr.
  apply andb_prop in Hr as [Hw Hh].
  apply negb_true_iff, Qle_bool_false in Hw, Hh.
  unfold getCoordinates.
  cbn [naturalX naturalY left top width height clientX clientY].
  change (div (of_nat nw) (Fin w))
    with (div (Fin (inject_Z (Z.of_nat nw))) (Fin w)).
  change (div (of_nat nh) (Fin h))
    with (div (Fin (inject_Z (Z.of_nat nh))) (Fin h)).
  rewrite !div_Fin_pos by done.
  change (sub (Fin cx) (Fin l)) with (Fin (cx + - l)).
  change (sub (Fin cy) (Fin t)) with (Fin (cy + - t)).
  cbn [mul].
  destruct (clamp_pixel nw ((cx + - l) * (inject_Z (Z.of_nat nw) / w)))
    as (i & -> & Hi0 & Hi1 & _).
  destruct (clamp_pixel nh ((cy + - t) * (inject_Z (Z.of_nat nh) / h)))
    as (j & -> & Hj0 & Hj1 & _).
  by exists i, j.
Qed.

End viewer_facts.

Section gesture_facts.

Import JS Types Viewer.

Variable p : props.
Variable el : element.
Hypothesis Htarget :
  target p = (Some el, of_nat (pixelWidth el), of_nat (pixelHeight el)).
Hypothesis Hlaid : laidOut (rect el) = true.

Lemma gtb_of_nat_0 (n : nat) : gtb (of_nat n) (of_Z 0) = true -> (0 < n)%nat.
Proof. unfold gtb, of_nat. rewrite ltb_of_Z. lia. Qed.

Lemma Math_abs_of_Z (d : Z) : 0 <= d -> Math_abs (of_Z d) = of_Z d.
Proof.
  intros Hd. unfold Math_abs, of_Z.
  change 0%Q with (inject_Z 0). rewrite Qle_bool_inject.
  by rewrite (proj2 (Z.leb_le 0 d) Hd).
Qed.

Lemma coordinates_within (e : MouseEvent) :
  atFinitePosition e = true ->
  (0 < pixelWidth el)%nat -> (0 < pixelHeight el)%nat ->
  pointWithin (pixelWidth el) (pixelHeight el)
    (naturalX (getCoordinates e (rect el) (of_nat (pixelWidth el))
                 (of_nat (pixelHeight el))))
    (naturalY (getCoordinates e (rect el) (of_nat (pixelWidth el))
                 (of_nat (pixelHeight el)))).
Proof.
  intros He Hw Hh.
  destruct (getCoordinates_clamped e (rect el) (pixelWidth el) (pixelHeight el)
              Hlaid He) as (i & j & Hi & Hj & Hi0 & Hj0 & Hi1 & Hj1).
  exists i, j. rewrite Hi, Hj. specialize (Hi1 Hw). specialize (Hj1 Hh).
  split; [reflexivity | split; [reflexivity | lia]].
Qed.

Lemma handle_within (ev : pointerEvent) (s : gesture) :
  atFinitePosition (eventOf ev) = true ->
  dragWithin (pixelWidth el) (pixelHeight el) s ->
  dragWithin (pixelWidth el) (pixelHeight el) (handle p ev s).1 /\
  (forall c, (handle p ev s).2 = Some c ->
             inFrame (pixelWidth el) (pixelHeight el) c).
Proof.
  intros He Hs. destruct ev as [e | e | e]; cbn [handle eventOf] in *.
  - unfold handlePointerDown. rewrite Htarget.
    destruct (showProcessed p); [by split |].
    destruct (match mediaType p with video => trackingFrames p | _ => false end).
    { split; [done |]. intros c. destruct (videoRef p); [| done].
      by intros [= <-]. }
    destruct (onPointClick p); cbn [negb]; [| by split].
    destruct (gtb (of_nat (pixelWidth el)) (of_Z 0)) eqn:Ew; [| by split].
    destruct (gtb (of_nat (pixelHeight el)) (of_Z 0)) eqn:Eh; [| by split].
    cbn [andb fst snd]. split; [| done].
    apply gtb_of_nat_0 in Ew, Eh. intros _.
    split; [done | split; [done | split]].
    + eexists _, _. split; [reflexivity |]. by apply coordinates_within.
    + done.
  - split; [| done]. cbn [fst]. unfold handlePointerMove. rewrite Htarget.
    destruct (isDragging s) eqn:Ed; [| done].
    destruct (Hs Ed) as (Hw & Hh & (sx & sy & Hstart & Hpos) & Hbox).
    rewrite Hstart.
    destruct (gtb (of_nat (pixelWidth el)) (of_Z 0)) eqn:Ew; [| done].
    intros _. cbn [startNaturalPos currentDragRect].
    split; [done | split; [done | split]].
    + by exists sx, sy.
    + destruct Hpos as (i & j & -> & -> & Hi & Hj).
      destruct (coordinates_within e He Hw Hh)
        as (i' & j' & -> & -> & Hi' & Hj').
      rewrite !Math_min_of_Z, !Math_max_of_Z.
      intros box Hb. apply (inj Some) in Hb. subst box.
      eexists _, _, _, _. split; [reflexivity |]. lia.
  - unfold handlePointerUp. rewrite Htarget.
    destruct (isDragging s) eqn:Ed; [| by split].
    destruct (Hs Ed) as (Hw & Hh & (sx & sy & Hstart & Hpos) & Hbox).
    rewrite Hstart.
    destruct (startClientPos s) as [[scx scy] |]; [| by split].
    cbn [fst snd]. split; [done |]. intros c.
    destruct (gtb (of_nat (pixelWidth el)) (of_Z 0)); [| done].
    destruct (ltb _ _ && ltb _ _).
    + destruct (onPointClick p); [| done]. intros [= <-].
      cbn [inFrame x y label]. split.
      * by apply coordinates_within.
      * destruct (strictEq _ _); [by left | by right].
    + destruct (onBoxComplete p); [| done].
      destruct (currentDragRect s) as [box |] eqn:Eb; [| done].
      destruct (Hbox box eq_refl)
        as (x0 & y0 & x1 & y1 & -> & Hx0 & Hx & Hx1 & Hy0 & Hy & Hy1).
      cbn [xmax xmin ymax ymin]. rewrite !sub_of_Z.
      rewrite !Math_abs_of_Z by lia. unfold gtb. rewrite !ltb_of_Z.
      destruct (5 <? x1 - x0) eqn:Ex; [| done].
      destruct (5 <? y1 - y0) eqn:Ey; [| done].
      cbn [andb]. intros [= <-].
      exists x0, y0, x1, y1. split; [reflexivity |]. lia.
Qed.

Lemma callbacks_within (events : list pointerEvent) (s : gesture) :
  Forall (fun ev => atFinitePosition (eventOf ev) = true) events ->
  dragWithin (pixelWidth el) (pixelHeight el) s ->
  Forall (inFrame (pixelWidth el) (pixelHeight el)) (callbacks p events s).
Proof.
  intros Hev. revert s.
  induction Hev as [| ev rest He _ IH]; intros s Hs; [constructor |].
  cbn [callbacks].
  destruct (handle_within ev s He Hs) as [Hnext Hc].
  destruct (handle p ev s) as [s' [c |]]; cbn [fst snd] in *.
  - constructor; [by apply Hc | by apply IH].
  - by apply IH.
Qed.

End gesture_facts.

Section viewer_target.

Import JS Types Viewer.

Lemma target_Some (p : props) (el : element) (w h : number) :
  target p = (Some el, w, h) ->
  target p = (Some el, of_nat (pixelWidth el), of_nat (pixelHeight el)).
Proof.
  unfold target.
  destruct (mediaType p), (imageRef p), (videoRef p);
    intros H; try discriminate H; by injection H as -> _ _.
Qed.

End viewer_target.

(** X11.  For an element that is laid out (finite edges, positive sides)
    and a pointer at a finite position, [getCoordinates] returns integer
    pixel coordinates inside the image; a pointer left of (above) the
    element gives column (row) 0 and one at or beyond its right (bottom)
    edge gives the last column (row). *)
Theorem getCoordinates_in_bounds
    (e : Viewer.MouseEvent) (r : Viewer.DOMRect) (nw nh : nat)
    (cx cy l t w h : Q) :
  Viewer.clientX e = JS.Fin cx -> Viewer.clientY e = JS.Fin cy ->
  r = Viewer.mkRect (JS.Fin l) (JS.Fin t) (JS.Fin w) (JS.Fin h) ->
  (0 < w)%Q -> (0 < h)%Q -> (0 < nw)%nat -> (0 < nh)%nat ->
  exists i j : Z,
    Viewer.naturalX (Viewer.getCoordinates e r (JS.of_nat nw) (JS.of_nat nh))
    = JS.of_Z i /\
    Viewer.naturalY (Viewer.getCoordinates e r (JS.of_nat nw) (JS.of_nat nh))
    = JS.of_Z j /\
    0 <= i <= Z.of_nat nw - 1 /\ 0 <= j <= Z.of_nat nh - 1 /\
    ((cx < l)%Q -> i = 0) /\ ((l + w <= cx)%Q -> i = Z.of_nat nw - 1) /\
    ((cy < t)%Q -> j = 0) /\ ((t + h <= cy)%Q -> j = Z.of_nat nh - 1).
Proof.
  intros Hcx Hcy -> Hw Hh Hnw Hnh.
  unfold Viewer.getCoordinates.
  cbn [Viewer.naturalX Viewer.naturalY Viewer.left Viewer.top Viewer.width
       Viewer.height].
  rewrite Hcx, Hcy.
  change (JS.div (JS.of_nat nw) (JS.Fin w))
    with (JS.div (JS.Fin (inject_Z (Z.of_nat nw))) (JS.Fin w)).
  change (JS.div (JS.of_nat nh) (JS.Fin h))
    with (JS.div (JS.Fin (inject_Z (Z.of_nat nh))) (JS.Fin h)).
  rewrite !div_Fin_pos by done.
  change (JS.sub (JS.Fin cx) (JS.Fin l)) with (JS.Fin (cx + - l)).
  change (JS.sub (JS.Fin cy) (JS.Fin t)) with (JS.Fin (cy + - t)).
  cbn [JS.mul].
  assert (Hside : forall (n : nat) (c o s : Q),
            (0 < s)%Q -> (0 < n)%nat ->
            let v := ((c + - o) * (inject_Z (Z.of_nat n) / s))%Q in
            ((c < o)%Q -> (v < 0)%Q) /\
            ((o + s <= c)%Q -> (inject_Z (Z.of_nat n) - 1 <= v)%Q)).
  { intros n c o s Hs Hn v.
    assert (Hn' : (1 <= inject_Z (Z.of_nat n))%Q).
    { change 1%Q with (inject_Z 1). rewrite <- Zle_Qle. lia. }
    assert (Hk : (0 < inject_Z (Z.of_nat n) / s)%Q).
    { apply Qlt_shift_div_l; [done | lra]. }
    assert (Hks : (inject_Z (Z.of_nat n) / s * s == inject_Z (Z.of_nat n))%Q).
    { field. lra. }
    unfold v. split; intros Hc; nra. }
  destruct (Hside nw cx l w Hw Hnw) as [Hxl Hxr].
  destruct (Hside nh cy t h Hh Hnh) as [Hyl Hyr].
  destruct (clamp_pixel nw ((cx + - l) * (inject_Z (Z.of_nat nw) / w)))
    as (i & -> & Hi0 & Hi1 & Hil & Hir).
  destruct (clamp_pixel nh ((cy + - t) * (inject_Z (Z.of_nat nh) / h)))
    as (j & -> & Hj0 & Hj1 & Hjl & Hjr).
  exists i, j. specialize (Hi1 Hnw). specialize (Hj1 Hnh).
  split; [reflexivity | split; [reflexivity |]].
  split; [lia | split; [lia |]].
  split; [intros; apply Hil; auto |].
  split; [intros; apply Hir; auto |].
  split; [intros; apply Hjl; auto | intros; apply Hjr; auto].
Qed.

(** An 800 by 600 image shown at 400 by 300 with its corner at (10, 20):
    a pointer at (110.5, 80) is pixel (201, 120). *)
Lemma getCoordinates_in_bounds_witness :
  exists i j : Z,
    Viewer.naturalX
      (Viewer.getCoordinates
         (Viewer.mkMouse (JS.Fin (221 # 2)) (JS.of_Z 80) (JS.of_Z 0))
         (Viewer.mkRect (JS.of_Z 10) (JS.of_Z 20) (JS.of_Z 400) (JS.of_Z 300))
         (JS.of_nat 800) (JS.of_nat 600)) = JS.of_Z i /\
    Viewer.naturalY
      (Viewer.getCoordinates
         (Viewer.mkMouse (JS.Fin (221 # 2)) (JS.of_Z 80) (JS.of_Z 0))
         (Viewer.mkRect (JS.of_Z 10) (JS.of_Z 20) (JS.of_Z 400) (JS.of_Z 300))
         (JS.of_nat 800) (JS.of_nat 600)) = JS.of_Z j /\
    i = 201 /\ j = 120.
Proof.
  destruct (getCoordinates_in_bounds
              (Viewer.mkMouse (JS.Fin (221 # 2)) (JS.of_Z 80) (JS.of_Z 0))
              (Viewer.mkRect (JS.of_Z 10) (JS.of_Z 20) (JS.of_Z 400)
                 (JS.of_Z 300))
              800 600 (221 # 2) 80 10 20 400 300
              eq_refl eq_refl eq_refl ltac:(reflexivity) ltac:(reflexivity)
              ltac:(lia) ltac:(lia))
    as (i & j & Hi & Hj & _).
  exists i, j. split; [exact Hi | split; [exact Hj |]].
  vm_compute in Hi, Hj. injection Hi as Hi. injection Hj as Hj. lia.
Defined.

(** X12.  Whatever the sequence of pointer presses, moves and releases over
    an element that is laid out, every point handed to [onPointClick] is an
    integer pixel inside the image with label 0 or 1, and every box handed
    to [onBoxComplete] has integer corners inside the image and spans more
    than 5 pixels both ways. *)
Theorem callbacks_in_frame
    (p : Viewer.props) (el : Viewer.element) (w h : JS.number)
    (events : list Viewer.pointerEvent) :
  Viewer.target p = (Some el, w, h) ->
  Viewer.laidOut (Viewer.rect el) = true ->
  Forall (fun ev => Viewer.atFinitePosition (Viewer.eventOf ev) = true)
    events ->
  Forall (Viewer.inFrame (Viewer.pixelWidth el) (Viewer.pixelHeight el))
    (Viewer.callbacks p events Viewer.idle).
Proof.
  intros Htarget Hlaid Hev.
  apply callbacks_within; [by eapply target_Some | done | done |].
  intros Hd. discriminate Hd.
Qed.

(** The drag of the sketch hands over the box from (20, 20) to
    (220, 120). *)
Lemma callbacks_in_frame_witness :
  Viewer.callbacks Sketch.viewer Sketch.drag Viewer.idle
  = [Viewer.BoxComplete
       (Types.mkBox (JS.of_Z 20) (JS.of_Z 20) (JS.of_Z 120) (JS.of_Z 220))] /\
  Forall (Viewer.inFrame 800 600)
    (Viewer.callbacks Sketch.viewer Sketch.drag Viewer.idle).
Proof.
  split; [vm_compute; reflexivity |].
  apply (callbacks_in_frame Sketch.viewer Sketch.shown
           (JS.of_nat 800) (JS.of_nat 600) Sketch.drag);
    [reflexivity | vm_compute; reflexivity |].
  repeat constructor.
Defined.

Section trimmer_facts.

Import JS VideoTrimmer.

Variable container : option Viewer.DOMRect.
Hypothesis Hlaid :
  forall rect, container = Some rect -> Viewer.laidOut rect = true.

(** The time under the pointer lies within the video. *)
Lemma getTimeFromX_within (d x : Q) :
  (0 <= d)%Q ->
  exists time : Q,
    getTimeFromX container (Fin d) (Fin x) = Fin time /\ (0 <= time <= d)%Q.
Proof.
  intros Hd. unfold getTimeFromX.
  destruct container as [rect |] eqn:Ec.
  - specialize (Hlaid rect eq_refl). unfold Viewer.laidOut in Hlaid.
    destruct rect as [l t w h].
    cbn [Viewer.left Viewer.top Viewer.width Viewer.height] in *.
    destruct l as [| | | l], t as [| | | t], w as [| | | w], h as [| | | h];
      try discriminate Hlaid.
    cbn [isFinite andb] in Hlaid. rewrite !gtb_Fin_0 in Hlaid.
    apply andb_prop in Hlaid as [Hw _].
    apply negb_true_iff, Qle_bool_false in Hw.
    change (sub (Fin x) (Fin l)) with (Fin (x + - l)).
    rewrite div_Fin_pos by done.
    destruct (clamp_unit ((x + - l) / w)) as (pc & -> & Hpc & _).
    cbn [mul]. eexists. split; [reflexivity |]. nra.
  - exists 0%Q. split; [reflexivity | lra].
Qed.



End trimmer_facts.



(** X14.  For a video shorter than one second, the first move of the start
    handle, wherever the pointer is, puts the start of the range at the
    duration minus one second, a negative time, which is also the time
    handed to [onPreviewTime]. *)
Theorem short_clip_negative_start
    (container : option Viewer.DOMRect) (d x : Q) :
  (0 < d)%Q -> (d < 1)%Q ->
  (forall rect, container = Some rect -> Viewer.laidOut rect = true) ->
  exists s : Q,
    VideoTrimmer.handlePointerMove container (JS.Fin d) (JS.Fin x)
      (VideoTrimmer.mkTrimmer (Some VideoTrimmer.start)
         (VideoTrimmer.handleVideoMetadata (JS.Fin d)))
    = (VideoTrimmer.mkTrimmer (Some VideoTrimmer.start) (JS.Fin s, JS.Fin d),
       Some (JS.Fin s)) /\
    (s == d - 1)%Q /\ (s < 0)%Q.
Proof.
  intros Hd0 Hd1 Hlaid.
  unfold VideoTrimmer.handlePointerMove, VideoTrimmer.handleVideoMetadata.
  cbn [VideoTrimmer.isDragging VideoTrimmer.range].
  destruct (getTimeFromX_within container Hlaid d x) as (time & -> & Ht);
    [lra |].
  unfold VideoTrimmer.minGap, JS.of_Z. cbn [JS.sub JS.add JS.neg].
  rewrite Math_min_Fin. change (inject_Z 1) with 1%Q.
  destruct (Qle_bool _ _) eqn:E;
    [apply Qle_bool_iff in E; lra | apply Qle_bool_false in E].
  eexists. split; [reflexivity |]. lra.
Qed.

(** A clip of half a second: the start handle jumps to minus half a
    second. *)
Lemma short_clip_negative_start_witness :
  exists s : Q,
    VideoTrimmer.handlePointerMove None (JS.Fin (1 # 2)) (JS.Fin 0)
      (VideoTrimmer.mkTrimmer (Some VideoTrimmer.start)
         (VideoTrimmer.handleVideoMetadata (JS.Fin (1 # 2))))
    = (VideoTrimmer.mkTrimmer (Some VideoTrimmer.start)
         (JS.Fin s, JS.Fin (1 # 2)),
       Some (JS.Fin s)) /\
    (s == - (1 # 2))%Q.
Proof.
  destruct (short_clip_negative_start None (1 # 2) 0)
    as (s & Hs & Heq & _); [reflexivity | reflexivity | done |].
  exists s. split; [exact Hs |]. rewrite Heq. reflexivity.
Defined.

Section format_facts.

Import JS Format.

Lemma Qfloor_unique (q : Q) (z : Z) :
  (inject_Z z <= q)%Q -> (q < inject_Z z + 1)%Q -> Qfloor q = z.
Proof.
  intros Hlo Hhi.
  pose proof (Qfloor_le q) as Hfl. pose proof (Qlt_floor q) as Hlt.
  rewrite inject_Z_plus in Hlt. change (inject_Z 1) with 1%Q in Hlt.
  assert (z < Qfloor q + 1).
  { rewrite Zlt_Qlt, inject_Z_plus. change (inject_Z 1) with 1%Q. lra. }
  assert (Qfloor q < z + 1).
  { rewrite Zlt_Qlt, inject_Z_plus. change (inject_Z 1) with 1%Q. lra. }
  lia.
Qed.

(** The floor of a sixtieth is the quotient of the floor by 60. *)
Lemma Qfloor_sixtieth (q : Q) : Qfloor (q / 60) = Qfloor q / 60.
Proof.
  pose proof (Qfloor_le q) as Hfl. pose proof (Qlt_floor q) as Hlt.
  rewrite inject_Z_plus in Hlt. change (inject_Z 1) with 1%Q in Hlt.
  set (f := Qfloor q) in *.
  pose proof (Z.div_mod f 60 ltac:(lia)) as Hdm.
  pose proof (Z.mod_pos_bound f 60 ltac:(lia)) as Hm.
  assert (Hf : (inject_Z f == 60 * inject_Z (f / 60) + inject_Z (f mod 60))%Q).
  { rewrite Hdm at 1. rewrite inject_Z_plus, inject_Z_mult. reflexivity. }
  assert (Hm' : (0 <= inject_Z (f mod 60) <= 59)%Q).
  { change 0%Q with (inject_Z 0). change 59%Q with (inject_Z 59).
    rewrite <- !Zle_Qle. lia. }
  apply Qfloor_unique.
  - apply Qle_shift_div_l; lra.
  - apply Qlt_shift_div_r; lra.
Qed.

Lemma toString_of_Z (z : Z) :
  Z.abs z < 2 ^ 53 -> toString (of_Z z) = Some (pretty z).
Proof.
  intros Hz. unfold toString, of_Z. rewrite Qfloor_Z.
  rewrite (proj2 (Qeq_bool_iff _ _)) by reflexivity.
  by rewrite (proj2 (Z.ltb_lt _ _) Hz).
Qed.

Lemma two_digits (s : Z) :
  0 <= s < 60 ->
  padStart 2 "0" (pretty s) = pretty (s / 10) +:+ pretty (s mod 10).
Proof.
  intros Hs. assert (Hn : exists n : nat, s = Z.of_nat n /\ (n < 60)%nat).
  { exists (Z.to_nat s). lia. }
  destruct Hn as (n & -> & Hn).
  do 60 (destruct n as [| n]; [vm_compute; reflexivity |]). lia.
Qed.

Lemma pretty_N_go_length (x : N) (s : string) :
  (String.length s <= String.length (pretty_N_go x s))%nat.
Proof.
  revert s. induction (N.lt_wf_0 x) as [x _ IH]. intros s.
  assert (x = 0 \/ 0 < x)%N as [-> | Hx] by lia;
    [by rewrite pretty_N_go_0 |].
  rewrite pretty_N_go_step by done.
  etransitivity; [| apply IH; by apply N.div_lt]. cbn. lia.
Qed.

Lemma negative_unpadded (s : Z) :
  s < 0 -> padStart 2 "0" (pretty s) = pretty s.
Proof.
  intros Hs. destruct s as [| s | s]; [lia | lia |].
  unfold padStart. change (pretty (Z.neg s)) with ("-" +:+ pretty (N.pos s)).
  cbn [String.append String.length].
  destruct (pretty (N.pos s)) as [| c rest] eqn:E; [| reflexivity].
  exfalso. revert E. unfold pretty, pretty_N.
  destruct (decide (N.pos s = 0%N)); [done |].
  rewrite pretty_N_go_step by lia. intros E.
  pose proof (pretty_N_go_length (N.pos s `div` 10)
                (String (pretty_N_char (N.pos s `mod` 10)) "")) as Hlen.
  rewrite E in Hlen. cbn in Hlen. lia.
Qed.

End format_facts.

Section formatTime_facts.

Import JS Format.

Variable q : Q.
Hypothesis Hlow : (- inject_Z (2 ^ 53) < q)%Q.
Hypothesis Hhigh : (q < inject_Z (2 ^ 53))%Q.

Lemma floor_bounds : - 2 ^ 53 <= Qfloor q < 2 ^ 53.
Proof.
  pose proof (Qfloor_le q) as Hfl. pose proof (Qlt_floor q) as Hlt.
  rewrite inject_Z_plus in Hlt. change (inject_Z 1) with 1%Q in Hlt.
  split.
  - apply Z.lt_succ_r. rewrite Zlt_Qlt. unfold Z.succ.
    rewrite inject_Z_plus, inject_Z_opp. change (inject_Z 1) with 1%Q. lra.
  - rewrite Zlt_Qlt. lra.
Qed.

Lemma minutes_text :
  toString (Math_floor (div (Fin q) (of_Z 60))) = Some (pretty (Qfloor q / 60)).
Proof.
  change (div (Fin q) (of_Z 60)) with (div (Fin q) (Fin 60)).
  rewrite div_Fin_pos by reflexivity. cbn [Math_floor].
  rewrite Qfloor_sixtieth. apply toString_of_Z.
  pose proof floor_bounds as Hf.
  assert (HB : 2 ^ 53 = 9007199254740992) by reflexivity.
  rewrite HB in Hf |- *.
  assert (- 9007199254740991 <= Qfloor q / 60 < 9007199254740992);
    [| lia].
  split.
  - apply Z.div_le_lower_bound; lia.
  - apply Z.div_lt_upper_bound; lia.
Qed.

Lemma rem_sixty :
  rem (Fin q) (of_Z 60) = Fin (q - 60 * inject_Z (truncate (q / 60))).
Proof. reflexivity. Qed.

Lemma floor_shift (c : Z) :
  Qfloor (q - 60 * inject_Z c) = Qfloor q - 60 * c.
Proof.
  pose proof (Qfloor_le q) as Hfl. pose proof (Qlt_floor q) as Hlt.
  rewrite inject_Z_plus in Hlt. change (inject_Z 1) with 1%Q in Hlt.
  apply Qfloor_unique; unfold Z.sub;
    rewrite inject_Z_plus, inject_Z_opp, inject_Z_mult;
    change (inject_Z 60) with 60%Q; lra.
Qed.

Lemma seconds_nonnegative :
  (0 <= q)%Q ->
  Math_floor (rem (Fin q) (of_Z 60)) = of_Z (Qfloor q mod 60).
Proof.
  intros Hq. rewrite rem_sixty. cbn [Math_floor]. f_equal.
  unfold truncate.
  assert (Hdiv : (0 <= q / 60)%Q) by (apply Qle_shift_div_l; lra).
  rewrite (proj2 (Qle_bool_iff _ _) Hdiv).
  rewrite floor_shift, Qfloor_sixtieth.
  pose proof (Z.div_mod (Qfloor q) 60 ltac:(lia)). lia.
Qed.

Lemma seconds_negative :
  (q < 0)%Q ->
  exists s : Z,
    Math_floor (rem (Fin q) (of_Z 60)) = of_Z s /\
    -60 <= s <= 0 /\
    (s = 0 \/ 60 * (Qfloor q / 60) + s = Qfloor q - 60).
Proof.
  intros Hq. rewrite rem_sixty. cbn [Math_floor].
  unfold truncate.
  assert (Hdiv : (q / 60 < 0)%Q) by (apply Qlt_shift_div_r; lra).
  destruct (Qle_bool 0 (q / 60)) eqn:E; [apply Qle_bool_iff in E; lra |].
  rewrite floor_shift. set (c := Qceiling (q / 60)).
  pose proof (Qle_ceiling (q / 60)) as Hc1.
  pose proof (Qceiling_lt (q / 60)) as Hc2. fold c in Hc1, Hc2.
  unfold Z.sub in Hc2. rewrite inject_Z_plus in Hc2.
  change (inject_Z (- (1))) with (-1)%Q in Hc2.
  assert (Hq60 : (q == 60 * (q / 60))%Q) by (field; lra).
  pose proof (Qfloor_le q) as Hfl. pose proof (Qlt_floor q) as Hlt.
  rewrite inject_Z_plus in Hlt. change (inject_Z 1) with 1%Q in Hlt.
  set (f := Qfloor q) in *.
  assert (Hlo : 60 * c - 60 <= f).
  { apply Z.lt_pred_le. rewrite Zlt_Qlt. unfold Z.pred, Z.sub.
    rewrite !inject_Z_plus, inject_Z_mult, inject_Z_opp.
    change (inject_Z 60) with 60%Q. change (inject_Z (-1)) with (-1)%Q. lra. }
  assert (Hhi : f <= 60 * c).
  { rewrite Zle_Qle, inject_Z_mult. change (inject_Z 60) with 60%Q. lra. }
  eexists. split; [reflexivity |]. split; [lia |].
  destruct (decide (f = 60 * c)) as [-> | Hne]; [left; lia | right].
  assert (Hm : f / 60 = c - 1).
  { symmetry. apply (Z.div_unique f 60 (c - 1) (f - 60 * (c - 1))); lia. }
  rewrite Hm. lia.
Qed.

Lemma formatTime_nonnegative :
  (0 <= q)%Q ->
  formatTime (Fin q)
  = Some (pretty (Qfloor q / 60) +:+ ":" +:+
          pretty (Qfloor q mod 60 / 10) +:+ pretty (Qfloor q mod 60 mod 10)).
Proof.
  intros Hq. unfold formatTime.
  rewrite minutes_text, seconds_nonnegative by done.
  pose proof (Z.mod_pos_bound (Qfloor q) 60 ltac:(lia)) as Hm.
  rewrite toString_of_Z
    by (change (2 ^ 53) with 9007199254740992; lia).
  by rewrite two_digits.
Qed.

Lemma formatTime_negative :
  (q < 0)%Q ->
  exists s : Z,
    -60 <= s <= 0 /\
    (s = 0 \/ 60 * (Qfloor q / 60) + s = Qfloor q - 60) /\
    formatTime (Fin q)
    = Some (pretty (Qfloor q / 60) +:+ ":" +:+
            (if decide (s = 0) then "00" else pretty s)).
Proof.
  intros Hq. destruct (seconds_negative Hq) as (s & Hs & Hrange & Hsum).
  exists s. split; [done | split; [done |]].
  unfold formatTime. rewrite minutes_text, Hs.
  rewrite toString_of_Z
    by (change (2 ^ 53) with 9007199254740992; lia).
  destruct (decide (s = 0)) as [-> | Hne]; [reflexivity |].
  by rewrite negative_unpadded by lia.
Qed.

End formatTime_facts.

(** X15.  For a time below 2^53 seconds in magnitude, [formatTime] prints
    the whole minutes, a colon and the seconds.  For a time that is not
    negative the minutes are the whole seconds divided by 60 and the
    seconds are the remainder, always on two digits.  For a negative time,
    one that is at least the smallest normal number in magnitude, the
    minutes are still rounded down but the seconds are the remainder
    towards zero: unless the time is a whole number of minutes the seconds
    print with their own minus sign, unpadded, and the pair printed stands
    for a time one minute earlier than the one given. *)
Theorem formatTime_text (q : Q) :
  (- inject_Z (2 ^ 53) < q)%Q -> (q < inject_Z (2 ^ 53))%Q ->
  ((0 <= q)%Q ->
   Format.formatTime (JS.Fin q)
   = Some (pretty (Qfloor q / 60) +:+ ":" +:+
           pretty (Qfloor q mod 60 / 10) +:+ pretty (Qfloor q mod 60 mod 10)))
  /\
  ((q <= - Binary64.minNormal)%Q ->
   exists s : Z,
     -60 <= s <= 0 /\
     (s = 0 \/ 60 * (Qfloor q / 60) + s = Qfloor q - 60) /\
     Format.formatTime (JS.Fin q)
     = Some (pretty (Qfloor q / 60) +:+ ":" +:+
             (if decide (s = 0) then "00" else pretty s))).
Proof.
  intros Hlow Hhigh. split.
  - by apply formatTime_nonnegative.
  - intros Hq. apply formatTime_negative; [done | done |].
    eapply Qle_lt_trans; [exact Hq |]. reflexivity.
Qed.

(** 75.5 seconds print as 1:15, and the start of minus half a second that
    a short clip can get prints as -1:-1. *)
Lemma formatTime_text_witness :
  Format.formatTime (JS.Fin (151 # 2)) = Some "1:15"%string /\
  Format.formatTime (JS.Fin (- (1 # 2))) = Some "-1:-1"%string.
Proof.
  split.
  - rewrite (proj1 (formatTime_text (151 # 2) ltac:(reflexivity)
                      ltac:(reflexivity)) ltac:(discriminate)).
    reflexivity.
  - destruct (proj2 (formatTime_text (- (1 # 2)) ltac:(reflexivity)
                       ltac:(reflexivity)) ltac:(discriminate))
      as (s & _ & Hsum & Heq).
    rewrite Heq. destruct Hsum as [-> | Hs].
    + vm_compute in Heq. discriminate Heq.
    + change (Qfloor (- (1 # 2))) with (-1) in Hs.
      change (-1 / 60) with (-1) in Hs.
      assert (s = -1) as -> by lia. reflexivity.
Defined.

Section trim_progress_facts.

Import JS Trim.

(** The value reported before the end of the window, for any finite window,
    also an empty or a reversed one. *)
Lemma progressValue_cases (c s e : Q) :
  (c < e)%Q ->
  exists p : Q,
    progressValue (Fin c) (Fin s) (Fin e) = Fin p /\
    (0 <= p <= 100)%Q /\
    ((s < e)%Q ->
     forall x : Q, (x * (e - s) == c - s)%Q ->
       (x <= 0 -> p == 0)%Q /\ (0 <= x <= 1 -> p == 100 * x)%Q /\
       (1 <= x -> p == 100)%Q) /\
    ((s == e)%Q -> (p == 0)%Q) /\
    ((e < s)%Q -> (p == 100)%Q).
Proof.
  intros Hc. unfold progressValue.
  change (sub (Fin e) (Fin s)) with (Fin (e + - s)).
  change (sub (Fin c) (Fin s)) with (Fin (c + - s)).
  cbn [div]. destruct (e + - s ?= 0)%Q eqn:Ed.
  - apply Qeq_alt in Ed.
    assert (Hlt : (c + - s ?= 0)%Q = Lt) by (apply (proj1 (Qlt_alt _ _)); lra).
    rewrite Hlt. exists 0%Q. split; [reflexivity |].
    split; [lra |]. split; [intros; lra | split; [reflexivity | intros; lra]].
  - apply Qlt_alt in Ed.
    assert (Hx : (1 < (c + - s) / (e + - s))%Q).
    { assert (Hy : ((c + - s) / (e + - s) * (e + - s) == c + - s)%Q)
        by (field; lra).
      nra. }
    unfold of_Z. cbn [mul]. rewrite Math_max_Fin, Math_min_Fin.
    change (inject_Z 100) with 100%Q. change (inject_Z 0) with 0%Q.
    eexists. split; [reflexivity |].
    destruct (Qle_bool 0 _) eqn:E1;
      [apply Qle_bool_iff in E1 | apply Qle_bool_false in E1; lra].
    destruct (Qle_bool 100 _) eqn:E2;
      [apply Qle_bool_iff in E2 | apply Qle_bool_false in E2; lra].
    split; [lra |]. split; [intros; lra | split; [intros; lra | reflexivity]].
  - apply Qgt_alt in Ed.
    assert (Hy : ((c + - s) / (e + - s) * (e + - s) == c + - s)%Q)
      by (field; lra).
    set (y := ((c + - s) / (e + - s))%Q) in *.
    unfold of_Z. cbn [mul]. rewrite Math_max_Fin, Math_min_Fin.
    change (inject_Z 100) with 100%Q. change (inject_Z 0) with 0%Q.
    eexists. split; [reflexivity |].
    assert (Hsame : forall x : Q, (x * (e - s) == c - s)%Q -> (x == y)%Q).
    { intros x Hxd. nra. }
    destruct (Qle_bool 0 (y * 100)) eqn:E1;
      [apply Qle_bool_iff in E1 | apply Qle_bool_false in E1];
      destruct (Qle_bool 100 _) eqn:E2;
      try (apply Qle_bool_iff in E2); try (apply Qle_bool_false in E2);
      (split; [lra |]);
      (split; [intros _ x Hxd; specialize (Hsame x Hxd); lra |]);
      (split; [intros; lra | intros; lra]).
Qed.

Lemma reported_before_end (t : trimmer) (ended : bool) (c s e : Q)
    (onProgress : bool) (v : number) :
  reported (processFrame t ended (Fin c) (Fin s) (Fin e) onProgress) = Some v ->
  (c < e)%Q /\ v = progressValue (Fin c) (Fin s) (Fin e).
Proof.
  unfold processFrame.
  destruct (negb (isRecording t)); [done |].
  destruct ended; [done |]. cbn [orb geb leb].
  destruct (Qle_bool e c) eqn:E; [done |]. apply Qle_bool_false in E.
  destruct onProgress; [| done]. cbn [reported]. by intros [= <-].
Qed.

End trim_progress_facts.

(** X16.  For finite times, whatever the window (also an empty or a
    reversed one), every value [processFrame] reports is a finite percentage
    between 0 and 100 and is reported before the end of the window; and of
    two reports the one at the later playback time is at least as large. *)
Theorem processFrame_reports_monotone
    (t1 t2 : Trim.trimmer) (ended1 ended2 onProgress1 onProgress2 : bool)
    (c1 c2 s e : Q) (v1 v2 : JS.number) :
  Trim.reported
    (Trim.processFrame t1 ended1 (JS.Fin c1) (JS.Fin s) (JS.Fin e) onProgress1)
  = Some v1 ->
  Trim.reported
    (Trim.processFrame t2 ended2 (JS.Fin c2) (JS.Fin s) (JS.Fin e) onProgress2)
  = Some v2 ->
  (c1 <= c2)%Q ->
  exists p1 p2 : Q,
    v1 = JS.Fin p1 /\ v2 = JS.Fin p2 /\
    (0 <= p1)%Q /\ (p1 <= p2)%Q /\ (p2 <= 100)%Q /\ (c2 < e)%Q.
Proof.
  intros H1 H2 Hle.
  apply reported_before_end in H1 as [Hc1 ->].
  apply reported_before_end in H2 as [Hc2 ->].
  destruct (progressValue_cases c1 s e Hc1)
    as (p1 & -> & Hp1 & Hin1 & Heq1 & Hrev1).
  destruct (progressValue_cases c2 s e Hc2)
    as (p2 & -> & Hp2 & Hin2 & Heq2 & Hrev2).
  exists p1, p2. split; [reflexivity | split; [reflexivity |]].
  split; [lra |]. split; [| split; [lra | done]].
  destruct (Qlt_le_dec s e) as [Hse | Hes].
  - assert (Hd : ~ (e - s == 0)%Q) by lra.
    assert (Hx1 : (((c1 - s) / (e - s)) * (e - s) == c1 - s)%Q) by (by field).
    assert (Hx2 : (((c2 - s) / (e - s)) * (e - s) == c2 - s)%Q) by (by field).
    destruct (Hin1 Hse _ Hx1) as (Ha1 & Hb1 & Hc1').
    destruct (Hin2 Hse _ Hx2) as (Ha2 & Hb2 & Hc2').
    set (x1 := ((c1 - s) / (e - s))%Q) in *.
    set (x2 := ((c2 - s) / (e - s))%Q) in *.
    assert (Hx : (x1 <= x2)%Q) by nra.
    destruct (Qlt_le_dec x1 0), (Qlt_le_dec x1 1), (Qlt_le_dec x2 0),
      (Qlt_le_dec x2 1);
      try lra;
      repeat match goal with
             | H : (?a -> _)%Q |- _ =>
                 first [ specialize (H ltac:(lra)) | clear H ]
             end; lra.
  - destruct (Qlt_le_dec e s) as [Hlt | Hge].
    + rewrite (Hrev1 Hlt), (Hrev2 Hlt). lra.
    + assert (Heq : (s == e)%Q) by lra.
      rewrite (Heq1 Heq), (Heq2 Heq). lra.
Qed.

(** In the window from 2 to 12 seconds, 4.5 seconds is reported as 25 and
    7 seconds as 50. *)
Lemma processFrame_reports_monotone_witness :
  exists p1 p2 : Q,
    Trim.reported
      (Trim.processFrame (Trim.mkTrimmer true (Some Trim.recording) false)
         false (JS.Fin (9 # 2)) (JS.Fin 2) (JS.Fin 12) true)
    = Some (JS.Fin p1) /\
    Trim.reported
      (Trim.processFrame (Trim.mkTrimmer true (Some Trim.recording) false)
         false (JS.Fin 7) (JS.Fin 2) (JS.Fin 12) true)
    = Some (JS.Fin p2) /\
    (p1 == 25)%Q /\ (p2 == 50)%Q /\ (p1 <= p2)%Q.
Proof.
  destruct (processFrame_reports_monotone
              (Trim.mkTrimmer true (Some Trim.recording) false)
              (Trim.mkTrimmer true (Some Trim.recording) false)
              false false true true (9 # 2) 7 2 12 _ _
              eq_refl eq_refl ltac:(discriminate))
    as (p1 & p2 & H1 & H2 & _ & Hle & _).
  exists p1, p2.
  split; [by rewrite <- H1 |]. split; [by rewrite <- H2 |].
  injection H1 as <-. injection H2 as <-.
  split; [reflexivity | split; [reflexivity | exact Hle]].
Defined.

Section request_facts.

Import JS Types Selection.

Variable trim : string -> string.
Variable dataURLtoBlob : string -> bool.

(** The form, once the image has been appended. *)
Lemma analyzeMedia_fields (file : option ImageApi.platform) (promptText : string)
    (imageBase64 : option string) (confidence maskQuality : number)
    (clicks : list Point) (drawn : option BoundingBox) (fields : list field) :
  analyzeMedia trim dataURLtoBlob file promptText imageBase64 confidence
    maskQuality clicks drawn = inr fields ->
  exists picture chosen words,
    fields = picture :: chosen ++ words ++
               [threshold confidence; mask_threshold maskQuality] /\
    (match file with
     | Some f =>
         exists p, ImageApi.processImageForApi f = inr p /\
           picture = image "input.jpg"
                       (Some (ImageApi.width p, ImageApi.height p))
     | None => picture = image "capture.jpg" None
     end) /\
    chosen = (if (0 <? length clicks)%nat then
                [pointsField (map (fun p => (x p, y p)) clicks);
                 point_labels (map label clicks)]
              else match drawn with
                   | Some b => [boxes [(xmin b, ymin b, xmax b, ymax b)];
                                box_labels [of_Z 1]]
                   | None => []
                   end) /\
    words = (if truthy promptText && truthy (trim promptText)
             then [text (trim promptText)] else []) /\
    (chosen <> [] \/ words <> []).
Proof.
  unfold analyzeMedia. intros H.
  assert (Hsrc : exists picture,
            match file, imageBase64 with
            | Some f, _ =>
                match ImageApi.processImageForApi f with
                | inr p =>
                    inr [image "input.jpg"
                           (Some (ImageApi.width p, ImageApi.height p))]
                | inl e => inl (ImageFailed e)
                end
            | None, Some url =>
                if truthy url then
                  if dataURLtoBlob url then inr [image "capture.jpg" None]
                  else inl InvalidDataURL
                else inl NoMediaProvided
            | None, None => inl NoMediaProvided
            end = inr [picture] /\
            match file with
            | Some f =>
                exists p, ImageApi.processImageForApi f = inr p /\
                  picture = image "input.jpg"
                              (Some (ImageApi.width p, ImageApi.height p))
            | None => picture = image "capture.jpg" None
            end).
  { destruct file as [f |].
    - destruct (ImageApi.processImageForApi f) as [e | p]; [done |].
      eexists. split; [reflexivity |]. by exists p.
    - destruct imageBase64 as [url |]; [| done].
      destruct (truthy url); [| done].
      destruct (dataURLtoBlob url); [| done]. by eexists. }
  destruct Hsrc as (picture & Hsrc & Hpic). rewrite Hsrc in H.
  exists picture.
  destruct (0 <? length clicks)%nat;
    [| destruct drawn as [b |]];
    destruct (truthy promptText && truthy (trim promptText));
    cbn [negb] in H; try discriminate H; injection H as <-;
    eexists _, _;
    (split; [| split; [exact Hpic | split; [reflexivity |
                                            split; [reflexivity |]]]]);
    first [ reflexivity | by left | by right ].
Qed.

End request_facts.

(** X17.  The Analyze button and [analyzeMedia] disagree on what a prompt
    is.  Whenever [analyzeMedia] gets as far as a form, the selection has
    input in the sense of [ControlPanel]; but a prompt that is not empty and
    trims to the empty string, with no point and no box, enables the button
    for a selection that [analyzeMedia] always rejects, and rejects for the
    missing prompt once the image has been processed. *)
Theorem canAnalyze_blank_prompt
    (trim : string -> string) (dataURLtoBlob : string -> bool)
    (file : option ImageApi.platform) (imageBase64 : option string)
    (confidence maskQuality : JS.number) (s : Selection.selection) :
  (forall fields,
     Selection.analyzeMedia trim dataURLtoBlob file (Selection.prompt s)
       imageBase64 confidence maskQuality (Selection.points s)
       (Selection.box s) = inr fields ->
     Selection.hasInput s = true) /\
  (Selection.truthy (Selection.prompt s) = true ->
   trim (Selection.prompt s) = EmptyString ->
   Selection.points s = [] -> Selection.box s = None ->
   Selection.hasInput s = true /\
   (exists e,
      Selection.analyzeMedia trim dataURLtoBlob file (Selection.prompt s)
        imageBase64 confidence maskQuality (Selection.points s)
        (Selection.box s) = inl e) /\
   (forall f p, file = Some f -> ImageApi.processImageForApi f = inr p ->
      Selection.analyzeMedia trim dataURLtoBlob file (Selection.prompt s)
        imageBase64 confidence maskQuality (Selection.points s)
        (Selection.box s) = inl Selection.NoPromptProvided)).
Proof.
  split.
  - intros fields H.
    destruct (analyzeMedia_fields _ _ _ _ _ _ _ _ _ _ H)
      as (picture & chosen & words & _ & _ & Hchosen & Hwords & Hsome).
    unfold Selection.hasInput.
    destruct (Selection.truthy (Selection.prompt s));
      [done | cbn [andb orb] in *].
    destruct (0 <? length (Selection.points s))%nat; [done |].
    destruct (Selection.box s); [done |].
    subst. by destruct Hsome.
  - intros Hprompt Htrim Hpoints Hbox.
    split; [unfold Selection.hasInput; by rewrite Hprompt |].
    unfold Selection.analyzeMedia.
    rewrite Hpoints, Hbox, Htrim, Hprompt. cbn [length Nat.ltb Nat.leb].
    cbn [Selection.truthy andb negb]. split.
    + destruct file as [f |].
      * destruct (ImageApi.processImageForApi f); by eexists.
      * destruct imageBase64 as [url |]; [| by eexists].
        destruct (Selection.truthy url); [| by eexists].
        destruct (dataURLtoBlob url); by eexists.
    + intros f p -> Hp. by rewrite Hp.
Qed.

(** A prompt of one space, with a trim that empties it: the button is
    enabled and the request is rejected for the missing prompt. *)
Lemma canAnalyze_blank_prompt_witness :
  Selection.canAnalyze
    (Selection.mkSelection " " [] None (Some "blob:1"%string) false) = true /\
  Selection.analyzeMedia
    (fun t => if String.eqb t " " then EmptyString else t) (fun _ => true)
    (Some (ImageApi.mkPlatform (Some (640, 480)%nat) true true)) " " None
    (JS.Fin (1 # 2)) (JS.Fin (1 # 2)) [] None
  = inl Selection.NoPromptProvided.
Proof.
  split; [reflexivity |].
  destruct (canAnalyze_blank_prompt
              (fun t => if String.eqb t " " then EmptyString else t)
              (fun _ => true)
              (Some (ImageApi.mkPlatform (Some (640, 480)%nat) true true))
              None (JS.Fin (1 # 2)) (JS.Fin (1 # 2))
              (Selection.mkSelection " " [] None (Some "blob:1"%string) false))
    as [_ Hblank].
  destruct (Hblank eq_refl eq_refl eq_refl eq_refl) as (_ & _ & Hreject).
  eapply Hreject; [reflexivity | vm_compute; reflexivity].
Defined.

(** X18.  With at least one point, the form [analyzeMedia] sends for an
    image file holds the image at the size [processImageForApi] gave it
    (sides on the grid of 32, at most 800), then the points exactly as they
    were clicked, in order and unscaled, and their labels; it holds no box,
    also when a box was drawn. *)
Theorem points_sent_as_clicked
    (trim : string -> string) (dataURLtoBlob : string -> bool)
    (f : ImageApi.platform) (promptText : string)
    (imageBase64 : option string) (confidence maskQuality : JS.number)
    (clicks : list Types.Point) (drawn : option Types.BoundingBox)
    (fields : list Selection.field) :
  clicks <> [] ->
  Selection.analyzeMedia trim dataURLtoBlob (Some f) promptText imageBase64
    confidence maskQuality clicks drawn = inr fields ->
  exists (a b : Z) (rest : list Selection.field),
    1 <= a <= 25 /\ 1 <= b <= 25 /\
    fields
    = Selection.image "input.jpg" (Some (JS.of_Z (32 * a), JS.of_Z (32 * b)))
      :: Selection.pointsField (map (fun p => (Types.x p, Types.y p)) clicks)
      :: Selection.point_labels (map Types.label clicks)
      :: rest /\
    Forall (fun field => Selection.isBoxes field = false /\
                         Selection.isPoints field = false) rest.
Proof.
  intros Hclicks H.
  destruct (analyzeMedia_fields _ _ _ _ _ _ _ _ _ _ H)
    as (picture & chosen & words & -> & (p & Hp & ->) & -> & -> & _).
  destruct (processImageForApi_size f p Hp) as (nw & nh & _ & Hsz).
  destruct (canvasSize_grid nw nh) as (a & b & Ha & Hb & Hcs & _).
  rewrite Hcs in Hsz. injection Hsz as -> ->.
  destruct clicks as [| click others]; [done |].
  cbn [length Nat.ltb Nat.leb app].
  exists a, b. eexists. split; [done | split; [done | split; [reflexivity |]]].
  destruct (Selection.truthy promptText && Selection.truthy (trim promptText));
    repeat constructor.
Qed.

(** A click at column 1500 of a 1920 by 1080 photograph is sent as column
    1500 with an image 800 pixels wide. *)
Lemma points_sent_as_clicked_witness :
  exists rest,
    Selection.analyzeMedia (fun t => t) (fun _ => true)
      (Some (ImageApi.mkPlatform (Some (1920, 1080)%nat) true true))
      EmptyString None (JS.Fin (1 # 2)) (JS.Fin (1 # 2))
      [Types.mkPoint (JS.of_Z 1500) (JS.of_Z 700) (JS.of_Z 1)] None
    = inr (Selection.image "input.jpg" (Some (JS.of_Z 800, JS.of_Z 448))
           :: Selection.pointsField [(JS.of_Z 1500, JS.of_Z 700)]
           :: Selection.point_labels [JS.of_Z 1]
           :: rest).
Proof.
  destruct (points_sent_as_clicked (fun t => t) (fun _ => true)
              (ImageApi.mkPlatform (Some (1920, 1080)%nat) true true)
              EmptyString None (JS.Fin (1 # 2)) (JS.Fin (1 # 2))
              [Types.mkPoint (JS.of_Z 1500) (JS.of_Z 700) (JS.of_Z 1)] None
              _ ltac:(discriminate) ltac:(vm_compute; reflexivity))
    as (a & b & rest & _ & _ & Hfields & _).
  injection Hfields as _ _ Hrest. exists rest. vm_compute. by rewrite Hrest.
Defined.

(** X19.  Undoing a click restores the selection as it was.  A click after a
    box keeps the box in the selection, yet every form sent for it holds
    the point and no box; after the click is undone the forms hold the box
    and no point. *)
Theorem click_hides_box
    (trim : string -> string) (dataURLtoBlob : string -> bool)
    (file : option ImageApi.platform) (imageBase64 : option string)
    (confidence maskQuality : JS.number)
    (s : Selection.selection) (b : Types.BoundingBox) (pt : Types.Point) :
  Selection.handleUndoPoint (Selection.handlePointClick pt s) = s /\
  Selection.box (Selection.handlePointClick pt (Selection.handleBoxComplete b s))
  = Some b /\
  (forall fields,
     Selection.analyzeMedia trim dataURLtoBlob file
       (Selection.prompt s) imageBase64 confidence maskQuality
       (Selection.points
          (Selection.handlePointClick pt (Selection.handleBoxComplete b s)))
       (Selection.box
          (Selection.handlePointClick pt (Selection.handleBoxComplete b s)))
     = inr fields ->
     Selection.pointsField [(Types.x pt, Types.y pt)] ∈ fields /\
     Forall (fun field => Selection.isBoxes field = false) fields) /\
  (forall fields,
     Selection.analyzeMedia trim dataURLtoBlob file
       (Selection.prompt s) imageBase64 confidence maskQuality
       (Selection.points
          (Selection.handleUndoPoint
             (Selection.handlePointClick pt
                (Selection.handleBoxComplete b s))))
       (Selection.box
          (Selection.handleUndoPoint
             (Selection.handlePointClick pt
                (Selection.handleBoxComplete b s))))
     = inr fields ->
     Selection.boxes
       [(Types.xmin b, Types.ymin b, Types.xmax b, Types.ymax b)] ∈ fields /\
     Forall (fun field => Selection.isPoints field = false) fields).
Proof.
  split; [| split; [reflexivity | split]].
  - destruct s as [promptText clicks drawn url camera].
    unfold Selection.handleUndoPoint, Selection.handlePointClick.
    cbn [Selection.points Selection.prompt Selection.box Selection.mediaUrl
         Selection.isCameraActive].
    rewrite length_app. cbn [length].
    replace (0 <? length clicks + 1)%nat with true
      by (symmetry; apply Nat.ltb_lt; lia).
    replace (length clicks + 1 - 1)%nat with (length clicks) by lia.
    by rewrite take_app_length.
  - intros fields H.
    destruct (analyzeMedia_fields _ _ _ _ _ _ _ _ _ _ H)
      as (picture & chosen & words & -> & Hpic & -> & -> & _).
    cbn. split; [apply list_elem_of_further, list_elem_of_here |].
    assert (Hpicture : Selection.isBoxes picture = false).
    { destruct file; [destruct Hpic as (sent & _ & ->) | subst]; done. }
    destruct (Selection.truthy _ && Selection.truthy _);
      repeat constructor; done.
  - intros fields H.
    destruct (analyzeMedia_fields _ _ _ _ _ _ _ _ _ _ H)
      as (picture & chosen & words & -> & Hpic & -> & -> & _).
    cbn. split; [apply list_elem_of_further, list_elem_of_here |].
    assert (Hpicture : Selection.isPoints picture = false).
    { destruct file; [destruct Hpic as (sent & _ & ->) | subst]; done. }
    destruct (Selection.truthy _ && Selection.truthy _);
      repeat constructor; done.
Qed.

(** A box, then a click at (5, 6) on a 640 by 480 image: the form holds the
    point; with the click undone it holds the box. *)
Lemma click_hides_box_witness :
  Selection.pointsField [(JS.of_Z 5, JS.of_Z 6)]
  ∈ [Selection.image "input.jpg" (Some (JS.of_Z 640, JS.of_Z 480));
     Selection.pointsField [(JS.of_Z 5, JS.of_Z 6)];
     Selection.point_labels [JS.of_Z 1];
     Selection.threshold (JS.Fin (1 # 2));
     Selection.mask_threshold (JS.Fin (1 # 2))].
Proof.
  destruct (click_hides_box (fun t => t) (fun _ => true)
              (Some (ImageApi.mkPlatform (Some (640, 480)%nat) true true))
              None (JS.Fin (1 # 2)) (JS.Fin (1 # 2))
              (Selection.mkSelection EmptyString [] None None false)
              (Types.mkBox (JS.of_Z 10) (JS.of_Z 10) (JS.of_Z 90) (JS.of_Z 90))
              (Types.mkPoint (JS.of_Z 5) (JS.of_Z 6) (JS.of_Z 1)))
    as (_ & _ & Hclick & _).
  destruct (Hclick _ ltac:(vm_compute; reflexivity)) as [Hin _].
  exact Hin.
Defined.

Section upload_facts.

Import JS Upload.

Lemma afterComma_app (header rest : string) :
  afterComma header = None ->
  afterComma (header +:+ "," +:+ rest) = Some rest.
Proof.
  induction header as [| c header IH]; [done |].
  simpl. destruct (Ascii.eqb c _); [done | exact IH].
Qed.

Lemma untilComma_all (s : string) : afterComma s = None -> untilComma s = s.
Proof.
  induction s as [| c s IH]; [done |].
  simpl. destruct (Ascii.eqb c _); [done |].
  intros H. by rewrite IH.
Qed.

Lemma untilComma_app (s rest : string) :
  afterComma s = None -> untilComma (s +:+ "," +:+ rest) = s.
Proof.
  induction s as [| c s IH]; [done |].
  simpl. destruct (Ascii.eqb c _); [done |]. intros H. by rewrite IH.
Qed.

Lemma append_assoc (s1 s2 s3 : string) :
  (s1 +:+ s2) +:+ s3 = s1 +:+ s2 +:+ s3.
Proof.
  induction s1 as [| c s1 IH]; [done |].
  change ((String c s1 +:+ s2) +:+ s3) with (String c ((s1 +:+ s2) +:+ s3)).
  change (String c s1 +:+ s2 +:+ s3) with (String c (s1 +:+ s2 +:+ s3)).
  by rewrite IH.
Qed.

(** [q / 1024 / 1024 > m] compares [q] with [m] mebibytes. *)
Lemma megabytes_gtb (q : Q) (m : Z) :
  gtb (megabytes (Fin q)) (of_Z m)
  = negb (Qle_bool q (inject_Z (m * 1048576))).
Proof.
  unfold megabytes, gtb, of_Z. rewrite !div_Fin_pos by reflexivity.
  cbn [ltb]. f_equal.
  rewrite inject_Z_mult. change (inject_Z 1024) with 1024%Q.
  change (inject_Z 1048576) with 1048576%Q.
  destruct (Qle_bool q _) eqn:E.
  - apply Qle_bool_iff in E. apply Qle_bool_iff.
    apply Qle_shift_div_r; [reflexivity |].
    apply Qle_shift_div_r; [reflexivity |]. lra.
  - apply Qle_bool_false in E.
    destruct (Qle_bool (q / 1024 / 1024) _) eqn:E'; [| done].
    apply Qle_bool_iff in E'. exfalso.
    assert (Hq : (q == q / 1024 / 1024 * 1048576)%Q) by field. lra.
Qed.

Lemma file_size_gate (size : nat) (m : Z) :
  gtb (megabytes (of_nat size)) (of_Z m) = (m * 1048576 <? Z.of_nat size).
Proof.
  unfold of_nat, of_Z at 1. rewrite megabytes_gtb, Qle_bool_inject.
  destruct (Z.leb_spec (Z.of_nat size) (m * 1048576)),
    (Z.ltb_spec (m * 1048576) (Z.of_nat size)); cbn; lia || done.
Qed.

Lemma base64_size_gate (len : nat) (m : Z) :
  gtb (megabytes (div (mul (of_nat len) (of_Z 3)) (of_Z 4))) (of_Z m)
  = (m * 4194304 <? 3 * Z.of_nat len).
Proof.
  unfold of_nat. rewrite mul_of_Z. unfold of_Z at 1 2.
  rewrite div_Fin_pos by reflexivity. rewrite megabytes_gtb.
  change (inject_Z 4) with 4%Q.
  destruct (Qle_bool _ _) eqn:E.
  - apply Qle_bool_iff in E. symmetry. apply Z.ltb_ge.
    assert (E' : (inject_Z (Z.of_nat len * 3) <= inject_Z (m * 1048576) * 4)%Q).
    { assert (Hq : (inject_Z (Z.of_nat len * 3)
                    == inject_Z (Z.of_nat len * 3) / 4 * 4)%Q) by field.
      lra. }
    change 4%Q with (inject_Z 4) in E'.
    rewrite <- inject_Z_mult, <- Zle_Qle in E'. lia.
  - apply Qle_bool_false in E. symmetry. apply Z.ltb_lt.
    assert (E' : (inject_Z (m * 1048576) * 4 < inject_Z (Z.of_nat len * 3))%Q).
    { assert (Hq : (inject_Z (Z.of_nat len * 3)
                    == inject_Z (Z.of_nat len * 3) / 4 * 4)%Q) by field.
      lra. }
    change 4%Q with (inject_Z 4) in E'.
    rewrite <- inject_Z_mult, <- Zlt_Qlt in E'. lia.
Qed.

Lemma fileToBase64_payload (header base64 : string) :
  afterComma header = None -> afterComma base64 = None ->
  fileToBase64 (Some (header +:+ "," +:+ base64))
  = if (String.length base64 =? 0)%nat then inl ReadFailed else inr base64.
Proof.
  intros Hh Hb. unfold fileToBase64.
  by rewrite afterComma_app, untilComma_all.
Qed.

End upload_facts.

(** X20.  [fileToBase64] returns the text between the first and the second
    comma of the data URL: the base64 text when neither the header nor the
    text holds a comma, but a piece of the header when the header (the MIME
    type) holds one. *)
Theorem fileToBase64_between_commas (header base64 : string) :
  Upload.afterComma base64 = None ->
  (Upload.afterComma header = None ->
   Upload.fileToBase64 (Some (header +:+ "," +:+ base64))
   = if (String.length base64 =? 0)%nat then inl Upload.ReadFailed
     else inr base64) /\
  (forall first second : string,
     Upload.afterComma first = None -> Upload.afterComma second = None ->
     header = first +:+ "," +:+ second ->
     Upload.fileToBase64 (Some (header +:+ "," +:+ base64))
     = if (String.length second =? 0)%nat then inl Upload.ReadFailed
       else inr second).
Proof.
  intros Hb. split; [intros Hh; by apply fileToBase64_payload |].
  intros first second Hf Hs ->. unfold Upload.fileToBase64.
  rewrite !append_assoc, afterComma_app by done. by rewrite untilComma_app.
Qed.

(** A QuickTime file reads back as its base64 text; with a codecs parameter
    that holds a comma the text returned is the tail of the header. *)
Lemma fileToBase64_between_commas_witness :
  Upload.fileToBase64 (Some "data:video/quicktime;base64,AAAA"%string)
  = inr "AAAA"%string /\
  Upload.fileToBase64
    (Some "data:video/mp4;codecs=avc1,mp4a;base64,AAAA"%string)
  = inr "mp4a;base64"%string.
Proof.
  destruct (fileToBase64_between_commas
              "data:video/quicktime;base64" "AAAA" eq_refl) as [Hplain _].
  destruct (fileToBase64_between_commas
              "data:video/mp4;codecs=avc1,mp4a;base64" "AAAA" eq_refl)
    as [_ Hsplit].
  split; [exact (Hplain eq_refl) |].
  exact (Hsplit "data:video/mp4;codecs=avc1" "mp4a;base64"
           eq_refl eq_refl eq_refl).
Defined.

(** X21.  For a file whose data URL is its base64 text (four characters for
    every three bytes), [trackVideoText] accepts exactly the files of 1 to
    52,428,800 bytes and never throws the error of its second size check,
    while [trackVideoTextFast] accepts exactly the files of 1 to 52,428,798
    bytes: the padding of the base64 text makes it reject the two largest
    sizes the other accepts. *)
Theorem upload_limits (size : nat) (header base64 result : string) :
  Upload.dataURLOf size header base64 result ->
  Upload.trackVideoText size (Some result)
  = (if 52428800 <? Z.of_nat size then inl Upload.FileTooLarge
     else if (size =? 0)%nat then inl Upload.ReadFailed
     else inr base64) /\
  Upload.trackVideoTextFast (Some result)
  = (if (size =? 0)%nat then inl Upload.ReadFailed
     else if 52428798 <? Z.of_nat size then inl Upload.VideoTooLarge
     else inr base64).
Proof.
  intros (-> & Hh & Hb & Hlen).
  unfold Upload.trackVideoText, Upload.trackVideoTextFast.
  rewrite fileToBase64_payload by done.
  rewrite file_size_gate. change (50 * 1048576) with 52428800.
  assert (Hzero : (String.length base64 =? 0)%nat = (size =? 0)%nat).
  { rewrite Hlen. destruct size as [| n]; [reflexivity |].
    assert (Hpos : (1 <= (S n + 2) / 3)%nat)
      by (apply Nat.div_le_lower_bound; lia).
    rewrite (proj2 (Nat.eqb_neq (S n) 0)) by lia.
    apply Nat.eqb_neq. lia. }
  assert (Hthree : 3 * Z.of_nat (String.length base64)
                   = 12 * ((Z.of_nat size + 2) / 3)).
  { rewrite Hlen. rewrite Nat2Z.inj_mul, Nat2Z.inj_div, Nat2Z.inj_add. lia. }
  pose proof (Z.div_mod (Z.of_nat size + 2) 3 ltac:(lia)) as Hdm.
  pose proof (Z.mod_pos_bound (Z.of_nat size + 2) 3 ltac:(lia)) as Hm.
  split.
  - destruct (Z.ltb_spec 52428800 (Z.of_nat size)) as [Hbig | Hfit]; [done |].
    rewrite Hzero. destruct (size =? 0)%nat eqn:E0; [done |].
    rewrite Hzero, base64_size_gate, Hthree.
    by rewrite (proj2 (Z.ltb_ge _ _)) by lia.
  - rewrite Hzero. destruct (size =? 0)%nat eqn:E0; [done |].
    rewrite base64_size_gate, Hthree.
    destruct (Z.ltb_spec 52428798 (Z.of_nat size)) as [Hbig | Hfit].
    + by rewrite (proj2 (Z.ltb_lt _ _)) by lia.
    + by rewrite (proj2 (Z.ltb_ge _ _)) by lia.
Qed.

(** A file of two bytes, read as "AAA=", is accepted by both. *)
Lemma upload_limits_witness :
  Upload.trackVideoText 2 (Some "data:video/mp4;base64,AAA="%string)
  = inr "AAA="%string /\
  Upload.trackVideoTextFast (Some "data:video/mp4;base64,AAA="%string)
  = inr "AAA="%string.
Proof.
  apply (upload_limits 2 "data:video/mp4;base64" "AAA="
           "data:video/mp4;base64,AAA=").
  repeat split.
Defined.

Section composite_event_facts.

Import Canvas Composite.

Variable scale : nat -> nat -> Raster -> Raster.
Variable offContext2d : bool.
Variables img mask : Raster.

(** A settled promise stays as it is. *)
Lemma settle_kept (v' : failure + result) (s : loader) (v : failure + result) :
  settled s = Some v -> settled (settle v' s) = Some v.
Proof. intros Hs. unfold settle. by rewrite Hs. Qed.

Lemma tryComposite_kept (s : loader) (v : failure + result) :
  settled s = Some v ->
  settled (tryComposite scale offContext2d img mask s) = Some v.
Proof.
  intros Hs. unfold tryComposite. destruct (waiting s); [done |].
  by apply settle_kept.
Qed.

Lemma handle_kept (ev : event) (s : loader) (v : failure + result) :
  settled s = Some v ->
  settled (handle scale offContext2d img mask s ev) = Some v.
Proof.
  intros Hs. destruct ev; cbn [handle].
  - by apply tryComposite_kept.
  - by apply settle_kept.
  - by apply tryComposite_kept.
  - by apply tryComposite_kept.
  - destruct (timeoutId s && waiting s); [by apply settle_kept | done].
Qed.

Lemma settled_stays (events : list event) (s : loader) (v : failure + result) :
  settled s = Some v ->
  settled (deliver scale offContext2d img mask events s) = Some v.
Proof.
  revert s. induction events as [| ev rest IH]; intros s Hs; [done |].
  unfold deliver. cbn [fold_left]. apply IH. by apply handle_kept.
Qed.

Ltac step_handle :=
  match goal with
  | |- context [handle ?sc ?off ?i ?m ?s ?e] =>
      let t := eval cbv [handle tryComposite waiting settle clearTimeout
                         imgLoaded maskLoaded maskError timeoutId settled
                         negb orb andb] in (handle sc off i m s e) in
      change (handle sc off i m s e) with t
  end.

Lemma deliver_cons (ev : event) (rest : list event) (s : loader) :
  deliver scale offContext2d img mask (ev :: rest) s
  = deliver scale offContext2d img mask rest
      (handle scale offContext2d img mask s ev).
Proof. reflexivity. Qed.

Lemma delivered_cons (ev e : event) (rest : list event) :
  delivered ev (e :: rest) = sameEvent ev e || delivered ev rest.
Proof. reflexivity. Qed.

(** Without a timeout and without a failure of the image, and as long as
    no mask failure is delivered, the promise resolves when the image and
    the mask have both loaded, with the mask applied. *)
Lemma run_mask_loaded (events : list event) : forall s : loader,
  settled s = None -> waiting s = true -> maskError s = false ->
  delivered Timeout events = false -> delivered ImgError events = false ->
  delivered MaskError events = false ->
  settled (deliver scale offContext2d img mask events s)
  = if (imgLoaded s || delivered ImgLoad events)
       && (maskLoaded s || delivered MaskLoad events)
    then Some (encode (paint scale offContext2d img
                         (if (0 <? rw mask)%nat then Some mask else None)))
    else None.
Proof.
  induction events as [| ev rest IH];
    intros [il ml me tid st] Hs Hw He Ht Hi Hm;
    cbn [settled maskError imgLoaded maskLoaded] in *; subst st me.
  - cbn [deliver fold_left settled delivered existsb].
    rewrite !orb_false_r. by destruct il, ml.
  - rewrite deliver_cons, !delivered_cons.
    rewrite delivered_cons in Ht, Hi, Hm.
    destruct ev; cbn [sameEvent orb] in Ht, Hi, Hm |- *; try discriminate;
      destruct il, ml; try discriminate Hw;
      step_handle;
      first [ by apply settled_stays | by rewrite IH ].
Qed.

(** The same when the mask fails to load: the image alone is encoded. *)
Lemma run_mask_failed (events : list event) : forall s : loader,
  settled s = None -> waiting s = true -> maskLoaded s = false ->
  delivered Timeout events = false -> delivered ImgError events = false ->
  delivered MaskLoad events = false ->
  settled (deliver scale offContext2d img mask events s)
  = if (imgLoaded s || delivered ImgLoad events)
       && (maskError s || delivered MaskError events)
    then Some (encode (paint scale offContext2d img None))
    else None.
Proof.
  induction events as [| ev rest IH];
    intros [il ml me tid st] Hs Hw Hl Ht Hi Hm;
    cbn [settled maskError imgLoaded maskLoaded] in *; subst st ml.
  - cbn [deliver fold_left settled delivered existsb].
    rewrite !orb_false_r. by destruct il, me.
  - rewrite deliver_cons, !delivered_cons.
    rewrite delivered_cons in Ht, Hi, Hm.
    destruct ev; cbn [sameEvent orb] in Ht, Hi, Hm |- *; try discriminate;
      destruct il, me; try discriminate Hw;
      step_handle;
      first [ by apply settled_stays | by rewrite IH ].
Qed.

(** While the image or the mask is outstanding, and neither the timer nor
    a failure of the image has been delivered, the promise is pending and
    the timer is set. *)
Lemma run_pending (events : list event) : forall s : loader,
  settled s = None -> waiting s = true -> timeoutId s = true ->
  delivered Timeout events = false -> delivered ImgError events = false ->
  (imgLoaded s || delivered ImgLoad events)
  && (maskLoaded s || maskError s
      || delivered MaskLoad events || delivered MaskError events) = false ->
  settled (deliver scale offContext2d img mask events s) = None /\
  waiting (deliver scale offContext2d img mask events s) = true /\
  timeoutId (deliver scale offContext2d img mask events s) = true.
Proof.
  induction events as [| ev rest IH];
    intros [il ml me tid st] Hs Hw Hid Ht Hi Hnot;
    cbn [settled maskError imgLoaded maskLoaded timeoutId] in *; subst st tid;
    [done |].
  rewrite deliver_cons. rewrite !delivered_cons in Ht, Hi, Hnot.
  destruct ev; cbn [sameEvent orb] in Ht, Hi, Hnot; try discriminate;
    destruct il, ml, me; cbn [orb andb] in Hnot;
    rewrite ?orb_true_r in Hnot; try discriminate Hnot; try discriminate Hw;
    step_handle;
    apply IH; try done;
    cbn [imgLoaded maskLoaded maskError orb andb];
    rewrite ?orb_true_r; try done.
Qed.

End composite_event_facts.

(** X22.  For a blob that is not empty, a mask image and a 2D context, and
    events that hold neither the timer nor a failure of the image: if no
    failure of the mask is delivered, [compositeOverlay] resolves exactly
    when the loads of the image and of the mask have both been delivered,
    in either order, with the mask painted over the image; if the mask
    fails instead of loading, it resolves (it never rejects for the mask)
    with the image alone. *)
Theorem compositeOverlay_settles
    (scale : nat -> nat -> Canvas.Raster -> Canvas.Raster)
    (blobSize : nat) (mask img : Canvas.Raster) (offContext2d : bool)
    (events : list Composite.event) :
  (0 < blobSize)%nat ->
  Composite.delivered Composite.Timeout events = false ->
  Composite.delivered Composite.ImgError events = false ->
  (Composite.delivered Composite.MaskError events = false ->
   Composite.compositeOverlay scale blobSize (Some mask) true offContext2d img
     events
   = if Composite.delivered Composite.ImgLoad events
        && Composite.delivered Composite.MaskLoad events
     then Some (Composite.encode
                  (Composite.paint scale offContext2d img
                     (if (0 <? Canvas.rw mask)%nat then Some mask else None)))
     else None) /\
  (Composite.delivered Composite.MaskLoad events = false ->
   Composite.compositeOverlay scale blobSize (Some mask) true offContext2d img
     events
   = if Composite.delivered Composite.ImgLoad events
        && Composite.delivered Composite.MaskError events
     then Some (Composite.encode (Composite.paint scale offContext2d img None))
     else None).
Proof.
  intros Hblob Ht Hi. unfold Composite.compositeOverlay.
  rewrite (proj2 (Nat.eqb_neq blobSize 0)) by lia. cbn [negb].
  split; intros Hm.
  - by rewrite run_mask_loaded.
  - by rewrite run_mask_failed.
Qed.

(** The mask arrives before the image: the promise resolves at the load of
    the image, with the mask painted. *)
Lemma compositeOverlay_settles_witness :
  Composite.compositeOverlay (fun _ _ r => r) 1024
    (Some (Canvas.mkRaster 1 1 [RLE.white])) true true
    (Canvas.mkRaster 1 1 [(10, 20, 30, 255)])
    [Composite.MaskLoad; Composite.ImgLoad]
  = Some (Composite.encode
            (Composite.paint (fun _ _ r => r) true
               (Canvas.mkRaster 1 1 [(10, 20, 30, 255)])
               (Some (Canvas.mkRaster 1 1 [RLE.white])))).
Proof.
  destruct (compositeOverlay_settles (fun _ _ r => r) 1024
              (Canvas.mkRaster 1 1 [RLE.white])
              (Canvas.mkRaster 1 1 [(10, 20, 30, 255)]) true
              [Composite.MaskLoad; Composite.ImgLoad]
              ltac:(lia) eq_refl eq_refl) as [Hloaded _].
  exact (Hloaded eq_refl).
Defined.

(** X23.  A rejection is final.  If the timer fires while the image or the
    mask is outstanding, [compositeOverlay] rejects with the timeout, and
    if the image fails first it rejects with the load failure, whatever is
    delivered afterwards. *)
Theorem compositeOverlay_rejection_final
    (scale : nat -> nat -> Canvas.Raster -> Canvas.Raster)
    (blobSize : nat) (mask img : Canvas.Raster) (offContext2d : bool)
    (before after : list Composite.event) :
  (0 < blobSize)%nat ->
  Composite.delivered Composite.Timeout before = false ->
  Composite.delivered Composite.ImgError before = false ->
  Composite.delivered Composite.ImgLoad before
  && (Composite.delivered Composite.MaskLoad before
      || Composite.delivered Composite.MaskError before) = false ->
  Composite.compositeOverlay scale blobSize (Some mask) true offContext2d img
    (before ++ Composite.Timeout :: after)
  = Some (inl Composite.TimeoutWaiting) /\
  Composite.compositeOverlay scale blobSize (Some mask) true offContext2d img
    (before ++ Composite.ImgError :: after)
  = Some (inl Composite.OriginalLoadFailed).
Proof.
  intros Hblob Ht Hi Hnot. unfold Composite.compositeOverlay.
  rewrite (proj2 (Nat.eqb_neq blobSize 0)) by lia. cbn [negb].
  destruct (run_pending scale offContext2d img mask before Composite.loading)
    as (Hs & Hw & Hid); try done.
  unfold Composite.deliver in *. rewrite !fold_left_app. cbn [fold_left].
  set (s := fold_left _ before _) in *.
  split; apply (settled_stays scale offContext2d img mask after); cbn [Composite.handle].
  - rewrite Hid, Hw. cbn [andb]. unfold Composite.settle. by rewrite Hs.
  - unfold Composite.settle, Composite.clearTimeout. cbn [Composite.settled].
    by rewrite Hs.
Qed.

(** The image loads, the timer fires, and the mask loads too late. *)
Lemma compositeOverlay_rejection_final_witness :
  Composite.compositeOverlay (fun _ _ r => r) 1024
    (Some (Canvas.mkRaster 1 1 [RLE.white])) true true
    (Canvas.mkRaster 1 1 [(10, 20, 30, 255)])
    [Composite.ImgLoad; Composite.Timeout; Composite.MaskLoad]
  = Some (inl Composite.TimeoutWaiting).
Proof.
  apply (compositeOverlay_rejection_final (fun _ _ r => r) 1024
           (Canvas.mkRaster 1 1 [RLE.white])
           (Canvas.mkRaster 1 1 [(10, 20, 30, 255)]) true
           [Composite.ImgLoad] [Composite.MaskLoad]
           ltac:(lia) eq_refl eq_refl eq_refl).
Defined.

Section still_overlay_facts.

Import Canvas Reading Composite.



End still_overlay_facts.



Section trim_flow_facts.

Import JS Trim TrimFlow.

Variables startTime endTime : number.
Variable onProgress : bool.

(** Before recording has started nothing is armed, and no event but a seek
    that passes the guard, or an error of the video, changes that. *)
Lemma idle_flow_stays (events : list event) :
  neverAtStart startTime endTime events ->
  fold_left (handle startTime endTime onProgress) events waitingForSeek
  = waitingForSeek.
Proof.
  induction 1 as [| ev rest Hev _ IH]; [done |].
  cbn [fold_left].
  replace (handle startTime endTime onProgress waitingForSeek ev)
    with waitingForSeek; [exact IH |].
  destruct ev; try done. cbn [handle waitingForSeek recorder isRecording negb].
  by rewrite Hev.
Qed.

Lemma seek_from_negative_start (s q : Q) :
  (s <= - (1 # 2))%Q -> (0 <= q)%Q ->
  atStart (Fin s) endTime (Fin q) = false.
Proof.
  intros Hs Hq. unfold atStart. apply andb_false_intro2.
  cbn [sub neg add Viewer.Math_abs ltb].
  apply negb_false_iff, Qle_bool_iff.
  destruct (Qle_bool 0 (q + - s)) eqn:E;
    [apply Qle_bool_iff in E | apply Qle_bool_false in E]; lra.
Qed.

End trim_flow_facts.

(** X25.  [trimVideoFile] has no timer of its own: as long as no seek lands
    before the end time and within half a second of the start time, and
    the video reports no error, the promise stays pending whatever else is
    delivered.  This is the case of every seek to a time that is not
    negative when the start time is at or below minus half a second. *)
Theorem trimVideoFile_never_starts
    (startTime endTime : JS.number) (onProgress : bool)
    (events : list TrimFlow.event) :
  (TrimFlow.neverAtStart startTime endTime events ->
   TrimFlow.trimVideoFile true startTime endTime onProgress events = None) /\
  (forall s q : Q,
     (s <= - (1 # 2))%Q -> (0 <= q)%Q ->
     TrimFlow.atStart (JS.Fin s) endTime (JS.Fin q) = false).
Proof.
  split.
  - intros Hev. unfold TrimFlow.trimVideoFile. cbn [negb].
    by rewrite idle_flow_stays.
  - intros s q. apply seek_from_negative_start.
Qed.

(** The start of minus three quarters of a second that a clip of a quarter
    of a second can get: the seek lands at 0, recording never starts, and
    the frames and the stop of a recorder that does not exist change
    nothing. *)
Lemma trimVideoFile_never_starts_witness :
  TrimFlow.trimVideoFile true (JS.Fin (- (3 # 4))) (JS.Fin (1 # 4)) true
    [TrimFlow.LoadedMetadata; TrimFlow.Seeked (JS.Fin 0);
     TrimFlow.AnimationFrame false (JS.Fin 0); TrimFlow.RecorderStopped]
  = None.
Proof.
  apply (proj1 (trimVideoFile_never_starts (JS.Fin (- (3 # 4)))
                  (JS.Fin (1 # 4)) true _)).
  repeat constructor.
Defined.

Section trim_run_facts.

Import JS Trim TrimFlow.

Variables startTime endTime : number.
Variable onProgress : bool.

(** The flow while frames are being recorded. *)
Lemma recording_frames (times : list number) :
  Forall (fun t => geb t endTime = false) times ->
  fold_left (handle startTime endTime onProgress)
    (map (AnimationFrame false) times)
    (mkFlow (mkTrimmer true (Some recording) false) false true None)
  = mkFlow (mkTrimmer true (Some recording) false) false true None.
Proof.
  induction 1 as [| t rest Ht _ IH]; [done |].
  cbn [map fold_left handle frameRequested].
  unfold frame, processFrame.
  cbn [recorder isRecording negb orb playPending settled]. rewrite Ht.
  cbn [next rescheduled]. exact IH.
Qed.

End trim_run_facts.

(** X26.  Once a seek has landed at the start, playback has begun and the
    frames before the end time have been drawn, the first frame at which
    the video has ended or reached the end time stops the recorder; the
    promise is still pending then, and resolves with the file when the
    recorder reports that it has stopped. *)
Theorem trimVideoFile_completes
    (startTime endTime : JS.number) (onProgress : bool)
    (seekedAt first : JS.number) (times : list JS.number)
    (ended : bool) (last : JS.number) :
  TrimFlow.atStart startTime endTime seekedAt = true ->
  JS.geb first endTime = false ->
  Forall (fun t => JS.geb t endTime = false) times ->
  ended || JS.geb last endTime = true ->
  TrimFlow.trimVideoFile true startTime endTime onProgress
    ([TrimFlow.LoadedMetadata; TrimFlow.Seeked seekedAt;
      TrimFlow.Played false first]
     ++ map (TrimFlow.AnimationFrame false) times
     ++ [TrimFlow.AnimationFrame ended last]) = None /\
  TrimFlow.trimVideoFile true startTime endTime onProgress
    ([TrimFlow.LoadedMetadata; TrimFlow.Seeked seekedAt;
      TrimFlow.Played false first]
     ++ map (TrimFlow.AnimationFrame false) times
     ++ [TrimFlow.AnimationFrame ended last; TrimFlow.RecorderStopped])
  = Some TrimFlow.TrimmedFile.
Proof.
  intros Hseek Hfirst Htimes Hlast. unfold TrimFlow.trimVideoFile.
  cbn [negb app fold_left TrimFlow.handle TrimFlow.waitingForSeek
       TrimFlow.recorder Trim.isRecording].
  rewrite Hseek.
  cbn [andb TrimFlow.startRecording TrimFlow.playPending
       TrimFlow.frameRequested TrimFlow.settled TrimFlow.recorder].
  unfold TrimFlow.frame at 1 2. unfold Trim.processFrame at 1 2 3 4.
  cbn [TrimFlow.recorder Trim.isRecording negb orb]. rewrite Hfirst.
  cbn [Trim.next Trim.rescheduled TrimFlow.playPending TrimFlow.settled].
  rewrite !fold_left_app, !recording_frames by done.
  cbn [fold_left TrimFlow.handle TrimFlow.frameRequested].
  unfold TrimFlow.frame, Trim.processFrame.
  cbn [TrimFlow.recorder Trim.isRecording negb]. rewrite Hlast.
  split; reflexivity.
Qed.

(** The window from 2 to 4 seconds: the seek lands at 2.1, frames are drawn
    at 2.1, 3 and 3.9, and the frame at 4 stops the recorder. *)
Lemma trimVideoFile_completes_witness :
  TrimFlow.trimVideoFile true (JS.Fin 2) (JS.Fin 4) true
    [TrimFlow.LoadedMetadata; TrimFlow.Seeked (JS.Fin (21 # 10));
     TrimFlow.Played false (JS.Fin (21 # 10));
     TrimFlow.AnimationFrame false (JS.Fin 3);
     TrimFlow.AnimationFrame false (JS.Fin (39 # 10));
     TrimFlow.AnimationFrame false (JS.Fin 4);
     TrimFlow.RecorderStopped]
  = Some TrimFlow.TrimmedFile.
Proof.
  apply (trimVideoFile_completes (JS.Fin 2) (JS.Fin 4) true
           (JS.Fin (21 # 10)) (JS.Fin (21 # 10))
           [JS.Fin 3; JS.Fin (39 # 10)] false (JS.Fin 4));
    [reflexivity | reflexivity | by repeat constructor | reflexivity].
Defined.
